(** * Rare format detection: a shallow embedding of
      [mlchecks/checks/integrity/rare_format_detection.py]

    The Python module finds, for a column of strings, the dominant "format"
    of its values, splits formats into common and rare ones at a sharp drop
    of their frequencies, and optionally refines the common formats.

    Modelling choices.
    - A pandas [Series] of strings is a [list string]; a [Series] of counts
      indexed by strings (the result of [value_counts]) is a list of
      (label, count) pairs, in order.
    - Counts are [Z].  The threshold, the product [threshold * prev] and the
      rare-to-common ratio are floats in the code.  They are exact rationals
      [Q] in the first model of [get_rare_vs_common_values] and in the
      functions built on it, which serves for the properties that rounding
      does not touch, and binary64 numbers in the second model, [F64], which
      computes as the code does.
    - [re.sub] is modelled for rules that are a character class or a run of
      one, and for fillers without a backslash, which it writes as they
      are.
    - Python exceptions are values of [exn]; code that can raise returns
      [result A].
    - The two helpers of [mlchecks.base.string_utils] are not part of the
      sources at hand; the functions that call them take them as parameters. *)

From Stdlib Require Import List String Ascii Bool Arith ZArith QArith Lia.
From Stdlib Require Import Permutation Sorted.
From Stdlib Require Import SpecFloat.
Import ListNotations.

Local Open Scope string_scope.
Local Open Scope list_scope.

(* ------------------------------------------------------------------ *)
(** ** Exceptions *)

Module Py.

Inductive exn : Type :=
| IndexError
| KeyError (key : string)
| TypeError
| MLChecksValueError (msg : string).

Inductive result (A : Type) : Type :=
| Ok (a : A)
| Raise (e : exn).

Arguments Ok {A} a.
Arguments Raise {A} e.

Definition bind {A B} (m : result A) (k : A -> result B) : result B :=
  match m with
  | Ok a => k a
  | Raise e => Raise e
  end.

(** [xs[i]] on a Python list. *)
Definition getitem {A} (xs : list A) (i : nat) : result A :=
  match nth_error xs i with
  | Some x => Ok x
  | None => Raise IndexError
  end.

(** A list comprehension whose element expression may raise. *)
Fixpoint mapM {A B} (f : A -> result B) (xs : list A) : result (list B) :=
  match xs with
  | [] => Ok []
  | x :: r =>
      bind (f x) (fun y => bind (mapM f r) (fun ys => Ok (y :: ys)))
  end.

(** [sub in s] on Python strings. *)
Fixpoint str_in (sub s : string) : bool :=
  if String.prefix sub s then true
  else match s with
       | EmptyString => false
       | String _ s' => str_in sub s'
       end.

(** [list(s)]: the one-character strings of [s]. *)
Fixpoint chars (s : string) : list string :=
  match s with
  | EmptyString => []
  | String c s' => String c EmptyString :: chars s'
  end.

(** [''.join(xs)]. *)
Definition join (xs : list string) : string := String.concat "" xs.

(** [x in xs] on a Python list of strings. *)
Definition list_in (x : string) (xs : list string) : bool :=
  existsb (String.eqb x) xs.

End Py.

Import Py.

Notation "x <- m ;; k" := (bind m (fun x => k))
  (at level 61, m at next level, right associativity).

(* ------------------------------------------------------------------ *)
(** ** Series of counts *)

Module Series.

(** A Series of integer counts with string labels. *)
Definition t : Type := list (string * Z).

Definition index (s : t) : list string := map fst s.
Definition values (s : t) : list Z := map snd s.
Definition sum (s : t) : Z := fold_right Z.add 0%Z (values s).

(** [Series.unique()]: distinct values in order of first appearance. *)
Fixpoint unique (col : list string) : list string :=
  match col with
  | [] => []
  | x :: r => x :: filter (fun y => negb (y =? x)) (unique r)
  end.

Definition count (x : string) (col : list string) : Z :=
  Z.of_nat (count_occ string_dec col x).

(** Stable insertion into a list kept in descending order of counts. *)
Fixpoint insert_desc (p : string * Z) (s : t) : t :=
  match s with
  | [] => [p]
  | q :: r =>
      if (snd q <=? snd p)%Z then p :: q :: r else q :: insert_desc p r
  end.

Definition sort_desc (s : t) : t := fold_right insert_desc [] s.

(** [col.value_counts()]: every distinct value with its number of
    occurrences, most frequent first; equal counts keep the order of first
    appearance. *)
Definition value_counts (col : list string) : t :=
  sort_desc (map (fun x => (x, count x col)) (unique col)).

(** [s.drop(label, errors='ignore')]. *)
Definition drop (label : string) (s : t) : t :=
  filter (fun p => negb (fst p =? label)) s.

End Series.

(* ------------------------------------------------------------------ *)
(** ** [get_rare_vs_common_values] *)

(** [curr_value < sharp_drop_ratio_threshold * prev_value]. *)
Definition sharp_drop (thr : Q) (prev curr : Z) : bool :=
  negb (Qle_bool (thr * inject_Z prev) (inject_Z curr)).

(** The [for i, (prev_value, curr_value) in enumerate(zip(...))] loop:
    [Some i] when it leaves through [break] at index [i], [None] when it runs
    into its [else] branch. *)
Fixpoint find_break (thr : Q) (pairs : list (Z * Z)) (i : nat) : option nat :=
  match pairs with
  | [] => None
  | (prev_value, curr_value) :: rest =>
      if sharp_drop thr prev_value curr_value then Some i
      else find_break thr rest (S i)
  end.

Definition partition_result : Type :=
  (Q * option (list string) * option (list string))%type.

(** The value [0, None, None]. *)
Definition no_partition : partition_result := (0%Q, None, None).

Definition get_rare_vs_common_values
    (col : list string) (sharp_drop_ratio_threshold : Q) : partition_result :=
  let value_counts := Series.drop "" (Series.value_counts col) in
  if (List.length value_counts <=? 1)%nat then no_partition
  else
    match find_break sharp_drop_ratio_threshold
            (combine (removelast (Series.values value_counts))
                     (tl (Series.values value_counts))) 0 with
    | None => no_partition
    | Some i =>
        let rare_values := skipn (i + 1) value_counts in
        let common_values := firstn (i + 1) value_counts in
        let rare_to_common_format_ratio :=
          (inject_Z (Series.sum rare_values)
           / inject_Z (Series.sum common_values))%Q in
        (rare_to_common_format_ratio,
         Some (Series.index rare_values),
         Some (Series.index common_values))
    end.

(* ------------------------------------------------------------------ *)
(** ** Regular expressions used by patterns

    The patterns of this module only use one-character expressions (a
    character class such as [\d] or [[A-Z|a-z]], or a literal character) and
    their [+] repetition; replacement strings hold no escapes. *)

Module Re.

Inductive regex : Type :=
| Chars (cls : ascii -> bool)
| Run (cls : ascii -> bool).

Definition between (lo hi c : ascii) : bool :=
  (nat_of_ascii lo <=? nat_of_ascii c)%nat
  && (nat_of_ascii c <=? nat_of_ascii hi)%nat.

Definition digit (c : ascii) : bool := between "0" "9" c.
Definition upper (c : ascii) : bool := between "A" "Z" c.
Definition lower (c : ascii) : bool := between "a" "z" c.
(** [[A-Z|a-z]]: inside brackets the bar is a literal character. *)
Definition letters (c : ascii) : bool :=
  upper c || Ascii.eqb c "|" || lower c.
(** [[A-Z|a-z|d]]. *)
Definition letters_or_d (c : ascii) : bool :=
  letters c || Ascii.eqb c "d".
Definition literal (a : ascii) (c : ascii) : bool := Ascii.eqb c a.

Fixpoint sub_chars (cls : ascii -> bool) (repl s : string) : string :=
  match s with
  | EmptyString => EmptyString
  | String c s' =>
      if cls c then repl ++ sub_chars cls repl s'
      else String c (sub_chars cls repl s')
  end.

Fixpoint sub_runs (cls : ascii -> bool) (repl s : string) (in_run : bool)
  : string :=
  match s with
  | EmptyString => EmptyString
  | String c s' =>
      if cls c then
        if in_run then sub_runs cls repl s' true
        else repl ++ sub_runs cls repl s' true
      else String c (sub_runs cls repl s' false)
  end.

(** [re.sub(r, repl, s)]. *)
Definition sub (r : regex) (repl s : string) : string :=
  match r with
  | Chars cls => sub_chars cls repl s
  | Run cls => sub_runs cls repl s false
  end.

End Re.

(* ------------------------------------------------------------------ *)
(** ** class [Pattern] *)

Module Pattern.

Record t : Type := {
  name : string;
  substituters : list (Re.regex * string);
  ignore : option Re.regex;
  refine : bool;
  is_sequence : bool
}.

(** The [substituters] argument of the constructor: one tuple or a list. *)
Inductive substituters_arg : Type :=
| Tuple (s : Re.regex * string)
| ListOf (l : list (Re.regex * string)).

(** [Pattern.__init__]. *)
Definition init (name : string) (substituters : substituters_arg)
    (ignore : option Re.regex) (refine is_sequence : bool) : t :=
  let substituters :=
    match substituters with
    | Tuple s => [s]
    | ListOf l => l
    end in
  {| name := name; substituters := substituters; ignore := ignore;
     refine := refine; is_sequence := is_sequence |}.

Definition clean (self : t) (s : string) : string :=
  match ignore self with
  | None => s
  | Some r => Re.sub r "" s
  end.

Definition sub (self : t) (s : string) : string :=
  fold_left (fun s subs => Re.sub (fst subs) (snd subs) s)
            (substituters self) (clean self s).

Definition is_format_significant (self : t) (fmt : string) : bool :=
  existsb (fun sub => str_in (snd sub) fmt) (substituters self).

End Pattern.

Definition DEFAULT_PATTERNS : list Pattern.t :=
  [ Pattern.init "digits and letters format (case sensitive)"
      (Pattern.ListOf [(Re.Chars Re.digit, "0"); (Re.Chars Re.upper, "X");
                     (Re.Chars Re.lower, "x")]) None false false;
    Pattern.init "digits and letters format"
      (Pattern.ListOf [(Re.Chars Re.digit, "0"); (Re.Chars Re.letters, "X")])
      None false false;
    Pattern.init "digits only format (ignoring letters)"
      (Pattern.Tuple (Re.Chars Re.digit, "0"))
      (Some (Re.Chars Re.letters)) true false;
    Pattern.init "letters only format (ignoring digits)"
      (Pattern.Tuple (Re.Chars Re.letters, "X"))
      (Some (Re.Chars Re.digit)) true false;
    Pattern.init "digits or letters format"
      (Pattern.Tuple (Re.Chars Re.letters_or_d, "X")) None true true;
    Pattern.init "sequences of digits only format (ignoring letters)"
      (Pattern.Tuple (Re.Run Re.digit, "000"))
      (Some (Re.Chars Re.letters)) true true;
    Pattern.init "sequences of letters only format (ignoring letters)"
      (Pattern.Tuple (Re.Run Re.letters, "XXX"))
      (Some (Re.Chars Re.digit)) true true;
    Pattern.init "any sequence format"
      (Pattern.Tuple (Re.Run Re.letters_or_d, "XXX")) None true true ].

(* ------------------------------------------------------------------ *)
(** ** The result of one pattern on one column *)

(** The dictionary returned by [_detect_per_column_and_pattern] when it is
    not empty.  The ratio is kept as a number (the code formats it as a
    percentage for display). *)
Record finding : Type := {
  ratio_of_rare_patterns_to_common_patterns : Q;
  common_formats : list string;
  examples_for_values_in_common_formats : list string;
  values_in_rare_formats : list string
}.

(** A Python [dict] with string keys: assignment to an existing key keeps
    its place. *)
Fixpoint dict_set {V} (d : list (string * V)) (k : string) (v : V)
  : list (string * V) :=
  match d with
  | [] => [(k, v)]
  | (k', v') :: r =>
      if k' =? k then (k, v) :: r else (k', v') :: dict_set r k v
  end.

Fixpoint dict_get {V} (d : list (string * V)) (k : string) : result V :=
  match d with
  | [] => Raise (KeyError k)
  | (k', v) :: r => if k' =? k then Ok v else dict_get r k
  end.

(** [column[mask]] where the mask tests the entries of [patterned_column]. *)
Definition select (column patterned_column : list string)
    (mask : string -> bool) : list string :=
  map fst (filter (fun vp => mask (snd vp)) (combine column patterned_column)).

(** [pd.DataFrame(d).dropna(axis=1, how='all')] on a dictionary of
    per-pattern results: the columns of the empty results go. *)
Fixpoint dropna (d : list (string * option finding))
  : list (string * finding) :=
  match d with
  | [] => []
  | (k, Some f) :: r => (k, f) :: dropna r
  | (_, None) :: r => dropna r
  end.

(* ------------------------------------------------------------------ *)
(** ** Refinement and the analysis of a column

    [split_and_keep] and [split_and_keep_by_many] come from
    [mlchecks.base.string_utils]; they are parameters here. *)

Section Engine.

Variable split_and_keep : string -> string -> list string.
Variable split_and_keep_by_many : string -> list string -> list string.

(** [all(split_sample[i] == common_value for split_sample in rest)]: the
    generator stops at the first sample that differs, and indexing a sample
    that is too short raises. *)
Fixpoint all_agree (i : nat) (common_value : string)
    (rest : list (list string)) : result bool :=
  match rest with
  | [] => Ok true
  | split_sample :: more =>
      x <- getitem split_sample i ;;
      if x =? common_value then all_agree i common_value more else Ok false
  end.

(** The loop [for i in range(len(example))] of [_refine_formats]; [idxs] is
    what is left of the range and [new_format] the list built so far. *)
Fixpoint refine_loop (substr : string) (splt_fmt example : list string)
    (others : list (list string)) (idxs : list nat)
    (new_format : list string) : result (list string) :=
  match idxs with
  | [] => Ok new_format
  | i :: rest =>
      tok <- getitem splt_fmt i ;;
      if negb (tok =? substr) then
        refine_loop substr splt_fmt example others rest (new_format ++ [tok])
      else
        common_value <- getitem example i ;;
        agree <- all_agree i common_value others ;;
        if agree then
          refine_loop substr splt_fmt example others rest
                      (new_format ++ [common_value])
        else
          refine_loop substr splt_fmt example others rest
                      (new_format ++ [tok])
  end.

Definition _refine_formats (fmt substr : string) (samples : list string)
    (is_substr_sequence : bool) : result string :=
  if negb (str_in substr fmt) then Ok fmt
  else
    let '(splt_fmt, split_examples) :=
      if is_substr_sequence then
        let splt_fmt := split_and_keep fmt substr in
        let splt_fmt_wo_sep :=
          filter (fun x => negb (x =? substr)) splt_fmt in
        (splt_fmt,
         map (fun s => split_and_keep_by_many s splt_fmt_wo_sep) samples)
      else (chars fmt, map chars samples) in
    example <- getitem split_examples 0 ;;
    new_format <- refine_loop substr splt_fmt example (tl split_examples)
                    (seq 0 (List.length example)) [] ;;
    Ok (join new_format).

(** [None] stands for the empty dictionary [{}]. *)
Definition _detect_per_column_and_pattern (column : list string)
    (pattern : Pattern.t) (rarity_threshold : Q)
    (exclude_samples : list string) : result (option finding) :=
  let patterned_column := map (Pattern.sub pattern) column in
  let '(rare_to_common_format_ratio, rare_formats, common_formats) :=
    get_rare_vs_common_values patterned_column rarity_threshold in
  if Qeq_bool rare_to_common_format_ratio 0 then Ok None
  else
    match rare_formats, common_formats with
    | Some rare_formats, Some common_formats =>
        if negb (existsb (Pattern.is_format_significant pattern)
                         common_formats)
        then Ok None
        else
          let rare_values :=
            select column patterned_column
                   (fun f => list_in f rare_formats) in
          let rare_values :=
            filter (fun v => negb (list_in v exclude_samples)) rare_values in
          match rare_values with
          | [] => Ok None
          | _ :: _ =>
              common_values_examples <-
                mapM (fun common_format =>
                        getitem (select column patterned_column
                                        (String.eqb common_format)) 0)
                     common_formats ;;
              common_formats <-
                (if Pattern.refine pattern then
                   mapM (fun fmt =>
                           let format_samples :=
                             map (Pattern.clean pattern)
                                 (select column patterned_column
                                         (String.eqb fmt)) in
                           filler <- getitem (Pattern.substituters pattern) 0 ;;
                           _refine_formats fmt (snd filler) format_samples
                                           (Pattern.is_sequence pattern))
                        common_formats
                 else Ok common_formats) ;;
              Ok (Some {|
                ratio_of_rare_patterns_to_common_patterns :=
                  rare_to_common_format_ratio;
                common_formats := common_formats;
                examples_for_values_in_common_formats :=
                  common_values_examples;
                values_in_rare_formats := Series.unique rare_values |})
          end
    | _, _ => Raise TypeError
    end.

(** The loop over the patterns in [_detect_per_column], with its two
    accumulators. *)
Fixpoint detect_loop (column : list string) (patterns : list Pattern.t)
    (rarity_threshold : Q) (pattern_match_method : string)
    (all_pattern_results : list (string * option finding))
    (formats_to_ignore : list string)
  : result (list (string * option finding)) :=
  match patterns with
  | [] => Ok all_pattern_results
  | pattern :: rest =>
      res <- _detect_per_column_and_pattern column pattern rarity_threshold
               formats_to_ignore ;;
      let formats_to_ignore :=
        match res with
        | Some f =>
            if pattern_match_method =? "first"
            then formats_to_ignore ++ values_in_rare_formats f
            else formats_to_ignore
        | None => formats_to_ignore
        end in
      detect_loop column rest rarity_threshold pattern_match_method
        (dict_set all_pattern_results (Pattern.name pattern) res)
        formats_to_ignore
  end.

Definition _detect_per_column (column : list string)
    (patterns : list Pattern.t) (rarity_threshold : Q)
    (pattern_match_method : string) : result (list (string * finding)) :=
  all_pattern_results <-
    detect_loop column patterns rarity_threshold pattern_match_method [] [] ;;
  Ok (dropna all_pattern_results).

(** The dataset: its columns by name, and the names of its feature
    columns. *)
Record Dataset : Type := {
  data : list (string * list string);
  features : list string
}.

(** The [column_names] argument: [None], one name, or a list of names. *)
Inductive column_names_arg : Type :=
| NoNames
| Name (s : string)
| Names (l : list string).

Definition falsy (c : column_names_arg) : bool :=
  match c with
  | NoNames => true
  | Name s => s =? ""
  | Names l => match l with [] => true | _ => false end
  end.

Definition dquote : string := String (ascii_of_nat 34) EmptyString.

Definition bad_method_message (pattern_match_method : string) : string :=
  "pattern_match_method must be " ++ dquote ++ "first" ++ dquote ++ " or "
  ++ dquote ++ "all" ++ dquote ++ ", got " ++ pattern_match_method.

(** The dictionary comprehension over the column names. *)
Fixpoint per_column (dataset : Dataset) (column_names : list string)
    (patterns : list Pattern.t) (rarity_threshold : Q)
    (pattern_match_method : string)
    (res : list (string * list (string * finding)))
  : result (list (string * list (string * finding))) :=
  match column_names with
  | [] => Ok res
  | column_name :: rest =>
      column <- dict_get (data dataset) column_name ;;
      value <- _detect_per_column column patterns rarity_threshold
                 pattern_match_method ;;
      per_column dataset rest patterns rarity_threshold pattern_match_method
                 (dict_set res column_name value)
  end.

(** [rare_format_detection], up to the [value] of its [CheckResult]. *)
Definition rare_format_detection (dataset : Dataset)
    (column_names : column_names_arg) (patterns : list Pattern.t)
    (rarity_threshold : Q) (pattern_match_method : string)
  : result (list (string * list (string * finding))) :=
  let column_names :=
    if falsy column_names then Names (features dataset) else column_names in
  if negb (list_in pattern_match_method ["first"; "all"]) then
    Raise (MLChecksValueError (bad_method_message pattern_match_method))
  else
    let column_names :=
      match column_names with
      | Name s => [s]
      | Names l => l
      | NoNames => []
      end in
    per_column dataset column_names patterns rarity_threshold
               pattern_match_method [].

End Engine.

(* ------------------------------------------------------------------ *)
(** ** The string helpers *)

Module StringUtils.

(** [flush acc] is the pending literal segment, if there is one. *)
Definition flush (acc : string) : list string :=
  if acc =? "" then [] else [acc].

(** Scans [s] from the left.  [acc] is the literal segment read so far and
    [skip] the number of characters still covered by the separator emitted
    last.  Where a non-empty separator of [seps] starts, the pending segment
    and the separator become tokens. *)
Fixpoint scan (seps : list string) (s acc : string) (skip : nat)
  : list string :=
  match s with
  | EmptyString => flush acc
  | String c s' =>
      match skip with
      | S k => scan seps s' acc k
      | O =>
          match find (fun sep => negb (sep =? "") && String.prefix sep s)
                     seps with
          | Some sep =>
              flush acc ++ sep :: scan seps s' "" (String.length sep - 1)
          | None => scan seps s' (acc ++ String c EmptyString) 0
          end
      end
  end.

(** Modelled from the spec: [split_and_keep] of [mlchecks.base.string_utils]
    is missing from the sources.  The spec: "Tokenize skeleton into a
    sequence of segments, splitting on filler_literal but keeping the
    separator as its own token, so the result alternates between literal
    segments and filler tokens." *)
Definition split_and_keep (s separator : string) : list string :=
  scan [separator] s "" 0.

(** Modelled from the spec: [split_and_keep_by_many] of
    [mlchecks.base.string_utils] is missing from the sources.  The spec:
    "tokenize each raw sample using the same non-filler segment boundaries
    (the literal segments of the skeleton act as split points applied
    simultaneously to every sample) so that each sample yields one sub-token
    per skeleton token, including the variable-length run(s) that correspond
    to filler positions." *)
Definition split_and_keep_by_many (s : string) (separators : list string)
  : list string :=
  scan separators s "" 0.

End StringUtils.

(** The engine with the helpers above. *)
Definition refine_formats_with_utils :=
  _refine_formats StringUtils.split_and_keep StringUtils.split_and_keep_by_many.

Definition detect_per_column_with_utils :=
  _detect_per_column StringUtils.split_and_keep
                     StringUtils.split_and_keep_by_many.

(* ------------------------------------------------------------------ *)
(** ** Specification-side notions for the partition *)

(** The Series that [get_rare_vs_common_values] scans. *)
Definition ranking (col : list string) : Series.t :=
  Series.drop "" (Series.value_counts col).

Definition descending (s : Series.t) : Prop :=
  StronglySorted (fun p q => (snd q <= snd p)%Z) s.

(** [current_count < drop_ratio_threshold * previous_count]. *)
Definition is_boundary (thr : Q) (prev curr : string * Z) : Prop :=
  (inject_Z (snd curr) < thr * inject_Z (snd prev))%Q.

(** No adjacent pair of [s] is a boundary. *)
Fixpoint no_boundary_in (thr : Q) (s : Series.t) : Prop :=
  match s with
  | prev :: ((curr :: _) as r) =>
      ~ is_boundary thr prev curr /\ no_boundary_in thr r
  | _ => True
  end.

(** The partition as the specification words it, on a ranking. *)
Inductive partition_spec (thr : Q) (s : Series.t) : partition_result -> Prop :=
| spec_few_items :
    (List.length s < 2)%nat ->
    partition_spec thr s no_partition
| spec_no_pair :
    (2 <= List.length s)%nat ->
    no_boundary_in thr s ->
    partition_spec thr s no_partition
| spec_first_pair pre prev curr post :
    s = pre ++ prev :: curr :: post ->
    no_boundary_in thr (pre ++ [prev]) ->
    is_boundary thr prev curr ->
    partition_spec thr s
      ((inject_Z (Series.sum (curr :: post))
        / inject_Z (Series.sum (pre ++ [prev])))%Q,
       Some (Series.index (curr :: post)),
       Some (Series.index (pre ++ [prev]))).

(** Number of items listed by a result ([None] lists nothing). *)
Definition accounted (r : partition_result) : nat :=
  match r with
  | (_, rare, common) =>
      (match common with Some l => List.length l | None => 0 end
       + match rare with Some l => List.length l | None => 0 end)%nat
  end.

(** The lists of a result when [0, None, None] is read as "every item of the
    ranking is common, none is rare". *)
Definition common_or_all (col : list string) (r : partition_result)
  : list string :=
  match r with
  | (_, _, Some common) => common
  | (_, _, None) => Series.index (ranking col)
  end.

Definition rare_or_none (r : partition_result) : list string :=
  match r with
  | (_, Some rare, _) => rare
  | (_, None, _) => []
  end.

(** Adjacent pairs of a list, first to last. *)
Fixpoint adjacent {A} (l : list A) : list (A * A) :=
  match l with
  | a :: ((b :: _) as r) => (a, b) :: adjacent r
  | _ => []
  end.

(** ** Specification-side notion for the refinement *)

(** The token of the refined format at position [i]: a token of the skeleton
    that is not the filler is kept; a filler becomes the value of the samples
    at [i] when they all agree with the first one, and stays otherwise. *)
Definition refined_token (substr : string) (splt_fmt example : list string)
    (others : list (list string)) (i : nat) : string :=
  let tok := nth i splt_fmt "" in
  if negb (tok =? substr) then tok
  else
    let common_value := nth i example "" in
    if forallb (fun split_sample => nth i split_sample "" =? common_value)
               others
    then common_value
    else tok.

(** ** Scenarios *)

(** A digit/letter pattern that ignores the dash. *)
Definition dash_pattern : Pattern.t :=
  Pattern.init "digits and letters format (ignoring dashes)"
    (Pattern.ListOf [(Re.Chars Re.digit, "0"); (Re.Chars Re.letters, "X")])
    (Some (Re.Chars (Re.literal "-"))) false false.

Definition scenario_B_column : list string :=
  ["AB-001"; "AB-002"; "AB-003"; "XY-1"].

(** The third and fourth of the default patterns. *)
Definition digits_only_pattern : Pattern.t :=
  Pattern.init "digits only format (ignoring letters)"
    (Pattern.Tuple (Re.Chars Re.digit, "0"))
    (Some (Re.Chars Re.letters)) true false.

Definition letters_only_pattern : Pattern.t :=
  Pattern.init "letters only format (ignoring digits)"
    (Pattern.Tuple (Re.Chars Re.letters, "X"))
    (Some (Re.Chars Re.digit)) true false.

(** A pattern without rules. *)
Definition empty_pattern : Pattern.t :=
  Pattern.init "no rules" (Pattern.ListOf []) None false false.

(** What a dictionary entry claims as rare values. *)
Definition rare_of (res : option finding) : list string :=
  match res with
  | Some f => values_in_rare_formats f
  | None => []
  end.

(** The rare values held by a dictionary of per-pattern results. *)
Definition claimed (d : list (string * option finding)) : list string :=
  flat_map (fun kv => rare_of (snd kv)) d.

(** All rare values of the findings of a column, pattern after pattern. *)
Definition all_rare_values (df : list (string * finding)) : list string :=
  flat_map (fun kf => values_in_rare_formats (snd kf)) df.

(** ** Notions for the further properties *)

(** Number of rows of [col] that hold one of [items]. *)
Definition rows (items : list string) (col : list string) : Z :=
  fold_right Z.add 0%Z (map (fun x => Series.count x col) items).

(** The character class of a regular expression. *)
Definition regex_class (r : Re.regex) : ascii -> bool :=
  match r with
  | Re.Chars cls => cls
  | Re.Run cls => cls
  end.

(** A rule that rewrites one character into one character. *)
Definition charwise_rule (sub : Re.regex * string) : bool :=
  match fst sub with
  | Re.Chars _ => (String.length (snd sub) =? 1)%nat
  | Re.Run _ => false
  end.

(** A pattern whose rules all rewrite character by character. *)
Definition charwise (pattern : Pattern.t) : bool :=
  forallb charwise_rule (Pattern.substituters pattern).

(** The rules of a pattern applied to a string that is already cleaned. *)
Definition apply_rules (rules : list (Re.regex * string)) (s : string)
  : string :=
  fold_left (fun s subs => Re.sub (fst subs) (snd subs) s) rules s.

(** The refined tokens read along the token arrays instead of by index. *)
Fixpoint refine_zip (substr : string) (splt_fmt example : list string)
    (others : list (list string)) : list string :=
  match splt_fmt, example with
  | tok :: splt_fmt', common_value :: example' =>
      (if negb (tok =? substr) then tok
       else if forallb (fun o => hd "" o =? common_value) others
            then common_value
            else tok)
      :: refine_zip substr splt_fmt' example' (map (@tl string) others)
  | _, _ => []
  end.

(** ** class [RareFormatDetection] *)

(** The entries of [self.params] that [run] reads; [None] when the key is
    absent. *)
Record check_params : Type := {
  param_patterns : option (list Pattern.t);
  param_rarity_threshold : option Q;
  param_pattern_match_method : option string
}.

(** [params.get(key, default)]. *)
Definition params_get {A} (entry : option A) (default : A) : A :=
  match entry with
  | Some v => v
  | None => default
  end.

(** [RareFormatDetection.run]; the [model] argument is not used. *)
Definition RareFormatDetection_run
    (split_and_keep : string -> string -> list string)
    (split_and_keep_by_many : string -> list string -> list string)
    (params : check_params) (dataset : Dataset)
  : result (list (string * list (string * finding))) :=
  rare_format_detection split_and_keep split_and_keep_by_many dataset NoNames
    (params_get (param_patterns params) DEFAULT_PATTERNS)
    (params_get (param_rarity_threshold params) (5 # 100))
    (params_get (param_pattern_match_method params) "first").

(** The dictionary of per-pattern results, filled in the order of the
    patterns. *)
Definition collect (patterns : list Pattern.t)
    (results : list (option finding))
    (d : list (string * option finding)) : list (string * option finding) :=
  fold_left (fun d pr => dict_set d (Pattern.name (fst pr)) (snd pr))
            (combine patterns results) d.

(** The columns that [rare_format_detection] analyses. *)
Definition requested_columns (dataset : Dataset)
    (column_names : column_names_arg) : list string :=
  match column_names with
  | NoNames => features dataset
  | Name s => if s =? "" then features dataset else [s]
  | Names [] => features dataset
  | Names l => l
  end.

(* ------------------------------------------------------------------ *)
(** ** The label drift check

    A shallow embedding of [LabelDrift] of
    [deepchecks/tabular/checks/train_test_validation/label_drift.py].  The
    datasets, the drift computation, the plots and the constants of
    [deepchecks.utils.distribution.drift] are parameters. *)

Module LabelDrift.

(** What the result dictionary of the check may hold: a number, a string or
    [None]. *)
Inductive value : Type :=
| VFloat (q : Q)
| VStr (s : string)
| VNone.

(** The two condition categories this check gives. *)
Inductive ConditionCategory : Type :=
| FAIL
| PASS.

Record ConditionResult : Type := {
  category : ConditionCategory;
  details : string
}.

Section Check.

Variable SUPPORTED_CATEGORICAL_METHODS : list string.
Variable SUPPORTED_NUMERIC_METHODS : list string.
Variable format_number : Q -> string.
(** The text of a number inside an f-string. *)
Variable float_str : Q -> string.

(** The task types; [is_regression t] is [t == TaskType.REGRESSION]. *)
Variable TaskType : Type.
Variable is_regression : TaskType -> bool.

(** The tabular dataset and what the check reads from it. *)
Variable TabularDataset : Type.
Variable Column : Type.
Variable sample : TabularDataset -> nat -> nat -> TabularDataset.
Variable label_col : TabularDataset -> Column.
Variable label_name : TabularDataset -> string.
Variable dataset_name : TabularDataset -> string.

(** The plot and the errors of the drift computation. *)
Variable Plot : Type.
Variable DriftError : Type.

Record drift_args : Type := {
  train_column : Column;
  test_column : Column;
  value_name : string;
  column_type : string;
  arg_margin_quantile_filter : Q;
  arg_max_num_categories_for_drift : option nat;
  arg_min_category_size_ratio : Q;
  arg_max_num_categories_for_display : nat;
  arg_show_categories_by : string;
  arg_numerical_drift_method : string;
  arg_categorical_drift_method : string;
  arg_balance_classes : bool;
  arg_ignore_na : bool;
  arg_min_samples : nat;
  raise_min_samples_error : bool;
  arg_with_display : bool;
  dataset_names : string * string
}.

Variable calc_drift_and_plot :
  drift_args -> DriftError + (value * value * Plot).
Variable get_drift_plot_sidenote : nat -> string -> string.

(** The attributes set by [__init__]. *)
Record t : Type := {
  margin_quantile_filter : Q;
  max_num_categories_for_drift : option nat;
  min_category_size_ratio : Q;
  max_num_categories_for_display : nat;
  show_categories_by : string;
  numerical_drift_method : string;
  categorical_drift_method : string;
  balance_classes : bool;
  ignore_na : bool;
  min_samples : nat;
  n_samples : nat;
  random_state : nat
}.

Record Context : Type := {
  train : TabularDataset;
  test : TabularDataset;
  task_type : TaskType;
  with_display : bool
}.

Inductive display_item : Type :=
| Html (s : string)
| Figure (p : Plot).

(** [CheckResult] is a class of [deepchecks.core]: the check calls its
    constructor with a value, a display and a header, and [reduce_output]
    reads the attribute [value] of the object. *)
Variable CheckResult : Type.
Variable new_CheckResult :
  list (string * value) -> option (list display_item) -> string -> CheckResult.
Variable value_of : CheckResult -> list (string * value).

Definition drift_explanation : string :=
  "<span>
                The Drift score is a measure for the difference between two distributions, in this check - the test
                and train distributions.<br> The check shows the drift score and distributions for the label.
            </span>".

Definition run_logic (self : t) (context : Context)
  : DriftError + CheckResult :=
  let train_dataset :=
    sample (train context) (n_samples self) (random_state self) in
  let test_dataset :=
    sample (test context) (n_samples self) (random_state self) in
  match calc_drift_and_plot
          {| train_column := label_col train_dataset;
             test_column := label_col test_dataset;
             value_name := label_name train_dataset;
             column_type :=
               if negb (is_regression (task_type context))
               then "categorical" else "numerical";
             arg_margin_quantile_filter := margin_quantile_filter self;
             arg_max_num_categories_for_drift :=
               max_num_categories_for_drift self;
             arg_min_category_size_ratio := min_category_size_ratio self;
             arg_max_num_categories_for_display :=
               max_num_categories_for_display self;
             arg_show_categories_by := show_categories_by self;
             arg_numerical_drift_method := numerical_drift_method self;
             arg_categorical_drift_method := categorical_drift_method self;
             arg_balance_classes := balance_classes self;
             arg_ignore_na := ignore_na self;
             arg_min_samples := min_samples self;
             raise_min_samples_error := true;
             arg_with_display := with_display context;
             dataset_names :=
               (dataset_name train_dataset, dataset_name test_dataset) |}
  with
  | inl e => inl e
  | inr (drift_score, method, plot) =>
      let values_dict := [("Drift score", drift_score); ("Method", method)] in
      let displays :=
        if with_display context then
          Some [Html drift_explanation;
                Html (get_drift_plot_sidenote
                        (max_num_categories_for_display self)
                        (show_categories_by self));
                Figure plot]
        else None in
      inr (new_CheckResult values_dict displays "Label Drift")
  end.

Definition reduce_output (check_result : CheckResult)
  : result (list (string * value)) :=
  drift_score <- dict_get (value_of check_result) "Drift score" ;;
  Ok [("Label Drift Score", drift_score)].

Definition greater_is_better : bool := false.

(** [x > y] on numbers. *)
Definition gt (x y : Q) : bool := negb (Qle_bool x y).

(** [method in methods] for a list of strings. *)
Definition method_in (method : value) (methods : list string) : bool :=
  match method with
  | VStr m => list_in m methods
  | VFloat _ | VNone => false
  end.

(** [f'{method}']. *)
Definition str (v : value) : string :=
  match v with
  | VStr s => s
  | VFloat q => float_str q
  | VNone => "None"
  end.

(** The inner function [condition] of
    [add_condition_drift_score_less_than]. *)
Definition condition (max_allowed_categorical_score : Q)
    (max_allowed_numeric_score : Q) (result_dict : list (string * value))
  : result ConditionResult :=
  drift_score <- dict_get result_dict "Drift score" ;;
  method <- dict_get result_dict "Method" ;;
  match drift_score with
  | VStr _ | VNone => Raise TypeError
  | VFloat drift_score =>
      let has_failed :=
        (gt drift_score max_allowed_categorical_score
         && method_in method SUPPORTED_CATEGORICAL_METHODS)
        || (gt drift_score max_allowed_numeric_score
            && method_in method SUPPORTED_NUMERIC_METHODS) in
      let details :=
        ("Label's drift score " ++ str method ++ " is "
         ++ format_number drift_score)%string in
      let category := if has_failed then FAIL else PASS in
      Ok {| category := category; details := details |}
  end.

(** [add_condition_drift_score_less_than]: the name and the function handed
    to [add_condition]. *)
Definition add_condition_drift_score_less_than
    (max_allowed_categorical_score max_allowed_numeric_score : Q)
  : string * (list (string * value) -> result ConditionResult) :=
  (("categorical drift score < " ++ float_str max_allowed_categorical_score
    ++ " and numerical drift score < "
    ++ float_str max_allowed_numeric_score ++ " for label drift")%string,
   condition max_allowed_categorical_score max_allowed_numeric_score).

End Check.

End LabelDrift.

(* ------------------------------------------------------------------ *)
(** ** [get_rare_vs_common_values] in binary64 arithmetic

    Above, the threshold and the ratio are exact rationals.  Here they are
    binary64 floats, as in the running code: [float * int] converts the count
    and rounds the product to nearest, and the ratio of the two sums is a
    rounded quotient.  The [value_counts] method of pandas is a parameter:
    the order it gives to equally frequent values is not specified. *)

Module F64.

Definition float : Type := spec_float.

(** [float(n)]. *)
Definition of_int (n : Z) : float := binary_normalize 53 1024 n 0 false.

Definition mul : float -> float -> float := SFmul 53 1024.
Definition div : float -> float -> float := SFdiv 53 1024.
Definition ltb : float -> float -> bool := SFltb.
Definition zero : float := S754_zero false.

(** [curr_value < sharp_drop_ratio_threshold * prev_value]: the count
    [prev_value] is converted to a float and the product is rounded.  A count
    is below 2^53, so converting [curr_value] for the comparison loses
    nothing. *)
Definition sharp_drop (thr : float) (prev curr : Z) : bool :=
  ltb (of_int curr) (mul thr (of_int prev)).

Fixpoint find_break (thr : float) (pairs : list (Z * Z)) (i : nat)
  : option nat :=
  match pairs with
  | [] => None
  | (prev_value, curr_value) :: rest =>
      if sharp_drop thr prev_value curr_value then Some i
      else find_break thr rest (S i)
  end.

Definition partition_result : Type :=
  (float * option (list string) * option (list string))%type.

(** The value [0, None, None]. *)
Definition no_partition : partition_result := (zero, None, None).

Definition get_rare_vs_common_values
    (value_counts : list string -> Series.t)
    (col : list string) (sharp_drop_ratio_threshold : float)
  : partition_result :=
  let value_counts := Series.drop "" (value_counts col) in
  if (List.length value_counts <=? 1)%nat then no_partition
  else
    match find_break sharp_drop_ratio_threshold
            (combine (removelast (Series.values value_counts))
                     (tl (Series.values value_counts))) 0 with
    | None => no_partition
    | Some i =>
        let rare_values := skipn (i + 1) value_counts in
        let common_values := firstn (i + 1) value_counts in
        let rare_to_common_format_ratio :=
          div (of_int (Series.sum rare_values))
              (of_int (Series.sum common_values)) in
        (rare_to_common_format_ratio,
         Some (Series.index rare_values),
         Some (Series.index common_values))
    end.

End F64.

(** What pandas promises of [col.value_counts()]: every distinct value once,
    with its number of occurrences, most frequent first. *)
Definition is_value_counts (col : list string) (s : list (string * Z))
  : Prop :=
  NoDup (map fst s) /\
  (forall x n, In (x, n) s <->
               In x col /\ n = Z.of_nat (count_occ string_dec col x)) /\
  StronglySorted (fun p q => (snd q <= snd p)%Z) s.

(** [current_count < drop_ratio_threshold * previous_count], the count
    converted and the product rounded to binary64. *)
Definition boundary64 (thr : spec_float) (prev curr : string * Z) : Prop :=
  SFltb (binary_normalize 53 1024 (snd curr) 0 false)
        (SFmul 53 1024 thr (binary_normalize 53 1024 (snd prev) 0 false))
  = true.

(** No two adjacent items of [l] are related by [B]. *)
Definition none_adjacent {A} (B : A -> A -> Prop) (l : list A) : Prop :=
  forall pre p c post, l = pre ++ p :: c :: post -> ~ B p c.

(** No two adjacent items of [l] are a boundary. *)
Definition no_boundary64 (thr : spec_float) (l : list (string * Z)) : Prop :=
  none_adjacent (boundary64 thr) l.

(** The binary64 numbers 0.05, 0.5 and 0.33333333333333337. *)
Definition f64_0_05 : spec_float := S754_finite false 7205759403792794 (-57).
Definition f64_0_5 : spec_float := S754_finite false 4503599627370496 (-53).
Definition f64_above_third : spec_float :=
  S754_finite false 6004799503160662 (-54).

(** ** Fillers that [re.sub] writes as they are

    [re.sub] reads its replacement as a template in which a backslash starts
    an escape: two backslashes write one, a backslash before a digit names a
    group, and a backslash alone at the end is refused with [re.error].  A
    filler without any backslash is written as it is, which is what [Re.sub]
    does; the fillers of [DEFAULT_PATTERNS] are of this kind. *)

Definition backslash : ascii := ascii_of_nat 92.

Definition plain (s : string) : bool :=
  forallb (fun c => negb (Ascii.eqb c backslash)) (list_ascii_of_string s).

Definition plain_fillers (pattern : Pattern.t) : bool :=
  forallb (fun sub => plain (snd sub)) (Pattern.substituters pattern).

(* ================================================================== *)
(** * Properties *)

Example partition_example :
  get_rare_vs_common_values ["a"; "b"; "a"; "a"; ""; "c"] (1 # 2)
  = ((2 # 3)%Q, Some ["b"; "c"], Some ["a"]).
Proof. vm_compute. reflexivity. Qed.

(** ** Facts on [value_counts] *)

Lemma unique_In (col : list string) (x : string) :
  In x (Series.unique col) <-> In x col.
Proof.
  induction col as [|y r IH]; simpl; [tauto|].
  rewrite filter_In, IH, negb_true_iff, String.eqb_neq.
  destruct (string_dec y x); intuition congruence.
Qed.

Lemma unique_NoDup (col : list string) : NoDup (Series.unique col).
Proof.
  induction col as [|y r IH]; simpl; constructor.
  - rewrite filter_In, String.eqb_refl. simpl. intuition discriminate.
  - now apply NoDup_filter.
Qed.

Lemma insert_desc_perm (p : string * Z) (s : Series.t) :
  Permutation (Series.insert_desc p s) (p :: s).
Proof.
  induction s as [|q r IH]; simpl; [reflexivity|].
  destruct (snd q <=? snd p)%Z; [reflexivity|].
  rewrite IH. apply perm_swap.
Qed.

Lemma sort_desc_perm (s : Series.t) : Permutation (Series.sort_desc s) s.
Proof.
  induction s as [|p r IH]; simpl; [constructor|].
  rewrite insert_desc_perm. now constructor.
Qed.

Lemma insert_desc_sorted (p : string * Z) (s : Series.t) :
  Sorted (fun a b => (snd b <= snd a)%Z) s ->
  Sorted (fun a b => (snd b <= snd a)%Z) (Series.insert_desc p s).
Proof.
  induction s as [|q r IH]; simpl; intros Hs.
  - repeat constructor.
  - destruct (Z.leb_spec (snd q) (snd p)) as [Hle|Hgt].
    + constructor; [assumption|]. now constructor.
    + inversion Hs as [|? ? Hr Hhd]; subst.
      constructor; [now apply IH|].
      destruct r as [|q' r']; simpl.
      * constructor. lia.
      * destruct (Z.leb_spec (snd q') (snd p)); constructor.
        -- lia.
        -- now inversion Hhd.
Qed.

Lemma sort_desc_descending (s : Series.t) : descending (Series.sort_desc s).
Proof.
  apply Sorted_StronglySorted.
  - intros a b c Hab Hbc. lia.
  - induction s as [|p r IH]; simpl; [constructor|].
    now apply insert_desc_sorted.
Qed.

Lemma descending_filter (f : string * Z -> bool) (s : Series.t) :
  descending s -> descending (filter f s).
Proof.
  induction 1 as [|p r Hr IH Hall]; simpl; [constructor|].
  destruct (f p); [|assumption].
  constructor; [assumption|].
  rewrite Forall_forall in *. intros q Hq.
  apply filter_In in Hq. now apply Hall.
Qed.

Lemma NoDup_index_filter (f : string * Z -> bool) (s : Series.t) :
  NoDup (Series.index s) -> NoDup (Series.index (filter f s)).
Proof.
  unfold Series.index.
  induction s as [|p r IH]; simpl; intros Hnd; [constructor|].
  inversion Hnd as [|? ? Hnotin Hr]; subst.
  destruct (f p); simpl; [|now apply IH].
  constructor; [|now apply IH].
  intros Hin. apply Hnotin.
  rewrite in_map_iff in *. destruct Hin as [q [Hq Hin]].
  exists q. split; [assumption|]. now apply filter_In in Hin.
Qed.

Lemma count_pos (x : string) (col : list string) :
  In x col -> (0 < Series.count x col)%Z.
Proof.
  intros Hin. unfold Series.count.
  apply (count_occ_In string_dec) in Hin. lia.
Qed.

Lemma value_counts_In (col : list string) (x : string) (n : Z) :
  In (x, n) (Series.value_counts col) <-> In x col /\ n = Series.count x col.
Proof.
  unfold Series.value_counts. split.
  - intros Hin. apply (Permutation_in _ (sort_desc_perm _)) in Hin.
    apply in_map_iff in Hin. destruct Hin as [y [Heq Hy]].
    inversion Heq; subst. split; [now apply unique_In|reflexivity].
  - intros [Hin ->].
    apply (Permutation_in _ (Permutation_sym (sort_desc_perm _))).
    apply in_map_iff. exists x. split; [reflexivity|now apply unique_In].
Qed.

Lemma value_counts_NoDup (col : list string) :
  NoDup (Series.index (Series.value_counts col)).
Proof.
  unfold Series.value_counts, Series.index.
  eapply Permutation_NoDup.
  - apply Permutation_map. apply Permutation_sym, sort_desc_perm.
  - rewrite map_map. simpl. rewrite map_id. apply unique_NoDup.
Qed.

(** The ranking holds every distinct non-empty value of the column once,
    with its (positive) number of occurrences, most frequent first. *)
Lemma ranking_In (col : list string) (x : string) (n : Z) :
  In (x, n) (ranking col) <->
  In x col /\ x <> "" /\ n = Series.count x col.
Proof.
  unfold ranking, Series.drop.
  rewrite filter_In, value_counts_In. simpl.
  rewrite negb_true_iff, String.eqb_neq. tauto.
Qed.

Lemma ranking_index_In (col : list string) (x : string) :
  In x (Series.index (ranking col)) <-> In x col /\ x <> "".
Proof.
  unfold Series.index. rewrite in_map_iff. split.
  - intros [[y n] [Heq Hin]]. simpl in Heq. subst y.
    apply ranking_In in Hin. tauto.
  - intros [Hin Hne]. exists (x, Series.count x col).
    split; [reflexivity|]. apply ranking_In. tauto.
Qed.

Lemma ranking_NoDup (col : list string) : NoDup (Series.index (ranking col)).
Proof. apply NoDup_index_filter, value_counts_NoDup. Qed.

Lemma ranking_descending (col : list string) : descending (ranking col).
Proof.
  apply descending_filter. unfold Series.value_counts.
  apply sort_desc_descending.
Qed.

Lemma ranking_positive (col : list string) :
  Forall (fun p => (0 < snd p)%Z) (ranking col).
Proof.
  apply Forall_forall. intros [x n] Hin. apply ranking_In in Hin.
  destruct Hin as [Hin [_ ->]]. simpl. now apply count_pos.
Qed.

(** ** The scan for the boundary *)

Lemma zip_adjacent {A} (l : list A) :
  combine (removelast l) (tl l) = adjacent l.
Proof.
  induction l as [|a [|b r] IH]; try reflexivity.
  change (removelast (a :: b :: r)) with (a :: removelast (b :: r)).
  simpl tl. simpl combine. simpl adjacent. f_equal. exact IH.
Qed.

Lemma sharp_drop_iff (thr : Q) (prev curr : Z) :
  sharp_drop thr prev curr = true <->
  (inject_Z curr < thr * inject_Z prev)%Q.
Proof.
  unfold sharp_drop. rewrite negb_true_iff.
  split.
  - intros Hb. apply Qnot_le_lt. intros Hle.
    apply Qle_bool_iff in Hle. congruence.
  - intros Hlt. destruct (Qle_bool _ _) eqn:Hb; [|reflexivity].
    apply Qle_bool_iff in Hb. exfalso. now apply (Qlt_not_le _ _ Hlt).
Qed.

Lemma firstn_length_app {A} (a b : list A) :
  firstn (List.length a) (a ++ b) = a.
Proof. induction a; simpl; [now destruct b|congruence]. Qed.

Lemma skipn_length_app {A} (a b : list A) :
  skipn (List.length a) (a ++ b) = b.
Proof. induction a; simpl; congruence. Qed.

(** What [find_break] returns, read on the Series itself. *)
Lemma find_break_decompose (thr : Q) (s : Series.t) :
  forall i0,
    match find_break thr (adjacent (Series.values s)) i0 with
    | None => no_boundary_in thr s
    | Some i =>
        exists pre prev curr post,
          s = pre ++ prev :: curr :: post /\
          i = (i0 + List.length pre)%nat /\
          no_boundary_in thr (pre ++ [prev]) /\
          is_boundary thr prev curr
    end.
Proof.
  induction s as [|p [|q r] IH]; intros i0; try exact I.
  change (adjacent (Series.values (p :: q :: r)))
    with ((snd p, snd q) :: adjacent (Series.values (q :: r))).
  cbn [find_break].
  destruct (sharp_drop thr (snd p) (snd q)) eqn:Hsd.
  - exists [], p, q, r. repeat split.
    + simpl. lia.
    + now apply sharp_drop_iff.
  - assert (Hnb : ~ is_boundary thr p q).
    { intros Hb. apply sharp_drop_iff in Hb. congruence. }
    specialize (IH (S i0)).
    destruct (find_break thr (adjacent (Series.values (q :: r))) (S i0))
      as [i|].
    + destruct IH as (pre & prev & curr & post & Hs & Hi & Hno & Hb).
      exists (p :: pre), prev, curr, post. repeat split.
      * simpl. now rewrite Hs.
      * simpl. lia.
      * destruct pre as [|q' pre']; simpl in Hs; inversion Hs; subst;
          simpl; split; assumption.
      * assumption.
    + split; assumption.
Qed.

(** The function meets the specification-side relation on its ranking. *)
Lemma partition_meets_spec (col : list string) (thr : Q) :
  partition_spec thr (ranking col) (get_rare_vs_common_values col thr).
Proof.
  unfold get_rare_vs_common_values. fold (ranking col).
  destruct (Nat.leb_spec (List.length (ranking col)) 1) as [Hle|Hgt].
  - apply spec_few_items. lia.
  - rewrite zip_adjacent.
    pose proof (find_break_decompose thr (ranking col) 0) as Hfb.
    destruct (find_break thr (adjacent (Series.values (ranking col))) 0)
      as [i|].
    + destruct Hfb as (pre & prev & curr & post & Hs & Hi & Hno & Hb).
      simpl in Hi. subst i.
      assert (Hs' : ranking col = (pre ++ [prev]) ++ curr :: post)
        by (rewrite <- app_assoc; exact Hs).
      assert (Hlen : (List.length pre + 1)%nat = List.length (pre ++ [prev]))
        by (rewrite length_app; reflexivity).
      rewrite Hlen, Hs', firstn_length_app, skipn_length_app.
      rewrite <- Hs'. now apply spec_first_pair.
    + apply spec_no_pair; [lia|assumption].
Qed.

Lemma no_boundary_in_app_inv (thr : Q) (a b : Series.t) :
  no_boundary_in thr (a ++ b) -> no_boundary_in thr a.
Proof.
  induction a as [|p [|q r] IH]; intros H; try exact I.
  simpl in H. destruct H as [Hpq Hr]. split; [assumption|].
  apply IH. exact Hr.
Qed.

Lemma no_boundary_in_mid (thr : Q) (pre : Series.t) prev curr post :
  no_boundary_in thr (pre ++ prev :: curr :: post) ->
  ~ is_boundary thr prev curr.
Proof.
  induction pre as [|p [|q r] IH]; simpl; intros H.
  - tauto.
  - apply (IH (proj2 H)).
  - apply IH. exact (proj2 H).
Qed.

(** The first boundary is unique: two decompositions that both stop at
    their first boundary coincide. *)
Lemma first_boundary_unique (thr : Q) :
  forall pre1 prev1 curr1 post1 pre2 prev2 curr2 post2,
    pre1 ++ prev1 :: curr1 :: post1 = pre2 ++ prev2 :: curr2 :: post2 ->
    no_boundary_in thr (pre1 ++ [prev1]) -> is_boundary thr prev1 curr1 ->
    no_boundary_in thr (pre2 ++ [prev2]) -> is_boundary thr prev2 curr2 ->
    pre1 = pre2 /\ prev1 = prev2 /\ curr1 = curr2 /\ post1 = post2.
Proof.
  induction pre1 as [|p pre1 IH]; intros prev1 curr1 post1 pre2 prev2 curr2
    post2 Heq Hn1 Hb1 Hn2 Hb2.
  - destruct pre2 as [|p2 pre2].
    + simpl in Heq. inversion Heq. auto.
    + exfalso. simpl in Heq. inversion Heq; subst.
      destruct pre2 as [|p3 pre2]; simpl in *.
      * inversion H1; subst. tauto.
      * inversion H1; subst. tauto.
  - destruct pre2 as [|p2 pre2].
    + exfalso. simpl in Heq. inversion Heq; subst.
      destruct pre1 as [|p3 pre1]; simpl in *.
      * inversion H1; subst. tauto.
      * inversion H1; subst. tauto.
    + simpl in Heq. inversion Heq; subst.
      assert (Hn1' : no_boundary_in thr (pre1 ++ [prev1])).
      { destruct pre1; simpl in Hn1 |- *; tauto. }
      assert (Hn2' : no_boundary_in thr (pre2 ++ [prev2])).
      { destruct pre2; simpl in Hn2 |- *; tauto. }
      destruct (IH _ _ _ _ _ _ _ H1 Hn1' Hb1 Hn2' Hb2) as (-> & -> & -> & ->).
      auto.
Qed.

(** The specification-side relation determines the result. *)
Lemma partition_spec_functional (thr : Q) (s : Series.t) r1 r2 :
  partition_spec thr s r1 -> partition_spec thr s r2 -> r1 = r2.
Proof.
  intros H1 H2.
  destruct H1 as [Hlt|Hge Hno|pre prev curr post Hs Hno Hb];
    destruct H2 as [Hlt'|Hge' Hno'|pre' prev' curr' post' Hs' Hno' Hb'];
    try reflexivity.
  - exfalso. subst s. rewrite length_app in Hlt. simpl in Hlt. lia.
  - exfalso. subst s. now apply (no_boundary_in_mid _ _ _ _ _ Hno).
  - exfalso. subst s. rewrite length_app in Hlt'. simpl in Hlt'. lia.
  - exfalso. subst s. now apply (no_boundary_in_mid _ _ _ _ _ Hno').
  - rewrite Hs in Hs'.
    destruct (first_boundary_unique thr _ _ _ _ _ _ _ _ Hs' Hno Hb Hno' Hb')
      as (-> & -> & -> & ->).
    reflexivity.
Qed.

(** ** The partition: boundary, totality, monotonicity, ratio *)

(** *** The partition in binary64 arithmetic *)

Lemma none_adjacent_short {A} (B : A -> A -> Prop) (l : list A) :
  (List.length l < 2)%nat -> none_adjacent B l.
Proof.
  intros Hlen pre p c post ->. rewrite length_app in Hlen.
  simpl in Hlen. lia.
Qed.

Lemma none_adjacent_cons {A} (B : A -> A -> Prop) (p q : A) (r : list A) :
  none_adjacent B (p :: q :: r) <-> ~ B p q /\ none_adjacent B (q :: r).
Proof.
  split.
  - intros H. split.
    + apply (H [] p q r). reflexivity.
    + intros pre a b post Heq. apply (H (p :: pre) a b post).
      simpl. now rewrite Heq.
  - intros [Hpq Hr] pre a b post Heq. destruct pre as [|x pre].
    + simpl in Heq. inversion Heq; subst. exact Hpq.
    + simpl in Heq. inversion Heq; subst. apply (Hr pre a b post).
      assumption.
Qed.

Lemma none_adjacent_tail {A} (B : A -> A -> Prop) (p : A) (l : list A) :
  none_adjacent B (p :: l) -> none_adjacent B l.
Proof.
  intros H pre a b post Heq. apply (H (p :: pre) a b post).
  simpl. now rewrite Heq.
Qed.

(** Two decompositions that both stop at their first related pair are the
    same. *)
Lemma first_adjacent_unique {A} (B : A -> A -> Prop) :
  forall pre1 p1 c1 post1 pre2 p2 c2 post2,
    pre1 ++ p1 :: c1 :: post1 = pre2 ++ p2 :: c2 :: post2 ->
    none_adjacent B (pre1 ++ [p1]) -> B p1 c1 ->
    none_adjacent B (pre2 ++ [p2]) -> B p2 c2 ->
    pre1 = pre2 /\ p1 = p2 /\ c1 = c2 /\ post1 = post2.
Proof.
  induction pre1 as [|a pre1 IH]; intros p1 c1 post1 pre2 p2 c2 post2
    Heq Hn1 Hb1 Hn2 Hb2.
  - destruct pre2 as [|b pre2]; simpl in Heq; inversion Heq; subst.
    + auto.
    + exfalso. destruct pre2 as [|b' pre2]; simpl in *;
        match goal with
        | H : _ :: _ = _ :: _ |- _ => inversion H; subst
        end;
        (eapply (Hn2 []); [simpl; reflexivity|exact Hb1]).
  - destruct pre2 as [|b pre2]; simpl in Heq; inversion Heq; subst.
    + exfalso. destruct pre1 as [|a' pre1]; simpl in *;
        match goal with
        | H : _ :: _ = _ :: _ |- _ => inversion H; subst
        end;
        (eapply (Hn1 []); [simpl; reflexivity|exact Hb2]).
    + apply none_adjacent_tail in Hn1, Hn2.
      match goal with
      | H : pre1 ++ _ = pre2 ++ _ |- _ =>
          destruct (IH _ _ _ _ _ _ _ H Hn1 Hb1 Hn2 Hb2)
            as (-> & -> & -> & ->)
      end.
      auto.
Qed.

(** What [F64.find_break] returns, read on the Series itself. *)
Lemma f64_find_break_decompose (thr : spec_float) (s : Series.t) :
  forall i0,
    match F64.find_break thr (adjacent (Series.values s)) i0 with
    | None => no_boundary64 thr s
    | Some i =>
        exists pre prev curr post,
          s = pre ++ prev :: curr :: post /\
          i = (i0 + List.length pre)%nat /\
          no_boundary64 thr (pre ++ [prev]) /\
          boundary64 thr prev curr
    end.
Proof.
  unfold no_boundary64.
  induction s as [|p [|q r] IH]; intros i0;
    try (apply none_adjacent_short; simpl; lia).
  change (adjacent (Series.values (p :: q :: r)))
    with ((snd p, snd q) :: adjacent (Series.values (q :: r))).
  cbn [F64.find_break].
  destruct (F64.sharp_drop thr (snd p) (snd q)) eqn:Hsd.
  - exists [], p, q, r. repeat split.
    + simpl. lia.
    + apply none_adjacent_short. simpl. lia.
    + exact Hsd.
  - assert (Hnb : ~ boundary64 thr p q).
    { unfold boundary64. intros Hb.
      unfold F64.sharp_drop, F64.ltb, F64.mul, F64.of_int in Hsd.
      congruence. }
    specialize (IH (S i0)).
    destruct (F64.find_break thr (adjacent (Series.values (q :: r))) (S i0))
      as [i|].
    + destruct IH as (pre & prev & curr & post & Hs & Hi & Hno & Hb).
      exists (p :: pre), prev, curr, post. repeat split.
      * simpl. now rewrite Hs.
      * simpl. lia.
      * destruct pre as [|q' pre']; simpl in Hs; inversion Hs; subst;
          simpl; apply none_adjacent_cons; split; assumption.
      * assumption.
    + apply none_adjacent_cons. split; assumption.
Qed.

(** The pandas contract holds of the model's [value_counts]. *)
Lemma value_counts_meets_contract (col : list string) :
  is_value_counts col (Series.value_counts col).
Proof.
  split; [|split].
  - apply value_counts_NoDup.
  - intros x n. apply value_counts_In.
  - apply sort_desc_descending.
Qed.

(** The items left after the empty string is dropped. *)
Lemma dropped_items (col : list string) (s : list (string * Z)) :
  is_value_counts col s ->
  NoDup (map fst (filter (fun p => negb (fst p =? "")) s)) /\
  (forall x n, In (x, n) (filter (fun p => negb (fst p =? "")) s) <->
               In x col /\ x <> "" /\
               n = Z.of_nat (count_occ string_dec col x)) /\
  StronglySorted (fun p q => (snd q <= snd p)%Z)
                 (filter (fun p => negb (fst p =? "")) s).
Proof.
  intros (Hnd & Hin & Hsorted). split; [|split].
  - now apply NoDup_index_filter.
  - intros x n. rewrite filter_In, Hin. simpl.
    rewrite negb_true_iff, String.eqb_neq. tauto.
  - now apply descending_filter.
Qed.

(** The product of the test is a rounded one: the threshold
    0.33333333333333337 is above 1/3, so [1 < threshold * 3] holds of the
    exact numbers, but the binary64 product is 1.0 and the code finds no
    boundary. *)
Example rounded_product_hides_a_drop :
  (inject_Z 1 < (6004799503160662 # 18014398509481984) * inject_Z 3)%Q
  /\ SFmul 53 1024 f64_above_third (binary_normalize 53 1024 3 0 false)
     = binary_normalize 53 1024 1 0 false
  /\ F64.get_rare_vs_common_values Series.value_counts
       ["a"; "a"; "a"; "b"] f64_above_third
     = (S754_zero false, None, None).
Proof.
  split; [unfold Qlt; simpl; lia|].
  split; vm_compute; reflexivity.
Qed.

(** C1.  Let [items] be the distinct non-empty values of the column with
    their numbers of occurrences, most frequent first (in whatever order
    pandas gives to equally frequent values).  With fewer than two items, or
    when no adjacent pair has [current_count < threshold * previous_count]
    (a float test: the count converted, the product rounded to nearest), the
    result is [0, None, None].  Otherwise, at the first such pair, common is
    everything up to and including previous, rare is everything from current
    onward, and the ratio is the float quotient of the sum of the rare counts
    by the sum of the common counts.  One of these cases always applies. *)
Theorem partition_at_first_sharp_drop
    (value_counts : list string -> list (string * Z))
    (col : list string) (thr : spec_float) :
  is_value_counts col (value_counts col) ->
  let items := filter (fun p => negb (fst p =? "")) (value_counts col) in
  let total := fun l : list (string * Z) =>
                 fold_right Z.add 0%Z (map snd l) in
  let result := F64.get_rare_vs_common_values value_counts col thr in
  (NoDup (map fst items) /\
   (forall x n, In (x, n) items <->
                In x col /\ x <> "" /\
                n = Z.of_nat (count_occ string_dec col x)) /\
   StronglySorted (fun p q => (snd q <= snd p)%Z) items) /\
  ((List.length items < 2)%nat -> result = (S754_zero false, None, None)) /\
  (no_boundary64 thr items -> result = (S754_zero false, None, None)) /\
  (forall pre prev curr post,
      items = pre ++ prev :: curr :: post ->
      no_boundary64 thr (pre ++ [prev]) ->
      boundary64 thr prev curr ->
      result
      = (SFdiv 53 1024
           (binary_normalize 53 1024 (total (curr :: post)) 0 false)
           (binary_normalize 53 1024 (total (pre ++ [prev])) 0 false),
         Some (map fst (curr :: post)),
         Some (map fst (pre ++ [prev])))) /\
  ((List.length items < 2)%nat \/ no_boundary64 thr items \/
   exists pre prev curr post,
     items = pre ++ prev :: curr :: post /\
     no_boundary64 thr (pre ++ [prev]) /\
     boundary64 thr prev curr).
Proof.
  intros Hvc items total result.
  split; [exact (dropped_items col _ Hvc)|].
  assert (Hcode :
    ((List.length items <= 1)%nat /\ result = (S754_zero false, None, None))
    \/ (no_boundary64 thr items /\ result = (S754_zero false, None, None))
    \/ exists pre prev curr post,
         items = pre ++ prev :: curr :: post /\
         no_boundary64 thr (pre ++ [prev]) /\
         boundary64 thr prev curr /\
         result
         = (SFdiv 53 1024
              (binary_normalize 53 1024 (total (curr :: post)) 0 false)
              (binary_normalize 53 1024 (total (pre ++ [prev])) 0 false),
            Some (map fst (curr :: post)),
            Some (map fst (pre ++ [prev])))).
  { subst result. unfold F64.get_rare_vs_common_values.
    change (Series.drop "" (value_counts col)) with items.
    destruct (Nat.leb_spec (List.length items) 1) as [Hle|Hgt].
    - left. split; [assumption|reflexivity].
    - right. rewrite zip_adjacent.
      pose proof (f64_find_break_decompose thr items 0) as Hfb.
      destruct (F64.find_break thr (adjacent (Series.values items)) 0)
        as [i|].
      + right.
        destruct Hfb as (pre & prev & curr & post & Hs & Hi & Hno & Hb).
        exists pre, prev, curr, post. repeat split; try assumption.
        simpl in Hi. subst i.
        assert (Hs' : items = (pre ++ [prev]) ++ curr :: post)
          by (rewrite <- app_assoc; exact Hs).
        assert (Hlen : (List.length pre + 1)%nat
                       = List.length (pre ++ [prev]))
          by (rewrite length_app; reflexivity).
        rewrite Hlen, Hs', firstn_length_app, skipn_length_app.
        reflexivity.
      + left. split; [exact Hfb|reflexivity]. }
  split; [|split; [|split]].
  - intros Hlt. destruct Hcode as [[_ H]|[[_ H]|H]]; try exact H.
    destruct H as (pre & prev & curr & post & Hs & _).
    exfalso. rewrite Hs, length_app in Hlt. simpl in Hlt. lia.
  - intros Hnone. destruct Hcode as [[_ H]|[[_ H]|H]]; try exact H.
    destruct H as (pre & prev & curr & post & Hs & _ & Hb & _).
    exfalso. exact (Hnone pre prev curr post Hs Hb).
  - intros pre prev curr post Hs Hno Hb.
    destruct Hcode as [[Hle _]|[[Hnone _]|H]].
    + exfalso. rewrite Hs, length_app in Hle. simpl in Hle. lia.
    + exfalso. exact (Hnone pre prev curr post Hs Hb).
    + destruct H as (pre' & prev' & curr' & post' & Hs' & Hno' & Hb' & Hres).
      rewrite Hs in Hs'.
      destruct (first_adjacent_unique _ _ _ _ _ _ _ _ _ Hs' Hno Hb Hno' Hb')
        as (-> & -> & -> & ->).
      exact Hres.
  - destruct Hcode as [[Hle _]|[[Hnone _]|H]].
    + left. lia.
    + right. left. exact Hnone.
    + right. right.
      destruct H as (pre & prev & curr & post & Hs & Hno & Hb & _).
      exists pre, prev, curr, post. repeat split; assumption.
Qed.

Lemma partition_at_first_sharp_drop_witness :
  is_value_counts ["a"; "b"; "a"; "a"; ""; "c"]
                  (Series.value_counts ["a"; "b"; "a"; "a"; ""; "c"])
  /\ F64.get_rare_vs_common_values Series.value_counts
       ["a"; "b"; "a"; "a"; ""; "c"] f64_0_5
     = (SFdiv 53 1024 (binary_normalize 53 1024 2 0 false)
                      (binary_normalize 53 1024 3 0 false),
        Some ["b"; "c"], Some ["a"]).
Proof.
  split; [apply value_counts_meets_contract|].
  refine (proj1 (proj2 (proj2 (proj2
            (partition_at_first_sharp_drop Series.value_counts
               ["a"; "b"; "a"; "a"; ""; "c"] f64_0_5
               (value_counts_meets_contract _)))))
            [] ("a", 3%Z) ("b", 1%Z) [("c", 1%Z)] _ _ _).
  - vm_compute. reflexivity.
  - apply none_adjacent_short. simpl. lia.
  - vm_compute. reflexivity.
Defined.

(** A found partition lists the whole ranking, common items first. *)
Lemma partition_found_inv (col : list string) (thr : Q) r rare common :
  get_rare_vs_common_values col thr = (r, Some rare, Some common) ->
  exists common_values rare_values,
    ranking col = common_values ++ rare_values /\
    common_values <> [] /\ rare_values <> [] /\
    common = Series.index common_values /\
    rare = Series.index rare_values /\
    r = (inject_Z (Series.sum rare_values)
         / inject_Z (Series.sum common_values))%Q.
Proof.
  intros Heq. pose proof (partition_meets_spec col thr) as Hspec.
  rewrite Heq in Hspec.
  inversion Hspec as [| |pre prev curr post Hs Hno Hb Hres]; subst.
  exists (pre ++ [prev]), (curr :: post). repeat split.
  - rewrite <- app_assoc. exact Hs.
  - now destruct pre.
  - discriminate.
Qed.

(** The partition returns [0, None, None] or two lists, never one. *)
Lemma partition_shape (col : list string) (thr : Q) :
  get_rare_vs_common_values col thr = no_partition \/
  exists r rare common,
    get_rare_vs_common_values col thr = (r, Some rare, Some common).
Proof.
  destruct (partition_meets_spec col thr); eauto.
Qed.

(** C2, as stated, fails on a column that holds the empty string: the empty
    string is a distinct input item and is in neither list. *)
Lemma partition_omits_empty_string :
  get_rare_vs_common_values ["a"; "a"; "a"; "b"; ""] (1 # 2)
  = ((1 # 3)%Q, Some ["b"], Some ["a"])
  /\ In "" ["a"; "a"; "a"; "b"; ""]
  /\ ~ In "" (["a"] ++ ["b"]).
Proof.
  split; [vm_compute; reflexivity|].
  split; [simpl; tauto|].
  simpl. intros [H|[H|[]]]; discriminate.
Qed.

(** C2 (amended).  When the partition returns lists, common and rare
    together hold every distinct value of the column other than the empty
    string, each exactly once, and nothing else. *)
Theorem partition_totality (col : list string) (thr : Q) r rare common :
  get_rare_vs_common_values col thr = (r, Some rare, Some common) ->
  NoDup (common ++ rare) /\
  (forall x, In x (common ++ rare) <-> In x col /\ x <> "").
Proof.
  intros Heq.
  destruct (partition_found_inv _ _ _ _ _ Heq)
    as (cv & rv & Hs & _ & _ & -> & -> & _).
  assert (Hidx : Series.index cv ++ Series.index rv
                 = Series.index (ranking col)).
  { rewrite Hs. unfold Series.index. now rewrite map_app. }
  rewrite Hidx. split.
  - apply ranking_NoDup.
  - intros x. apply ranking_index_In.
Qed.

Lemma partition_totality_witness :
  get_rare_vs_common_values ["a"; "a"; "a"; "b"; ""] (1 # 2)
  = ((1 # 3)%Q, Some ["b"], Some ["a"])
  /\ NoDup (["a"] ++ ["b"])
  /\ (forall x, In x (["a"] ++ ["b"]) <->
                In x ["a"; "a"; "a"; "b"; ""] /\ x <> "").
Proof.
  assert (H : get_rare_vs_common_values ["a"; "a"; "a"; "b"; ""] (1 # 2)
              = ((1 # 3)%Q, Some ["b"], Some ["a"]))
    by (vm_compute; reflexivity).
  split; [exact H|].
  exact (partition_totality _ _ _ _ _ H).
Defined.

Lemma inject_Z_pos (z : Z) : (0 < z)%Z -> (0 < inject_Z z)%Q.
Proof. intros H. unfold Qlt. simpl. lia. Qed.

Lemma sharp_drop_mono (t1 t2 : Q) (prev curr : Z) :
  (t1 <= t2)%Q -> (0 < prev)%Z ->
  sharp_drop t1 prev curr = true -> sharp_drop t2 prev curr = true.
Proof.
  intros Hle Hpos H1. apply sharp_drop_iff in H1. apply sharp_drop_iff.
  eapply Qlt_le_trans; [exact H1|].
  apply Qmult_le_compat_r; [exact Hle|].
  apply Qlt_le_weak. now apply inject_Z_pos.
Qed.

(** With a larger threshold the loop breaks no later. *)
Lemma find_break_mono (t1 t2 : Q) (pairs : list (Z * Z)) :
  (t1 <= t2)%Q ->
  Forall (fun pc => (0 < fst pc)%Z) pairs ->
  forall i0 i1,
    find_break t1 pairs i0 = Some i1 ->
    exists i2, find_break t2 pairs i0 = Some i2 /\ (i0 <= i2 <= i1)%nat.
Proof.
  intros Hle Hpos. induction Hpos as [|[p c] rest Hp Hrest IH];
    intros i0 i1 H1; simpl in *; [discriminate|].
  destruct (sharp_drop t1 p c) eqn:Hs1.
  - inversion H1; subst.
    rewrite (sharp_drop_mono _ _ _ _ Hle Hp Hs1).
    exists i1. split; [reflexivity|lia].
  - destruct (sharp_drop t2 p c).
    + exists i0. split; [reflexivity|].
      destruct (IH _ _ H1) as (i2 & _ & Hi2). lia.
    + destruct (IH _ _ H1) as (i2 & Hf & Hi2).
      exists i2. split; [exact Hf|lia].
Qed.

Lemma adjacent_positive (l : list Z) :
  Forall (fun z => (0 < z)%Z) l ->
  Forall (fun pc => (0 < fst pc)%Z) (adjacent l).
Proof.
  induction l as [|a [|b r] IH]; intros H; try constructor.
  - simpl. now inversion H.
  - apply IH. now inversion H.
Qed.

Lemma firstn_plus {A} (a d : nat) (l : list A) :
  firstn (a + d) l = firstn a l ++ firstn d (skipn a l).
Proof.
  revert l. induction a as [|a IH]; intros l; [reflexivity|].
  destruct l as [|x l]; simpl.
  - now rewrite firstn_nil.
  - now rewrite IH.
Qed.

Lemma skipn_plus {A} (a d : nat) (l : list A) :
  skipn a l = firstn d (skipn a l) ++ skipn (a + d) l.
Proof.
  rewrite Nat.add_comm, <- skipn_skipn. symmetry. apply firstn_skipn.
Qed.

(** C3, as stated, fails when the smaller threshold finds no boundary: the
    result lists nothing, and the larger threshold then lists items that come
    from neither list, so the number of listed items changes. *)
Lemma larger_threshold_lists_new_items :
  (1 # 20 <= 1 # 2)%Q
  /\ get_rare_vs_common_values ["a"; "a"; "a"; "b"] (1 # 20) = no_partition
  /\ get_rare_vs_common_values ["a"; "a"; "a"; "b"] (1 # 2)
     = ((1 # 3)%Q, Some ["b"], Some ["a"])
  /\ accounted (get_rare_vs_common_values ["a"; "a"; "a"; "b"] (1 # 20)) = 0%nat
  /\ accounted (get_rare_vs_common_values ["a"; "a"; "a"; "b"] (1 # 2)) = 2%nat.
Proof.
  split; [unfold Qle; simpl; lia|].
  repeat split; vm_compute; reflexivity.
Qed.

(** With a larger threshold a boundary that was found is still found, no
    later; the items in between go from common to rare. *)
Lemma threshold_monotone_found (col : list string) (t1 t2 : Q)
    r1 rare1 common1 :
  (t1 <= t2)%Q ->
  get_rare_vs_common_values col t1 = (r1, Some rare1, Some common1) ->
  exists r2 rare2 common2 moved,
    get_rare_vs_common_values col t2 = (r2, Some rare2, Some common2) /\
    common1 = common2 ++ moved /\
    rare2 = moved ++ rare1 /\
    accounted (get_rare_vs_common_values col t2)
    = accounted (get_rare_vs_common_values col t1).
Proof.
  intros Hle H1.
  assert (Hacc1 := H1).
  unfold get_rare_vs_common_values in H1. fold (ranking col) in H1.
  destruct (List.length (ranking col) <=? 1)%nat eqn:Hlen; [discriminate|].
  rewrite zip_adjacent in H1.
  destruct (find_break t1 (adjacent (Series.values (ranking col))) 0)
    as [i1|] eqn:Hf1; [|discriminate].
  assert (Hpos : Forall (fun pc => (0 < fst pc)%Z)
                        (adjacent (Series.values (ranking col)))).
  { apply adjacent_positive. unfold Series.values.
    apply Forall_map. apply ranking_positive. }
  destruct (find_break_mono t1 t2 _ Hle Hpos 0%nat i1 Hf1) as (i2 & Hf2 & Hi).
  inversion H1; subst.
  set (moved := firstn (i1 - i2) (skipn (i2 + 1) (ranking col))).
  assert (H2 : get_rare_vs_common_values col t2
               = ((inject_Z (Series.sum (skipn (i2 + 1) (ranking col)))
                   / inject_Z (Series.sum (firstn (i2 + 1) (ranking col))))%Q,
                  Some (Series.index (skipn (i2 + 1) (ranking col))),
                  Some (Series.index (firstn (i2 + 1) (ranking col))))).
  { unfold get_rare_vs_common_values. fold (ranking col).
    now rewrite Hlen, zip_adjacent, Hf2. }
  assert (Hc : firstn (i1 + 1) (ranking col)
               = firstn (i2 + 1) (ranking col) ++ moved).
  { replace (i1 + 1)%nat with ((i2 + 1) + (i1 - i2))%nat by lia.
    apply firstn_plus. }
  assert (Hr : skipn (i2 + 1) (ranking col)
               = moved ++ skipn (i1 + 1) (ranking col)).
  { replace (i1 + 1)%nat with ((i2 + 1) + (i1 - i2))%nat by lia.
    apply skipn_plus. }
  rewrite H2, Hacc1.
  eexists _, _, _, (Series.index moved).
  split; [reflexivity|].
  split; [unfold Series.index; now rewrite Hc, map_app|].
  split; [unfold Series.index; now rewrite Hr, map_app|].
  unfold accounted, Series.index.
  rewrite Hc, Hr. repeat rewrite ?length_map, ?length_app. lia.
Qed.


(** C3 (amended).  For thresholds [t1 <= t2]: when the partition with [t1]
    finds a boundary, the partition with [t2] finds one too, no later in the
    ranking.  Some items [moved] leave the end of the common list and come at
    the front of the rare list; no item goes from rare to common, and the
    number of listed items is the same.  When [t1] gives [0, None, None],
    nothing is listed; reading that result as "all items common, none rare",
    the same holds for every pair of results. *)
Theorem threshold_monotonicity (col : list string) (t1 t2 : Q) :
  (t1 <= t2)%Q ->
  (forall r1 rare1 common1,
      get_rare_vs_common_values col t1 = (r1, Some rare1, Some common1) ->
      exists r2 rare2 common2 moved,
        get_rare_vs_common_values col t2 = (r2, Some rare2, Some common2) /\
        common1 = common2 ++ moved /\
        rare2 = moved ++ rare1 /\
        accounted (get_rare_vs_common_values col t2)
        = accounted (get_rare_vs_common_values col t1)) /\
  (exists moved,
      common_or_all col (get_rare_vs_common_values col t1)
      = common_or_all col (get_rare_vs_common_values col t2) ++ moved /\
      rare_or_none (get_rare_vs_common_values col t2)
      = moved ++ rare_or_none (get_rare_vs_common_values col t1)).
Proof.
  intros Hle. split.
  - intros r1 rare1 common1. now apply threshold_monotone_found.
  - destruct (partition_shape col t1) as [H1|(r1 & rare1 & common1 & H1)].
    + destruct (partition_shape col t2) as [H2|(r2 & rare2 & common2 & H2)].
      * rewrite H1, H2. exists []. simpl. now rewrite app_nil_r.
      * rewrite H1, H2. exists rare2. simpl. rewrite app_nil_r.
        destruct (partition_found_inv _ _ _ _ _ H2)
          as (cv & rv & Hs & _ & _ & -> & -> & _).
        rewrite Hs. unfold Series.index. now rewrite map_app.
    + destruct (threshold_monotone_found col t1 t2 _ _ _ Hle H1)
        as (r2 & rare2 & common2 & moved & H2 & Hc & Hr & _).
      rewrite H1, H2. exists moved. simpl. tauto.
Qed.

Lemma threshold_monotonicity_witness :
  (1 # 2 <= 4 # 5)%Q
  /\ get_rare_vs_common_values
       ["a"; "b"; "a"; "b"; "a"; "c"; "b"; "a"] (1 # 2)
     = ((1 # 7)%Q, Some ["c"], Some ["a"; "b"])
  /\ exists r2 rare2 common2 moved,
       get_rare_vs_common_values
         ["a"; "b"; "a"; "b"; "a"; "c"; "b"; "a"] (4 # 5)
       = (r2, Some rare2, Some common2) /\
       ["a"; "b"] = common2 ++ moved /\
       rare2 = moved ++ ["c"] /\
       accounted (get_rare_vs_common_values
                    ["a"; "b"; "a"; "b"; "a"; "c"; "b"; "a"] (4 # 5))
       = accounted (get_rare_vs_common_values
                      ["a"; "b"; "a"; "b"; "a"; "c"; "b"; "a"] (1 # 2)).
Proof.
  assert (Hle : (1 # 2 <= 4 # 5)%Q) by (unfold Qle; simpl; lia).
  assert (H1 : get_rare_vs_common_values
                 ["a"; "b"; "a"; "b"; "a"; "c"; "b"; "a"] (1 # 2)
               = ((1 # 7)%Q, Some ["c"], Some ["a"; "b"]))
    by (vm_compute; reflexivity).
  split; [exact Hle|]. split; [exact H1|].
  exact (proj1 (threshold_monotonicity _ _ _ Hle) _ _ _ H1).
Defined.

Lemma sum_app (a b : Series.t) :
  Series.sum (a ++ b) = (Series.sum a + Series.sum b)%Z.
Proof.
  unfold Series.sum, Series.values.
  induction a as [|p a IH]; simpl; [reflexivity|]. rewrite IH. lia.
Qed.

Lemma sum_positive (s : Series.t) :
  s <> [] -> Forall (fun p => (0 < snd p)%Z) s -> (0 < Series.sum s)%Z.
Proof.
  intros Hne Hpos. destruct s as [|p s]; [congruence|].
  inversion Hpos as [|? ? Hp Hs]; subst.
  assert (Hge : (0 <= Series.sum s)%Z).
  { clear -Hs. induction Hs as [|q s Hq Hs IH]; [reflexivity|].
    change (Series.sum (q :: s)) with (snd q + Series.sum s)%Z. lia. }
  change (Series.sum (p :: s)) with (snd p + Series.sum s)%Z. lia.
Qed.

Lemma ratio_positive (a b : Z) :
  (0 < a)%Z -> (0 < b)%Z -> (0 < inject_Z a / inject_Z b)%Q.
Proof.
  intros Ha Hb. unfold Qdiv. apply Qmult_lt_0_compat.
  - now apply inject_Z_pos.
  - apply Qinv_lt_0_compat. now apply inject_Z_pos.
Qed.

(** C10.  The partition returns either [0, None, None] or two lists cut from
    the ranking, both non-empty with positive counts: both sums are positive,
    the division is defined and the ratio is strictly positive.  So the
    caller's test [ratio == 0] holds exactly for [0, None, None]. *)
Theorem ratio_zero_iff_no_partition (col : list string) (thr : Q) :
  let res := get_rare_vs_common_values col thr in
  (res = no_partition \/
   exists common_values rare_values,
     ranking col = common_values ++ rare_values /\
     common_values <> [] /\ rare_values <> [] /\
     Forall (fun p => (0 < snd p)%Z) common_values /\
     Forall (fun p => (0 < snd p)%Z) rare_values /\
     (0 < Series.sum common_values)%Z /\
     (0 < Series.sum rare_values)%Z /\
     res = ((inject_Z (Series.sum rare_values)
             / inject_Z (Series.sum common_values))%Q,
            Some (Series.index rare_values),
            Some (Series.index common_values)) /\
     (0 < fst (fst res))%Q) /\
  (Qeq_bool (fst (fst res)) 0 = true <-> res = no_partition).
Proof.
  intros res.
  assert (Hcases :
    res = no_partition \/
    exists common_values rare_values,
      ranking col = common_values ++ rare_values /\
      common_values <> [] /\ rare_values <> [] /\
      Forall (fun p => (0 < snd p)%Z) common_values /\
      Forall (fun p => (0 < snd p)%Z) rare_values /\
      (0 < Series.sum common_values)%Z /\
      (0 < Series.sum rare_values)%Z /\
      res = ((inject_Z (Series.sum rare_values)
              / inject_Z (Series.sum common_values))%Q,
             Some (Series.index rare_values),
             Some (Series.index common_values)) /\
      (0 < fst (fst res))%Q).
  { pose proof (partition_meets_spec col thr) as Hspec. fold res in Hspec.
    destruct Hspec as [Hlt|Hge Hno|pre prev curr post Hs Hno Hb];
      [left; reflexivity|left; reflexivity|right].
    pose proof (ranking_positive col) as Hpos.
    assert (Hs' : ranking col = (pre ++ [prev]) ++ curr :: post)
      by (rewrite <- app_assoc; exact Hs).
    rewrite Hs' in Hpos. apply Forall_app in Hpos. destruct Hpos as [Hpc Hpr].
    assert (Hnc : pre ++ [prev] <> []) by (now destruct pre).
    assert (Hnr : curr :: post <> []) by discriminate.
    exists (pre ++ [prev]), (curr :: post).
    repeat (split; [first [assumption | now apply sum_positive]|]).
    split; [reflexivity|].
    cbn [fst]. apply ratio_positive; now apply sum_positive. }
  split; [exact Hcases|].
  split.
  - intros Hz. apply Qeq_bool_iff in Hz.
    destruct Hcases as [Hn|(cv & rv & _ & _ & _ & _ & _ & _ & _ & _ & Hpos)];
      [exact Hn|].
    exfalso. rewrite Hz in Hpos. now apply (Qlt_irrefl 0).
  - intros ->. reflexivity.
Qed.

(** ** Refinement *)

Lemma prefix_spec (sub s : string) :
  String.prefix sub s = true <-> exists b, s = (sub ++ b)%string.
Proof.
  revert s. induction sub as [|c sub IH]; intros s.
  - split; [intros _; now exists s|intros _; now destruct s].
  - destruct s as [|d s]; simpl.
    + split; [discriminate|intros [b Hb]; discriminate].
    + destruct (Ascii.ascii_dec c d) as [->|Hne].
      * rewrite IH. split; intros [b Hb]; exists b; congruence.
      * split; [discriminate|]. intros [b Hb]. congruence.
Qed.

(** [str_in] is the substring test. *)
Lemma str_in_spec (sub s : string) :
  str_in sub s = true <-> exists a b, s = (a ++ sub ++ b)%string.
Proof.
  induction s as [|c s IH].
  - cbn [str_in]. destruct (String.prefix sub "") eqn:Hp.
    + apply prefix_spec in Hp. destruct Hp as [b Hb].
      split; [intros _; now exists "", b|reflexivity].
    + split; [discriminate|]. intros (a & b & Hab).
      destruct a; [|discriminate]. simpl in Hab.
      assert (String.prefix sub "" = true)
        by (apply prefix_spec; now exists b).
      congruence.
  - cbn [str_in]. destruct (String.prefix sub (String c s)) eqn:Hp.
    + apply prefix_spec in Hp. destruct Hp as [b Hb].
      split; [intros _; now exists "", b|reflexivity].
    + rewrite IH. split.
      * intros (a & b & Hab). exists (String c a), b. simpl. now rewrite Hab.
      * intros (a & b & Hab). destruct a as [|c' a]; simpl in Hab.
        -- assert (String.prefix sub (String c s) = true)
             by (apply prefix_spec; now exists b).
           congruence.
        -- inversion Hab; subst. now exists a, b.
Qed.

Lemma getitem_raises {A} (xs : list A) (i : nat) (e : exn) :
  getitem xs i = Raise e -> e = IndexError.
Proof.
  unfold getitem. destruct (nth_error xs i); intros H; inversion H.
  reflexivity.
Qed.

Section RefineFacts.

Variable split_and_keep : string -> string -> list string.
Variable split_and_keep_by_many : string -> list string -> list string.

Let refine_formats := _refine_formats split_and_keep split_and_keep_by_many.

Lemma all_agree_raises (i : nat) (v : string) (rest : list (list string))
    (e : exn) :
  all_agree i v rest = Raise e -> e = IndexError.
Proof.
  induction rest as [|s more IH]; simpl; [discriminate|].
  destruct (getitem s i) as [x|e'] eqn:Hg; simpl.
  - destruct (x =? v); [exact IH|discriminate].
  - intros H. inversion H; subst. now apply getitem_raises in Hg.
Qed.

Lemma refine_loop_raises (substr : string) (splt_fmt example : list string)
    (others : list (list string)) (idxs : list nat) :
  forall new_format e,
    refine_loop substr splt_fmt example others idxs new_format = Raise e ->
    e = IndexError.
Proof.
  induction idxs as [|i rest IH]; intros new_format e; simpl; [discriminate|].
  destruct (getitem splt_fmt i) as [tok|e1] eqn:H1; simpl.
  - destruct (negb (tok =? substr)); [apply IH|].
    destruct (getitem example i) as [cv|e2] eqn:H2; simpl.
    + destruct (all_agree i cv others) as [[|]|e3] eqn:H3; simpl;
        try apply IH.
      intros H. inversion H; subst. now apply all_agree_raises in H3.
    + intros H. inversion H; subst. now apply getitem_raises in H2.
  - intros H. inversion H; subst. now apply getitem_raises in H1.
Qed.

(** Every failure of the refinement is an [IndexError]. *)
Lemma refine_formats_raises fmt substr samples is_substr_sequence e :
  refine_formats fmt substr samples is_substr_sequence = Raise e ->
  e = IndexError.
Proof.
  unfold refine_formats, _refine_formats.
  destruct (negb (str_in substr fmt)); [discriminate|].
  destruct (if is_substr_sequence then _ else _) as [splt_fmt split_examples].
  destruct (getitem split_examples 0) as [example|e1] eqn:H1; simpl.
  - destruct (refine_loop _ _ _ _ _ _) as [nf|e2] eqn:H2; simpl;
      [discriminate|].
    intros H. inversion H; subst. now apply refine_loop_raises in H2.
  - intros H. inversion H; subst. now apply getitem_raises in H1.
Qed.

(** Without samples, a format that holds the filler makes [split_examples[0]]
    fail. *)
Lemma refine_formats_no_samples fmt substr is_substr_sequence :
  str_in substr fmt = true ->
  refine_formats fmt substr [] is_substr_sequence = Raise IndexError.
Proof.
  intros Hin. unfold refine_formats, _refine_formats. rewrite Hin. simpl.
  destruct is_substr_sequence; reflexivity.
Qed.

Lemma refine_formats_without_filler fmt substr samples is_substr_sequence :
  str_in substr fmt = false ->
  refine_formats fmt substr samples is_substr_sequence = Ok fmt.
Proof.
  intros Hin. unfold refine_formats, _refine_formats. now rewrite Hin.
Qed.

End RefineFacts.

Lemma getitem_nth {A} (xs : list A) (i : nat) (d : A) :
  (i < List.length xs)%nat -> getitem xs i = Ok (nth i xs d).
Proof.
  intros Hi. unfold getitem. now rewrite (nth_error_nth' xs d Hi).
Qed.

Lemma all_agree_aligned (i : nat) (v : string) (others : list (list string)) :
  Forall (fun s => (i < List.length s)%nat) others ->
  all_agree i v others
  = Ok (forallb (fun s => nth i s "" =? v) others).
Proof.
  induction 1 as [|s more Hs Hmore IH]; simpl; [reflexivity|].
  rewrite (getitem_nth s i "" Hs). simpl.
  destruct (nth i s "" =? v); [exact IH|reflexivity].
Qed.

(** On token arrays of the same arity the loop is a position-wise map. *)
Lemma refine_loop_aligned (substr : string) (splt_fmt example : list string)
    (others : list (list string)) (idxs : list nat) :
  List.length example = List.length splt_fmt ->
  Forall (fun s => List.length s = List.length splt_fmt) others ->
  Forall (fun i => (i < List.length splt_fmt)%nat) idxs ->
  forall new_format,
    refine_loop substr splt_fmt example others idxs new_format
    = Ok (new_format
          ++ map (refined_token substr splt_fmt example others) idxs).
Proof.
  intros Hex Hothers Hidxs.
  induction Hidxs as [|i rest Hi Hrest IH]; intros new_format; simpl.
  - now rewrite app_nil_r.
  - unfold refined_token at 1.
    rewrite (getitem_nth splt_fmt i "" Hi). simpl.
    destruct (negb (nth i splt_fmt "" =? substr)).
    + rewrite IH, <- app_assoc. reflexivity.
    + rewrite (getitem_nth example i ""); [|now rewrite Hex]. simpl.
      rewrite all_agree_aligned.
      2:{ eapply Forall_impl; [|exact Hothers].
          simpl. intros s Hs. now rewrite Hs. }
      simpl.
      destruct (forallb _ others); rewrite IH, <- app_assoc; reflexivity.
Qed.

(** C9.  When the filler does not occur in the skeleton, the refinement
    returns the skeleton unchanged, whatever the samples and the mode (and
    whatever the two string helpers do). *)
Theorem refine_without_filler_is_identity
    (split_and_keep : string -> string -> list string)
    (split_and_keep_by_many : string -> list string -> list string)
    (fmt substr : string) (samples : list string) (is_substr_sequence : bool) :
  (forall a b, fmt <> (a ++ substr ++ b)%string) ->
  _refine_formats split_and_keep split_and_keep_by_many
                  fmt substr samples is_substr_sequence = Ok fmt.
Proof.
  intros Hno. apply refine_formats_without_filler.
  destruct (str_in substr fmt) eqn:Hin; [|reflexivity].
  apply str_in_spec in Hin. destruct Hin as (a & b & Hab).
  exfalso. exact (Hno a b Hab).
Qed.

Lemma refine_without_filler_is_identity_witness :
  (forall a b, "AB-12@x.y" <> (a ++ "XXX" ++ b)%string)
  /\ refine_formats_with_utils "AB-12@x.y" "XXX" ["foo"; "bar"] true
     = Ok "AB-12@x.y".
Proof.
  assert (Hno : forall a b, "AB-12@x.y" <> (a ++ "XXX" ++ b)%string).
  { intros a b Hab.
    assert (Hin : str_in "XXX" "AB-12@x.y" = true)
      by (apply str_in_spec; now exists a, b).
    vm_compute in Hin. discriminate. }
  split; [exact Hno|].
  exact (refine_without_filler_is_identity
           StringUtils.split_and_keep StringUtils.split_and_keep_by_many
           "AB-12@x.y" "XXX" ["foo"; "bar"] true Hno).
Defined.

(** C7, as stated, fails: without samples the refinement stops on the raw
    [IndexError] of [split_examples[0]]; a later sample that is too short
    gives the raw [IndexError] of [split_sample[i]]; and a first sample
    shorter than the skeleton raises nothing. *)
Lemma refine_raises_raw_index_error :
  refine_formats_with_utils "XXX@XXX.XXX" "XXX" [] true = Raise IndexError
  /\ refine_formats_with_utils "00" "0" [] false = Raise IndexError
  /\ refine_formats_with_utils "00" "0" ["12"; "1"] false = Raise IndexError
  /\ refine_formats_with_utils "0-0" "0" ["1"] false = Ok "1".
Proof. repeat split; vm_compute; reflexivity. Qed.

(** C4.  With the string helpers as the specification describes them, the
    skeleton [XXX@XXX.XXX] is cut into [XXX], [@], [XXX], [.], [XXX], each
    sample into as many tokens, and the refinement in sequence mode returns
    [XXX@gmail.com]: the first filler stays (the samples differ there), the
    second and third become [gmail] and [com] (the samples agree).  In
    general, on token arrays of the arity of the skeleton, the loop keeps
    every token that is not the filler, replaces a filler by the value of the
    samples when they all agree at that position, and keeps it otherwise. *)
Theorem refine_scenario_gmail :
  StringUtils.split_and_keep "XXX@XXX.XXX" "XXX"
  = ["XXX"; "@"; "XXX"; "."; "XXX"]
  /\ map (fun s => StringUtils.split_and_keep_by_many s ["@"; "."])
         ["foo@gmail.com"; "bar@gmail.com"; "baz@gmail.com"]
     = [["foo"; "@"; "gmail"; "."; "com"];
        ["bar"; "@"; "gmail"; "."; "com"];
        ["baz"; "@"; "gmail"; "."; "com"]]
  /\ _refine_formats StringUtils.split_and_keep
                     StringUtils.split_and_keep_by_many
                     "XXX@XXX.XXX" "XXX"
                     ["foo@gmail.com"; "bar@gmail.com"; "baz@gmail.com"] true
     = Ok "XXX@gmail.com"
  /\ (forall substr splt_fmt example others,
         List.length example = List.length splt_fmt ->
         Forall (fun s => List.length s = List.length splt_fmt) others ->
         refine_loop substr splt_fmt example others
                     (seq 0 (List.length example)) []
         = Ok (map (refined_token substr splt_fmt example others)
                   (seq 0 (List.length example)))).
Proof.
  split; [vm_compute; reflexivity|].
  split; [vm_compute; reflexivity|].
  split; [vm_compute; reflexivity|].
  intros substr splt_fmt example others Hex Hothers.
  rewrite (refine_loop_aligned substr splt_fmt example others _ Hex Hothers).
  - reflexivity.
  - apply Forall_forall. intros i Hi. apply in_seq in Hi. lia.
Qed.

Lemma refine_scenario_gmail_witness :
  refine_loop "XXX" ["XXX"; "@"; "XXX"; "."; "XXX"]
    ["foo"; "@"; "gmail"; "."; "com"]
    [["bar"; "@"; "gmail"; "."; "com"]; ["baz"; "@"; "gmail"; "."; "com"]]
    (seq 0 5) []
  = Ok ["XXX"; "@"; "gmail"; "."; "com"].
Proof.
  refine (eq_trans
    (proj2 (proj2 (proj2 refine_scenario_gmail)) "XXX"
       ["XXX"; "@"; "XXX"; "."; "XXX"] ["foo"; "@"; "gmail"; "."; "com"]
       [["bar"; "@"; "gmail"; "."; "com"]; ["baz"; "@"; "gmail"; "."; "com"]]
       eq_refl _) _).
  - repeat constructor.
  - vm_compute. reflexivity.
Defined.

(** ** One pattern on one column *)

Lemma list_in_spec (x : string) (xs : list string) :
  list_in x xs = true <-> In x xs.
Proof.
  unfold list_in. rewrite existsb_exists. split.
  - intros (y & Hy & Heq). apply String.eqb_eq in Heq. now subst.
  - intros Hin. exists x. split; [assumption|apply String.eqb_refl].
Qed.

Lemma select_In (column patterned_column : list string)
    (mask : string -> bool) (v : string) :
  In v (select column patterned_column mask) -> In v column.
Proof.
  unfold select. rewrite in_map_iff. intros ([a b] & Heq & Hin).
  simpl in Heq. subst a. apply filter_In in Hin.
  destruct Hin as [Hin _]. now apply in_combine_l in Hin.
Qed.

Lemma mapM_raises {A B} (f : A -> result B) (xs : list A) (e : exn) :
  mapM f xs = Raise e -> exists x, In x xs /\ f x = Raise e.
Proof.
  induction xs as [|x r IH]; simpl; [discriminate|].
  destruct (f x) as [y|e1] eqn:Hfx; simpl.
  - destruct (mapM f r) as [ys|e2]; simpl; [discriminate|].
    intros H. destruct (IH H) as (x' & Hin & Hx'). eauto.
  - intros H. inversion H; subst. eauto.
Qed.


Section ColumnFacts.

Variable split_and_keep : string -> string -> list string.
Variable split_and_keep_by_many : string -> list string -> list string.

Let detect_pattern :=
  _detect_per_column_and_pattern split_and_keep split_and_keep_by_many.
Let detect_loop' := detect_loop split_and_keep split_and_keep_by_many.

(** A finding reports distinct values of the column, none of them among the
    excluded samples. *)
Lemma detect_pattern_found column pattern thr exclude_samples f :
  detect_pattern column pattern thr exclude_samples = Ok (Some f) ->
  NoDup (values_in_rare_formats f) /\
  forall v, In v (values_in_rare_formats f) ->
            In v column /\ ~ In v exclude_samples.
Proof.
  unfold detect_pattern, _detect_per_column_and_pattern.
  destruct (get_rare_vs_common_values _ _) as [[r rf] cf].
  destruct (Qeq_bool r 0); [discriminate|].
  destruct rf as [rf|]; [|discriminate].
  destruct cf as [cf|]; [|discriminate].
  destruct (negb _); [discriminate|].
  match goal with
  | |- context [filter ?g ?l] => set (rare_values := filter g l)
  end.
  assert (Hrare : forall v, In v rare_values ->
                            In v column /\ ~ In v exclude_samples).
  { intros v Hv. apply filter_In in Hv. destruct Hv as [Hsel Hex].
    split; [now apply select_In in Hsel|].
    apply negb_true_iff in Hex. intros Hin.
    apply list_in_spec in Hin. congruence. }
  destruct rare_values as [|v0 more] eqn:Hrv; [discriminate|].
  destruct (mapM _ cf) as [examples|]; simpl; [|discriminate].
  destruct (if Pattern.refine pattern then _ else _) as [cf'|]; simpl;
    [|discriminate].
  intros H. inversion H; subst; cbn [values_in_rare_formats]. split.
  - apply (unique_NoDup (v0 :: more)).
  - intros v Hv. apply Hrare. now apply (unique_In (v0 :: more)).
Qed.

(** The only failure of the analysis of one pattern is [IndexError]. *)
Lemma detect_pattern_raises column pattern thr exclude_samples e :
  detect_pattern column pattern thr exclude_samples = Raise e ->
  e = IndexError.
Proof.
  unfold detect_pattern, _detect_per_column_and_pattern.
  destruct (partition_shape (map (Pattern.sub pattern) column) thr)
    as [->|(r & rf & cf & ->)]; [simpl; discriminate|].
  destruct (Qeq_bool r 0); [discriminate|].
  destruct (negb _); [discriminate|].
  destruct (filter _ _) as [|v0 more]; [discriminate|].
  destruct (mapM _ cf) as [examples|e1] eqn:H1; simpl.
  - destruct (Pattern.refine pattern).
    + match goal with
      | |- context [bind (mapM ?f cf)] =>
          destruct (mapM f cf) as [cf'|e2] eqn:H2; simpl; [discriminate|]
      end.
      intros H. inversion H; subst.
      apply mapM_raises in H2. destruct H2 as (fmt & _ & H2).
      destruct (getitem (Pattern.substituters pattern) 0) as [filler|e3]
        eqn:H3; simpl in H2.
      * now apply refine_formats_raises in H2.
      * inversion H2; subst. now apply getitem_raises in H3.
    + simpl. discriminate.
  - intros H. inversion H; subst.
    apply mapM_raises in H1. destruct H1 as (fmt & _ & H1).
    now apply getitem_raises in H1.
Qed.

(** A pattern without rules has no significant format, hence no finding. *)
Lemma detect_pattern_no_rules column pattern thr exclude_samples :
  Pattern.substituters pattern = [] ->
  detect_pattern column pattern thr exclude_samples = Ok None.
Proof.
  intros Hnil. unfold detect_pattern, _detect_per_column_and_pattern.
  destruct (partition_shape (map (Pattern.sub pattern) column) thr)
    as [->|(r & rf & cf & ->)]; [reflexivity|].
  destruct (Qeq_bool r 0); [reflexivity|].
  assert (Hsig : existsb (Pattern.is_format_significant pattern) cf = false).
  { unfold Pattern.is_format_significant. rewrite Hnil. simpl.
    induction cf; simpl; auto. }
  now rewrite Hsig.
Qed.

End ColumnFacts.

(** ** The loop over the patterns *)

Lemma NoDup_app_inv {A} (a b : list A) :
  NoDup (a ++ b) ->
  NoDup a /\ NoDup b /\ forall x, In x a -> ~ In x b.
Proof.
  induction a as [|y a IH]; simpl; intros H.
  - repeat split; [constructor|assumption|tauto].
  - inversion H as [|? ? Hnotin Hnd]; subst.
    destruct (IH Hnd) as (Ha & Hb & Hdis).
    repeat split.
    + constructor; [|assumption]. intros Hin. apply Hnotin.
      apply in_or_app. now left.
    + assumption.
    + intros x [->|Hx]; [|now apply Hdis].
      intros Hin. apply Hnotin. apply in_or_app. now right.
Qed.

Lemma claimed_dropna (d : list (string * option finding)) :
  all_rare_values (dropna d) = claimed d.
Proof.
  unfold all_rare_values, claimed.
  induction d as [|[k [f|]] r IH]; simpl; congruence.
Qed.

(** Storing a result whose rare values are new keeps the claimed values
    distinct. *)
Lemma claimed_dict_set (d : list (string * option finding)) (k : string)
    (res : option finding) :
  NoDup (claimed d) ->
  NoDup (rare_of res) ->
  (forall v, In v (rare_of res) -> ~ In v (claimed d)) ->
  NoDup (claimed (dict_set d k res)) /\
  (forall v, In v (claimed (dict_set d k res)) ->
             In v (claimed d) \/ In v (rare_of res)).
Proof.
  unfold claimed.
  induction d as [|[k' v'] r IH]; intros Hd Hres Hnew.
  - simpl. rewrite app_nil_r. split; [assumption|tauto].
  - cbn [dict_set]. destruct (k' =? k).
    + cbn [flat_map snd] in *.
      destruct (NoDup_app_inv _ _ Hd) as (_ & Hr & _).
      split.
      * apply NoDup_app; [assumption|assumption|].
        intros v Hv Hin. apply (Hnew v Hv). apply in_or_app. now right.
      * intros v Hv. apply in_app_or in Hv. destruct Hv as [Hv|Hv].
        -- now right.
        -- left. apply in_or_app. now right.
    + cbn [flat_map snd] in *.
      destruct (NoDup_app_inv _ _ Hd) as (Hv' & Hr & Hdis).
      destruct (IH Hr Hres) as (IHnd & IHin).
      { intros v Hv Hin. apply (Hnew v Hv). apply in_or_app. now right. }
      split.
      * apply NoDup_app; [assumption|assumption|].
        intros v Hv Hin. destruct (IHin v Hin) as [Hold|Hnw].
        -- now apply (Hdis v Hv).
        -- apply (Hnew v Hnw). apply in_or_app. now left.
      * intros v Hv. apply in_app_or in Hv. destruct Hv as [Hv|Hv].
        -- left. apply in_or_app. now left.
        -- destruct (IHin v Hv) as [Hold|Hnw]; [left|now right].
           apply in_or_app. now right.
Qed.

Section LoopFacts.

Variable split_and_keep : string -> string -> list string.
Variable split_and_keep_by_many : string -> list string -> list string.

(** In first-match mode the loop keeps the claimed values distinct and
    inside the exclusion list. *)
Lemma detect_loop_first_distinct column thr patterns :
  forall d ign d',
    NoDup (claimed d) ->
    (forall v, In v (claimed d) -> In v ign) ->
    detect_loop split_and_keep split_and_keep_by_many column patterns thr
                "first" d ign = Ok d' ->
    NoDup (claimed d').
Proof.
  induction patterns as [|pattern rest IH]; intros d ign d' Hnd Hsub Hrun.
  - simpl in Hrun. inversion Hrun; subst. assumption.
  - cbn [detect_loop] in Hrun.
    destruct (_detect_per_column_and_pattern split_and_keep
                split_and_keep_by_many column pattern thr ign)
      as [res|e] eqn:Hres; simpl in Hrun; [|discriminate].
    assert (Hfresh : NoDup (rare_of res) /\
                     forall v, In v (rare_of res) -> ~ In v (claimed d)).
    { destruct res as [f|]; simpl.
      - destruct (detect_pattern_found _ _ _ _ _ _ _ Hres) as (Hf & Hex).
        split; [assumption|]. intros v Hv Hin.
        apply (proj2 (Hex v Hv)). now apply Hsub.
      - split; [constructor|tauto]. }
    destruct Hfresh as (Hf & Hnew).
    destruct (claimed_dict_set d (Pattern.name pattern) res Hnd Hf Hnew)
      as (Hnd' & Hin').
    eapply IH; [exact Hnd'| |exact Hrun].
    intros v Hv. destruct (Hin' v Hv) as [Hold|Hnw].
    + destruct res as [f|]; [apply in_or_app; left|]; now apply Hsub.
    + destruct res as [f|]; [apply in_or_app; now right|contradiction].
Qed.

Lemma detect_loop_raises column thr method patterns :
  forall d ign e,
    detect_loop split_and_keep split_and_keep_by_many column patterns thr
                method d ign = Raise e ->
    e = IndexError.
Proof.
  induction patterns as [|pattern rest IH]; intros d ign e; simpl;
    [discriminate|].
  destruct (_detect_per_column_and_pattern _ _ column pattern thr ign)
    as [res|e1] eqn:Hres; simpl.
  - apply IH.
  - intros H. inversion H; subst.
    now apply detect_pattern_raises in Hres.
Qed.

Lemma dict_get_raises {V} (d : list (string * V)) (k : string) (e : exn) :
  dict_get d k = Raise e -> e = KeyError k.
Proof.
  induction d as [|[k' v] r IH]; simpl.
  - intros H. now inversion H.
  - destruct (k' =? k); [discriminate|exact IH].
Qed.

Lemma per_column_raises dataset patterns thr method column_names :
  forall res e,
    per_column split_and_keep split_and_keep_by_many dataset column_names
               patterns thr method res = Raise e ->
    e = IndexError \/ exists k, e = KeyError k.
Proof.
  induction column_names as [|c rest IH]; intros res e; simpl;
    [discriminate|].
  destruct (dict_get (data dataset) c) as [column|e1] eqn:Hget; simpl.
  - unfold _detect_per_column.
    destruct (detect_loop _ _ column patterns thr method [] [])
      as [d|e2] eqn:Hloop; simpl.
    + apply IH.
    + intros H. inversion H; subst. left.
      now apply detect_loop_raises in Hloop.
  - intros H. inversion H; subst. right. exists c.
    now apply dict_get_raises in Hget.
Qed.

End LoopFacts.

(** C6.  In first-match mode, the rare values of all the findings of a column
    hold no value twice.  Each finding lists distinct values of the column
    that are not in the exclusion list it was given, and the loop hands to the
    next pattern the exclusion list extended with the rare values just
    found. *)
Theorem first_match_exclusivity
    (split_and_keep : string -> string -> list string)
    (split_and_keep_by_many : string -> list string -> list string)
    (column : list string) (rarity_threshold : Q) :
  (forall patterns df,
      _detect_per_column split_and_keep split_and_keep_by_many column
                         patterns rarity_threshold "first" = Ok df ->
      NoDup (all_rare_values df)) /\
  (forall pattern exclude_samples f,
      _detect_per_column_and_pattern split_and_keep split_and_keep_by_many
        column pattern rarity_threshold exclude_samples = Ok (Some f) ->
      NoDup (values_in_rare_formats f) /\
      forall v, In v (values_in_rare_formats f) ->
                In v column /\ ~ In v exclude_samples) /\
  (forall pattern rest d formats_to_ignore,
      detect_loop split_and_keep split_and_keep_by_many column
                  (pattern :: rest) rarity_threshold "first" d
                  formats_to_ignore
      = (res <- _detect_per_column_and_pattern split_and_keep
                  split_and_keep_by_many column pattern rarity_threshold
                  formats_to_ignore ;;
         detect_loop split_and_keep split_and_keep_by_many column rest
                     rarity_threshold "first"
                     (dict_set d (Pattern.name pattern) res)
                     (formats_to_ignore ++ rare_of res))).
Proof.
  split; [|split].
  - intros patterns df. unfold _detect_per_column.
    destruct (detect_loop _ _ column patterns rarity_threshold "first" [] [])
      as [d|e] eqn:Hloop; simpl; [|discriminate].
    intros H. inversion H; subst. rewrite claimed_dropna.
    eapply detect_loop_first_distinct; [| |exact Hloop].
    + constructor.
    + intros v [].
  - intros pattern exclude_samples f. apply detect_pattern_found.
  - intros pattern rest d ign. cbn [detect_loop].
    destruct (_detect_per_column_and_pattern _ _ column pattern
                rarity_threshold ign) as [[f|]|e]; simpl;
      rewrite ?app_nil_r; reflexivity.
Qed.

Lemma first_match_exclusivity_witness :
  detect_per_column_with_utils
    ["a1"; "a2"; "a3"; "a4"; "a55"; "bb6"; "cc77"]
    [digits_only_pattern; letters_only_pattern] (1 # 2) "first"
  = Ok [("digits only format (ignoring letters)",
         {| ratio_of_rare_patterns_to_common_patterns := 2 # 5;
            common_formats := ["0"];
            examples_for_values_in_common_formats := ["a1"];
            values_in_rare_formats := ["a55"; "cc77"] |});
        ("letters only format (ignoring digits)",
         {| ratio_of_rare_patterns_to_common_patterns := 2 # 5;
            common_formats := ["a"];
            examples_for_values_in_common_formats := ["a1"];
            values_in_rare_formats := ["bb6"] |})]
  /\ NoDup ["a55"; "cc77"; "bb6"].
Proof.
  assert (H : detect_per_column_with_utils
                ["a1"; "a2"; "a3"; "a4"; "a55"; "bb6"; "cc77"]
                [digits_only_pattern; letters_only_pattern] (1 # 2) "first"
              = Ok [("digits only format (ignoring letters)",
                     {| ratio_of_rare_patterns_to_common_patterns := 2 # 5;
                        common_formats := ["0"];
                        examples_for_values_in_common_formats := ["a1"];
                        values_in_rare_formats := ["a55"; "cc77"] |});
                    ("letters only format (ignoring digits)",
                     {| ratio_of_rare_patterns_to_common_patterns := 2 # 5;
                        common_formats := ["a"];
                        examples_for_values_in_common_formats := ["a1"];
                        values_in_rare_formats := ["bb6"] |})])
    by (vm_compute; reflexivity).
  split; [exact H|].
  exact (proj1 (first_match_exclusivity
                  StringUtils.split_and_keep
                  StringUtils.split_and_keep_by_many
                  ["a1"; "a2"; "a3"; "a4"; "a55"; "bb6"; "cc77"] (1 # 2))
               [digits_only_pattern; letters_only_pattern] _ H).
Defined.

(** In the other mode the same value can be reported by two patterns. *)
Example all_mode_reports_twice :
  detect_per_column_with_utils
    ["a1"; "a2"; "a3"; "a4"; "a55"; "bb6"; "cc77"]
    [digits_only_pattern; letters_only_pattern] (1 # 2) "all"
  = Ok [("digits only format (ignoring letters)",
         {| ratio_of_rare_patterns_to_common_patterns := 2 # 5;
            common_formats := ["0"];
            examples_for_values_in_common_formats := ["a1"];
            values_in_rare_formats := ["a55"; "cc77"] |});
        ("letters only format (ignoring digits)",
         {| ratio_of_rare_patterns_to_common_patterns := 2 # 5;
            common_formats := ["a"];
            examples_for_values_in_common_formats := ["a1"];
            values_in_rare_formats := ["bb6"; "cc77"] |})].
Proof. vm_compute. reflexivity. Qed.

(** ** The entry point *)

(** C8, as stated, fails for a pattern without rules: the call goes through
    and the pattern just has no finding. *)
Lemma empty_rule_list_is_accepted :
  Pattern.substituters empty_pattern = []
  /\ rare_format_detection StringUtils.split_and_keep
       StringUtils.split_and_keep_by_many
       {| data := [("c", ["a1"; "a2"; "a3"; "b"])]; features := ["c"] |}
       NoNames [empty_pattern] (1 # 2) "first"
     = Ok [("c", [])].
Proof. split; vm_compute; reflexivity. Qed.

(** C8 (amended).  A match mode other than "first" and "all" raises
    [MLChecksValueError] before any column is looked at, whatever the
    dataset, the column names and the patterns.  A pattern without rules is
    accepted by the constructor, has no finding on any column, and with a
    valid match mode the call never raises [MLChecksValueError]. *)
Theorem invalid_method_fails_fast
    (split_and_keep : string -> string -> list string)
    (split_and_keep_by_many : string -> list string -> list string) :
  (forall dataset column_names patterns rarity_threshold m,
      m <> "first" -> m <> "all" ->
      rare_format_detection split_and_keep split_and_keep_by_many
        dataset column_names patterns rarity_threshold m
      = Raise (MLChecksValueError (bad_method_message m))) /\
  (forall name ignore refine is_sequence,
      Pattern.substituters
        (Pattern.init name (Pattern.ListOf []) ignore refine is_sequence)
      = []) /\
  (forall column pattern rarity_threshold exclude_samples,
      Pattern.substituters pattern = [] ->
      _detect_per_column_and_pattern split_and_keep split_and_keep_by_many
        column pattern rarity_threshold exclude_samples = Ok None) /\
  (forall dataset column_names patterns rarity_threshold m msg,
      m = "first" \/ m = "all" ->
      rare_format_detection split_and_keep split_and_keep_by_many
        dataset column_names patterns rarity_threshold m
      <> Raise (MLChecksValueError msg)).
Proof.
  split; [|split; [|split]].
  - intros dataset column_names patterns thr m H1 H2.
    unfold rare_format_detection, list_in. simpl.
    apply String.eqb_neq in H1, H2. now rewrite H1, H2.
  - reflexivity.
  - intros column pattern thr excl. apply detect_pattern_no_rules.
  - intros dataset column_names patterns thr m msg Hm.
    unfold rare_format_detection.
    assert (Hin : list_in m ["first"; "all"] = true).
    { apply list_in_spec. simpl. destruct Hm; subst; tauto. }
    rewrite Hin. simpl. intros Hraise.
    apply per_column_raises in Hraise.
    destruct Hraise as [H|[k H]]; discriminate.
Qed.

Lemma invalid_method_fails_fast_witness :
  "last" <> "first" /\ "last" <> "all"
  /\ rare_format_detection StringUtils.split_and_keep
       StringUtils.split_and_keep_by_many
       {| data := [("c", ["a1"; "a2"; "a3"; "b"])]; features := ["missing"] |}
       NoNames [empty_pattern] (1 # 2) "last"
     = Raise (MLChecksValueError (bad_method_message "last")).
Proof.
  assert (H1 : "last" <> "first") by discriminate.
  assert (H2 : "last" <> "all") by discriminate.
  split; [exact H1|]. split; [exact H2|].
  exact (proj1 (invalid_method_fails_fast
                  StringUtils.split_and_keep
                  StringUtils.split_and_keep_by_many)
               _ _ _ _ _ H1 H2).
Defined.

(** With a valid mode the same call reaches the columns and fails there. *)
Example valid_method_reaches_columns :
  rare_format_detection StringUtils.split_and_keep
    StringUtils.split_and_keep_by_many
    {| data := [("c", ["a1"; "a2"; "a3"; "b"])]; features := ["missing"] |}
    NoNames [empty_pattern] (1 # 2) "first"
  = Raise (KeyError "missing").
Proof. vm_compute. reflexivity. Qed.

(** ** Scenario B *)

Lemma scenario_B_ranking :
  ranking (map (Pattern.sub dash_pattern) scenario_B_column)
  = [("XX000", 3%Z); ("XX0", 1%Z)].
Proof. vm_compute. reflexivity. Qed.

Lemma scenario_B_partition (thr : Q) :
  get_rare_vs_common_values
    (map (Pattern.sub dash_pattern) scenario_B_column) thr
  = if sharp_drop thr 3 1
    then ((1 # 3)%Q, Some ["XX0"], Some ["XX000"])
    else no_partition.
Proof.
  unfold get_rare_vs_common_values.
  fold (ranking (map (Pattern.sub dash_pattern) scenario_B_column)).
  rewrite scenario_B_ranking. cbn [List.length Nat.leb].
  cbn [Series.values map snd removelast tl combine find_break].
  destruct (sharp_drop thr 3 1); reflexivity.
Qed.

Lemma scenario_B_partition64 (thr : spec_float) :
  F64.get_rare_vs_common_values Series.value_counts
    (map (Pattern.sub dash_pattern) scenario_B_column) thr
  = if SFltb (binary_normalize 53 1024 1 0 false)
             (SFmul 53 1024 thr (binary_normalize 53 1024 3 0 false))
    then (SFdiv 53 1024 (binary_normalize 53 1024 1 0 false)
                        (binary_normalize 53 1024 3 0 false),
          Some ["XX0"], Some ["XX000"])
    else (S754_zero false, None, None).
Proof.
  unfold F64.get_rare_vs_common_values.
  change (Series.drop "" (Series.value_counts
                            (map (Pattern.sub dash_pattern)
                                 scenario_B_column)))
    with (ranking (map (Pattern.sub dash_pattern) scenario_B_column)).
  rewrite scenario_B_ranking. cbn [List.length Nat.leb].
  cbn [Series.values map snd removelast tl combine F64.find_break].
  change (F64.sharp_drop thr 3 1)
    with (SFltb (binary_normalize 53 1024 1 0 false)
                (SFmul 53 1024 thr (binary_normalize 53 1024 3 0 false))).
  destruct (SFltb _ _); reflexivity.
Qed.

(** C5, as stated, fails: with threshold 0.05 the product [0.05 * 3] is
    0.15000000000000002 and the test [1 < 0.05 * 3] is false; no sharp drop
    is found and the pattern has no finding. *)
Lemma scenario_B_no_drop_at_default_threshold :
  map (Pattern.sub dash_pattern) scenario_B_column
  = ["XX000"; "XX000"; "XX000"; "XX0"]
  /\ SFdiv 53 1024 (binary_normalize 53 1024 5 0 false)
                   (binary_normalize 53 1024 100 0 false) = f64_0_05
  /\ SFmul 53 1024 f64_0_05 (binary_normalize 53 1024 3 0 false)
     = S754_finite false 5404319552844596 (-55)
  /\ SFltb (binary_normalize 53 1024 1 0 false)
           (SFmul 53 1024 f64_0_05 (binary_normalize 53 1024 3 0 false))
     = false
  /\ F64.get_rare_vs_common_values Series.value_counts
       (map (Pattern.sub dash_pattern) scenario_B_column) f64_0_05
     = (S754_zero false, None, None)
  /\ sharp_drop (5 # 100) 3 1 = false
  /\ get_rare_vs_common_values
       (map (Pattern.sub dash_pattern) scenario_B_column) (5 # 100)
     = no_partition
  /\ _detect_per_column_and_pattern StringUtils.split_and_keep
       StringUtils.split_and_keep_by_many scenario_B_column dash_pattern
       (5 # 100) []
     = Ok None.
Proof. repeat split; vm_compute; reflexivity. Qed.

(** C5 (amended).  The skeletons of the column are [XX000] (three times) and
    [XX0] (once).  With threshold 0.05 the binary64 test [1 < 0.05 * 3] is
    false: the partition returns [0, None, None] and there is no finding.
    With every threshold for which the binary64 test [1 < threshold * 3] is
    true (0.5 is one; 0.33333333333333337 is not, its product with 3 rounds
    to 1.0) the sharp drop is found: common is [XX000], rare is [XX0], the
    ratio is the binary64 quotient 1/3.  At threshold 0.5 the finding has the
    common format [XX000], the example [AB-001] and the rare values
    [XY-1]. *)
Theorem scenario_B
    (split_and_keep : string -> string -> list string)
    (split_and_keep_by_many : string -> list string -> list string) :
  map (Pattern.sub dash_pattern) scenario_B_column
  = ["XX000"; "XX000"; "XX000"; "XX0"] /\
  filter (fun p => negb (fst p =? ""))
         (Series.value_counts
            (map (Pattern.sub dash_pattern) scenario_B_column))
  = [("XX000", 3%Z); ("XX0", 1%Z)] /\
  F64.get_rare_vs_common_values Series.value_counts
    (map (Pattern.sub dash_pattern) scenario_B_column) f64_0_05
  = (S754_zero false, None, None) /\
  _detect_per_column_and_pattern split_and_keep split_and_keep_by_many
    scenario_B_column dash_pattern (5 # 100) [] = Ok None /\
  (forall thr,
     SFltb (binary_normalize 53 1024 1 0 false)
           (SFmul 53 1024 thr (binary_normalize 53 1024 3 0 false)) = true ->
     F64.get_rare_vs_common_values Series.value_counts
       (map (Pattern.sub dash_pattern) scenario_B_column) thr
     = (SFdiv 53 1024 (binary_normalize 53 1024 1 0 false)
                      (binary_normalize 53 1024 3 0 false),
        Some ["XX0"], Some ["XX000"])) /\
  SFltb (binary_normalize 53 1024 1 0 false)
        (SFmul 53 1024 f64_0_5 (binary_normalize 53 1024 3 0 false)) = true /\
  F64.get_rare_vs_common_values Series.value_counts
    (map (Pattern.sub dash_pattern) scenario_B_column) f64_above_third
  = (S754_zero false, None, None) /\
  (exists f,
     _detect_per_column_and_pattern split_and_keep split_and_keep_by_many
       scenario_B_column dash_pattern (1 # 2) [] = Ok (Some f) /\
     common_formats f = ["XX000"] /\
     examples_for_values_in_common_formats f = ["AB-001"] /\
     values_in_rare_formats f = ["XY-1"]).
Proof.
  split; [vm_compute; reflexivity|].
  split; [vm_compute; reflexivity|].
  split; [vm_compute; reflexivity|].
  split; [vm_compute; reflexivity|].
  split.
  { intros thr Hthr. rewrite scenario_B_partition64. now rewrite Hthr. }
  split; [vm_compute; reflexivity|].
  split; [vm_compute; reflexivity|].
  eexists. split; [vm_compute; reflexivity|].
  repeat split.
Qed.

Lemma scenario_B_witness :
  SFltb (binary_normalize 53 1024 1 0 false)
        (SFmul 53 1024 f64_0_5 (binary_normalize 53 1024 3 0 false)) = true
  /\ F64.get_rare_vs_common_values Series.value_counts
       (map (Pattern.sub dash_pattern) scenario_B_column) f64_0_5
     = (S754_finite false 6004799503160661 (-54),
        Some ["XX0"], Some ["XX000"]).
Proof.
  assert (H : SFltb (binary_normalize 53 1024 1 0 false)
                    (SFmul 53 1024 f64_0_5
                           (binary_normalize 53 1024 3 0 false)) = true)
    by (vm_compute; reflexivity).
  split; [exact H|].
  exact (proj1 (proj2 (proj2 (proj2 (proj2
           (scenario_B StringUtils.split_and_keep
                       StringUtils.split_and_keep_by_many))))) _ H).
Defined.

(* ================================================================== *)
(** * Further properties *)

(** ** Rows and counts *)

Lemma rows_app (a b col : list string) :
  rows (a ++ b) col = (rows a col + rows b col)%Z.
Proof.
  unfold rows. induction a as [|x a IH]; simpl; [reflexivity|].
  rewrite IH. lia.
Qed.

Lemma count_nonneg (x : string) (col : list string) :
  (0 <= Series.count x col)%Z.
Proof. unfold Series.count. lia. Qed.

Lemma count_cons (x y : string) (col : list string) :
  Series.count y (x :: col)
  = ((if (x =? y)%string then 1 else 0) + Series.count y col)%Z.
Proof.
  unfold Series.count. destruct (String.eqb_spec x y) as [->|Hne].
  - rewrite count_occ_cons_eq by reflexivity. lia.
  - rewrite count_occ_cons_neq by assumption. lia.
Qed.

Lemma count_absent (x : string) (col : list string) :
  ~ In x col -> Series.count x col = 0%Z.
Proof.
  intros Hnot. unfold Series.count.
  apply (count_occ_not_In string_dec) in Hnot. rewrite Hnot. reflexivity.
Qed.

(** Taking one item out of a duplicate-free list of items. *)
Lemma rows_remove (x : string) (items col : list string) :
  NoDup items ->
  rows items col
  = ((if list_in x items then Series.count x col else 0)
     + rows (filter (fun y => negb (y =? x)%string) items) col)%Z.
Proof.
  unfold rows. induction 1 as [|y items Hnotin Hnd IH]; [reflexivity|].
  cbn [list_in existsb map fold_right filter].
  fold (list_in x items). rewrite IH.
  destruct (String.eqb_spec x y) as [->|Hne].
  - rewrite String.eqb_refl. cbn [negb orb].
    destruct (list_in y items) eqn:Hin.
    + apply list_in_spec in Hin. contradiction.
    + lia.
  - assert (Hyx : (y =? x) = false) by (apply String.eqb_neq; congruence).
    rewrite Hyx. cbn [negb orb map fold_right]. lia.
Qed.

Lemma rows_cons_other (x : string) (items col : list string) :
  ~ In x items -> rows items (x :: col) = rows items col.
Proof.
  unfold rows. induction items as [|y items IH]; intros Hnot;
    [reflexivity|].
  cbn [map fold_right]. rewrite count_cons, IH.
  - assert (Hxy : (x =? y) = false).
    { apply String.eqb_neq. intros ->. apply Hnot. now left. }
    rewrite Hxy. lia.
  - intros Hin. apply Hnot. now right.
Qed.

(** The counts of the distinct values add up to the number of rows. *)
Lemma rows_unique (col : list string) :
  rows (Series.unique col) col = Z.of_nat (List.length col).
Proof.
  induction col as [|x r IH]; [reflexivity|].
  cbn [Series.unique]. unfold rows at 1. cbn [map fold_right].
  fold (rows (filter (fun y => negb (y =? x)) (Series.unique r)) (x :: r)).
  rewrite rows_cons_other.
  2:{ rewrite filter_In, String.eqb_refl. simpl. intuition discriminate. }
  rewrite count_cons, String.eqb_refl.
  pose proof (rows_remove x (Series.unique r) r (unique_NoDup r)) as Hsplit.
  destruct (list_in x (Series.unique r)) eqn:Hin.
  - rewrite IH in Hsplit. cbn [List.length]. lia.
  - assert (Hnot : ~ In x r).
    { intros Hx. apply unique_In in Hx. apply list_in_spec in Hx.
      congruence. }
    rewrite (count_absent _ _ Hnot). rewrite IH in Hsplit.
    cbn [List.length]. lia.
Qed.

Lemma sum_perm (a b : Series.t) :
  Permutation a b -> Series.sum a = Series.sum b.
Proof.
  unfold Series.sum, Series.values.
  induction 1; simpl; try lia.
Qed.

Lemma sum_of_counts (items col : list string) :
  Series.sum (map (fun x => (x, Series.count x col)) items) = rows items col.
Proof.
  unfold Series.sum, Series.values, rows. now rewrite map_map.
Qed.

Lemma drop_map_counts (label : string) (items col : list string) :
  Series.drop label (map (fun x => (x, Series.count x col)) items)
  = map (fun x => (x, Series.count x col))
        (filter (fun y => negb (y =? label)) items).
Proof.
  unfold Series.drop.
  induction items as [|x items IH]; [reflexivity|].
  cbn [map filter fst]. destruct (negb (x =? label)); cbn [map]; congruence.
Qed.

Lemma filter_perm {A} (f : A -> bool) (a b : list A) :
  Permutation a b -> Permutation (filter f a) (filter f b).
Proof.
  induction 1 as [|x a b Hab IH|x y a|a b c Hab IHab Hbc IHbc]; simpl.
  - constructor.
  - destruct (f x); [now constructor|assumption].
  - destruct (f x), (f y); try reflexivity. apply perm_swap.
  - now transitivity (filter f b).
Qed.

Lemma sum_of_series (s : Series.t) (col : list string) :
  (forall x n, In (x, n) s -> n = Series.count x col) ->
  Series.sum s = rows (Series.index s) col.
Proof.
  unfold Series.sum, Series.values, Series.index, rows.
  induction s as [|[x n] s IH]; intros Hs; [reflexivity|].
  cbn [map fold_right fst snd]. rewrite IH.
  - rewrite (Hs x n) by now left. reflexivity.
  - intros y m Hin. apply Hs. now right.
Qed.

Lemma ranking_sum (col : list string) :
  (Series.sum (ranking col) + Series.count "" col)%Z
  = Z.of_nat (List.length col).
Proof.
  unfold ranking, Series.value_counts, Series.drop.
  rewrite (sum_perm _ _ (filter_perm _ _ _ (sort_desc_perm _))).
  fold (Series.drop "" (map (fun x => (x, Series.count x col))
                            (Series.unique col))).
  rewrite drop_map_counts, sum_of_counts.
  pose proof (rows_remove "" (Series.unique col) col (unique_NoDup col))
    as Hsplit.
  rewrite rows_unique in Hsplit.
  destruct (list_in "" (Series.unique col)) eqn:Hin; [lia|].
  rewrite count_absent; [lia|].
  intros Hx. apply unique_In in Hx. apply list_in_spec in Hx. congruence.
Qed.



(** ** The partition at its edges *)

Lemma boundary_Z (thr : Q) (prev curr : string * Z) :
  is_boundary thr prev curr <->
  (snd curr * QDen thr < Qnum thr * snd prev)%Z.
Proof.
  unfold is_boundary, Qlt. simpl.
  rewrite Pos.mul_1_r, Z.mul_1_r. reflexivity.
Qed.

Lemma descending_head (p : string * Z) (s : Series.t) :
  descending (p :: s) -> forall q, In q s -> (snd q <= snd p)%Z.
Proof.
  intros Hd q Hq. apply StronglySorted_inv in Hd. destruct Hd as [_ Hall].
  rewrite Forall_forall in Hall. now apply Hall.
Qed.

Lemma descending_app (a b : Series.t) :
  descending (a ++ b) ->
  descending a /\ descending b /\
  forall p q, In p a -> In q b -> (snd q <= snd p)%Z.
Proof.
  induction a as [|x a IH]; simpl; intros Hd.
  - repeat split; [constructor|assumption|intros p q []].
  - pose proof (descending_head _ _ Hd) as Hhead.
    apply StronglySorted_inv in Hd. destruct Hd as [Hd Hall].
    destruct (IH Hd) as (Ha & Hb & Hab). repeat split.
    + constructor; [assumption|].
      rewrite Forall_forall in *. intros q Hq. apply Hall.
      apply in_or_app. now left.
    + assumption.
    + intros p q [<-|Hp] Hq; [|now apply Hab].
      apply Hhead. apply in_or_app. now right.
Qed.

(** A found partition, with its boundary. *)
Lemma partition_found_boundary (col : list string) (thr : Q) r rare common :
  get_rare_vs_common_values col thr = (r, Some rare, Some common) ->
  exists pre prev curr post,
    ranking col = pre ++ prev :: curr :: post /\
    no_boundary_in thr (pre ++ [prev]) /\
    is_boundary thr prev curr /\
    common = Series.index (pre ++ [prev]) /\
    rare = Series.index (curr :: post).
Proof.
  intros Heq. pose proof (partition_meets_spec col thr) as Hspec.
  rewrite Heq in Hspec.
  inversion Hspec as [| |pre prev curr post Hs Hno Hb Hres]; subst.
  exists pre, prev, curr, post. repeat split; assumption.
Qed.

Lemma ranking_entry (col : list string) (s1 s2 : Series.t) (p : string * Z) :
  ranking col = s1 ++ p :: s2 ->
  In (fst p) col /\ fst p <> "" /\ snd p = Series.count (fst p) col /\
  (0 < snd p)%Z.
Proof.
  intros Hs.
  assert (Hin : In (fst p, snd p) (ranking col)).
  { rewrite Hs. apply in_or_app. right. left. now destruct p. }
  pose proof (proj1 (ranking_In _ _ _) Hin) as (H1 & H2 & H3).
  repeat split; try assumption.
  rewrite H3. now apply count_pos.
Qed.

(** X2.  With a threshold that is zero or negative no boundary is ever
    found. *)
Theorem nonpositive_threshold_never_partitions (col : list string) (thr : Q) :
  (thr <= 0)%Q -> get_rare_vs_common_values col thr = no_partition.
Proof.
  intros Hthr.
  destruct (partition_shape col thr) as [H|(r & rare & common & H)];
    [exact H|exfalso].
  destruct (partition_found_boundary _ _ _ _ _ H)
    as (pre & prev & curr & post & Hs & _ & Hb & _).
  apply boundary_Z in Hb.
  destruct (ranking_entry col pre (curr :: post) prev Hs) as (_ & _ & _ & Hp).
  assert (Hs' : ranking col = (pre ++ [prev]) ++ curr :: post)
    by (rewrite <- app_assoc; exact Hs).
  destruct (ranking_entry col _ post curr Hs') as (_ & _ & _ & Hc).
  unfold Qle in Hthr. simpl in Hthr. rewrite Z.mul_1_r in Hthr.
  assert (Hd : (0 < QDen thr)%Z) by reflexivity.
  nia.
Qed.

Lemma nonpositive_threshold_never_partitions_witness :
  (0 <= 0)%Q
  /\ get_rare_vs_common_values ["a"; "a"; "a"; "a"; "b"] 0 = no_partition.
Proof.
  assert (H : (0 <= 0)%Q) by (unfold Qle; simpl; lia).
  split; [exact H|].
  exact (nonpositive_threshold_never_partitions _ _ H).
Defined.

Lemma ranking_two (col : list string) (x y : string) :
  In x col -> In y col -> x <> "" -> y <> "" -> x <> y ->
  exists p q rest, ranking col = p :: q :: rest.
Proof.
  intros Hx Hy Hxe Hye Hxy.
  assert (Hix : In x (Series.index (ranking col)))
    by (apply ranking_index_In; tauto).
  assert (Hiy : In y (Series.index (ranking col)))
    by (apply ranking_index_In; tauto).
  destruct (ranking col) as [|p [|q rest]]; simpl in *.
  - contradiction.
  - exfalso. destruct Hix as [Hix|[]], Hiy as [Hiy|[]]. congruence.
  - eauto.
Qed.

(** X3.  With a threshold above 1, a column with two distinct non-empty
    values is always partitioned at the first pair: the common list holds one
    item only, a most frequent non-empty value of the column, and the rare
    list holds every other non-empty value of the column, each once. *)
Theorem threshold_above_one_keeps_one_item (col : list string) (thr : Q)
    (x y : string) :
  (1 < thr)%Q ->
  In x col -> In y col -> x <> "" -> y <> "" -> x <> y ->
  exists r top rare,
    get_rare_vs_common_values col thr = (r, Some rare, Some [top]) /\
    In top col /\ top <> "" /\
    (forall z, In z col -> z <> "" ->
               (count_occ string_dec col z <= count_occ string_dec col top)%nat)
    /\ NoDup rare /\
    (forall z, In z rare <-> In z col /\ z <> "" /\ z <> top).
Proof.
  intros Hthr Hx Hy Hxe Hye Hxy.
  destruct (ranking_two col x y Hx Hy Hxe Hye Hxy) as (p & q & rest & Hs).
  pose proof (ranking_descending col) as Hd. rewrite Hs in Hd.
  destruct (ranking_entry col [] (q :: rest) p Hs) as (_ & _ & Hcp & Hp).
  assert (Hb : is_boundary thr p q).
  { apply boundary_Z.
    assert (Hq : (snd q <= snd p)%Z)
      by (apply (descending_head _ _ Hd); now left).
    unfold Qlt in Hthr. simpl in Hthr. rewrite Z.mul_1_r in Hthr.
    assert (Hden : (0 < QDen thr)%Z) by reflexivity.
    nia. }
  assert (Hspec : partition_spec thr (ranking col)
            ((inject_Z (Series.sum (q :: rest))
              / inject_Z (Series.sum ([] ++ [p])))%Q,
             Some (Series.index (q :: rest)),
             Some (Series.index ([] ++ [p])))).
  { apply spec_first_pair; [exact Hs|exact I|exact Hb]. }
  pose proof (partition_spec_functional _ _ _ _
                (partition_meets_spec col thr) Hspec) as Hres.
  pose proof (ranking_NoDup col) as Hnd. rewrite Hs in Hnd.
  cbn [Series.index map] in Hnd. apply NoDup_cons_iff in Hnd.
  destruct Hnd as [Hnotin Hnd].
  assert (Hall : forall z, fst p = z \/ In z (map fst (q :: rest))
                           <-> In z col /\ z <> "").
  { intros z. rewrite <- ranking_index_In, Hs. reflexivity. }
  assert (Htop : In (fst p) col /\ fst p <> "")
    by (apply Hall; now left).
  eexists _, (fst p), _. split; [exact Hres|].
  split; [apply Htop|]. split; [apply Htop|]. split; [|split].
  - intros z Hz Hze.
    assert (Hin : In (z, Series.count z col) (ranking col))
      by (apply ranking_In; tauto).
    rewrite Hs in Hin.
    assert (Hle : (Series.count z col <= Series.count (fst p) col)%Z).
    { rewrite <- Hcp.
      destruct Hin as [Hzp|Hin]; [rewrite Hzp; simpl; lia|].
      exact (descending_head _ _ Hd _ Hin). }
    unfold Series.count in Hle. lia.
  - exact Hnd.
  - intros z. unfold Series.index. split.
    + intros Hz. destruct (proj1 (Hall z) (or_intror Hz)) as [Hc He].
      repeat split; try assumption. intros ->. contradiction.
    + intros (Hc & He & Hne).
      destruct (proj2 (Hall z) (conj Hc He)) as [Heq|Hin];
        [congruence|exact Hin].
Qed.

Lemma threshold_above_one_keeps_one_item_witness :
  exists r top rare,
    get_rare_vs_common_values ["a"; "b"; "b"; "c"; "a"] (3 # 2)
    = (r, Some rare, Some [top]) /\
    In top ["a"; "b"; "b"; "c"; "a"] /\ top <> "" /\
    (forall z, In z ["a"; "b"; "b"; "c"; "a"] -> z <> "" ->
               (count_occ string_dec ["a"; "b"; "b"; "c"; "a"] z
                <= count_occ string_dec ["a"; "b"; "b"; "c"; "a"] top)%nat)
    /\ NoDup rare /\
    (forall z, In z rare <->
               In z ["a"; "b"; "b"; "c"; "a"] /\ z <> "" /\ z <> top).
Proof.
  apply (threshold_above_one_keeps_one_item
           ["a"; "b"; "b"; "c"; "a"] (3 # 2) "a" "b").
  - unfold Qlt. simpl. lia.
  - simpl. tauto.
  - simpl. tauto.
  - discriminate.
  - discriminate.
  - discriminate.
Defined.

(** X4.  When a partition is found, every rare item occurs less often than
    the threshold times the occurrences of any common item, and no more often
    than any common item. *)
Theorem rare_items_are_below_the_threshold (col : list string) (thr : Q)
    r rare common (x y : string) :
  get_rare_vs_common_values col thr = (r, Some rare, Some common) ->
  In x rare -> In y common ->
  (inject_Z (Series.count x col)
   < thr * inject_Z (Series.count y col))%Q /\
  (Series.count x col <= Series.count y col)%Z.
Proof.
  intros Heq Hx Hy.
  destruct (partition_found_boundary _ _ _ _ _ Heq)
    as (pre & prev & curr & post & Hs & _ & Hb & -> & ->).
  apply boundary_Z in Hb.
  assert (Hs' : ranking col = (pre ++ [prev]) ++ curr :: post)
    by (rewrite <- app_assoc; exact Hs).
  pose proof (ranking_descending col) as Hd. rewrite Hs' in Hd.
  destruct (descending_app _ _ Hd) as (Hdc & Hdr & Hcross).
  destruct (ranking_entry col _ post curr Hs') as (_ & _ & _ & Hc).
  unfold Series.index in Hx, Hy. apply in_map_iff in Hx, Hy.
  destruct Hx as ([x' n] & Hx' & Hxin), Hy as ([y' m] & Hy' & Hyin).
  simpl in Hx', Hy'. subst x' y'.
  assert (Hn : n = Series.count x col).
  { assert (Hr : In (x, n) (ranking col))
      by (rewrite Hs'; apply in_or_app; now right).
    apply ranking_In in Hr. tauto. }
  assert (Hm : m = Series.count y col).
  { assert (Hr : In (y, m) (ranking col))
      by (rewrite Hs'; apply in_or_app; now left).
    apply ranking_In in Hr. tauto. }
  assert (Hnc : (n <= snd curr)%Z).
  { destruct Hxin as [Hcx|Hxin]; [rewrite Hcx; simpl; lia|].
    exact (descending_head _ _ Hdr _ Hxin). }
  assert (Hpm : (snd prev <= m)%Z).
  { apply in_app_or in Hyin.
    destruct Hyin as [Hyin|[Hpy|[]]]; [|rewrite Hpy; simpl; lia].
    destruct (descending_app _ _ Hdc) as (_ & _ & Hpp).
    apply (Hpp (y, m) prev Hyin). now left. }
  assert (Hcp : (snd curr <= snd prev)%Z).
  { apply (Hcross prev curr); [apply in_or_app; right|]; now left. }
  destruct (ranking_entry col pre (curr :: post) prev Hs) as (_ & _ & _ & Hp).
  subst n m. split; [|lia].
  unfold Qlt. simpl. rewrite Pos.mul_1_r, Z.mul_1_r.
  assert (Hden : (0 < QDen thr)%Z) by reflexivity.
  assert (Hnum : (0 < Qnum thr)%Z) by nia.
  assert (H1 : (Series.count x col * QDen thr <= snd curr * QDen thr)%Z)
    by nia.
  assert (H2 : (Qnum thr * snd prev <= Qnum thr * Series.count y col)%Z)
    by nia.
  lia.
Qed.

Lemma rare_items_are_below_the_threshold_witness :
  (inject_Z (Series.count "c" ["a"; "b"; "a"; "a"; ""; "c"])
   < (1 # 2) * inject_Z (Series.count "a" ["a"; "b"; "a"; "a"; ""; "c"]))%Q
  /\ (Series.count "c" ["a"; "b"; "a"; "a"; ""; "c"]
      <= Series.count "a" ["a"; "b"; "a"; "a"; ""; "c"])%Z.
Proof.
  apply (rare_items_are_below_the_threshold
           ["a"; "b"; "a"; "a"; ""; "c"] (1 # 2)
           (2 # 3) ["b"; "c"] ["a"] "c" "a").
  - vm_compute. reflexivity.
  - simpl. tauto.
  - simpl. tauto.
Defined.

(** X5.  A column with at most one distinct non-empty value (an empty
    column, a constant column, a column of empty strings) has no
    partition, whatever the threshold. *)
Theorem single_value_has_no_partition (col : list string) (thr : Q) :
  (forall x y, In x col -> In y col -> x <> "" -> y <> "" -> x = y) ->
  get_rare_vs_common_values col thr = no_partition.
Proof.
  intros Hone.
  destruct (partition_shape col thr) as [H|(r & rare & common & H)];
    [exact H|exfalso].
  destruct (partition_found_boundary _ _ _ _ _ H)
    as (pre & prev & curr & post & Hs & _).
  destruct (ranking_entry col pre (curr :: post) prev Hs)
    as (Hp1 & Hp2 & _).
  assert (Hs' : ranking col = (pre ++ [prev]) ++ curr :: post)
    by (rewrite <- app_assoc; exact Hs).
  destruct (ranking_entry col _ post curr Hs') as (Hc1 & Hc2 & _).
  pose proof (ranking_NoDup col) as Hnd. rewrite Hs in Hnd.
  unfold Series.index in Hnd. rewrite map_app in Hnd. simpl in Hnd.
  apply NoDup_app_inv in Hnd. destruct Hnd as (_ & Hnd & _).
  inversion Hnd as [|? ? Hnotin _]; subst. apply Hnotin. left.
  symmetry. now apply Hone.
Qed.

Lemma single_value_has_no_partition_witness :
  (forall x y, In x ["a"; ""; "a"] -> In y ["a"; ""; "a"] ->
               x <> "" -> y <> "" -> x = y)
  /\ get_rare_vs_common_values ["a"; ""; "a"] (9 # 10) = no_partition.
Proof.
  assert (H : forall x y, In x ["a"; ""; "a"] -> In y ["a"; ""; "a"] ->
                          x <> "" -> y <> "" -> x = y).
  { simpl. intros x y Hx Hy Hxe Hye.
    destruct Hx as [<-|[<-|[<-|[]]]]; destruct Hy as [<-|[<-|[<-|[]]]];
      congruence. }
  split; [exact H|].
  exact (single_value_has_no_partition _ (9 # 10) H).
Defined.

(** X6.  When all the non-empty values of the column occur equally often
    and the threshold is at most 1, no boundary is found. *)
Theorem uniform_counts_have_no_partition (col : list string) (thr : Q) :
  (thr <= 1)%Q ->
  (forall x y, In x col -> In y col -> x <> "" -> y <> "" ->
               Series.count x col = Series.count y col) ->
  get_rare_vs_common_values col thr = no_partition.
Proof.
  intros Hthr Hsame.
  destruct (partition_shape col thr) as [H|(r & rare & common & H)];
    [exact H|exfalso].
  destruct (partition_found_boundary _ _ _ _ _ H)
    as (pre & prev & curr & post & Hs & _ & Hb & _).
  apply boundary_Z in Hb.
  destruct (ranking_entry col pre (curr :: post) prev Hs)
    as (Hp1 & Hp2 & Hp3 & Hp4).
  assert (Hs' : ranking col = (pre ++ [prev]) ++ curr :: post)
    by (rewrite <- app_assoc; exact Hs).
  destruct (ranking_entry col _ post curr Hs') as (Hc1 & Hc2 & Hc3 & Hc4).
  assert (Heq : snd curr = snd prev).
  { rewrite Hc3, Hp3. now apply Hsame. }
  unfold Qle in Hthr. simpl in Hthr. rewrite Z.mul_1_r in Hthr.
  nia.
Qed.

Lemma uniform_counts_have_no_partition_witness :
  (1 <= 1)%Q
  /\ get_rare_vs_common_values ["a"; "b"; "b"; "a"] 1 = no_partition.
Proof.
  assert (H : (1 <= 1)%Q) by (unfold Qle; simpl; lia).
  split; [exact H|].
  apply (uniform_counts_have_no_partition _ _ H).
  simpl. intros x y Hx Hy _ _.
  destruct Hx as [<-|[<-|[<-|[<-|[]]]]];
    destruct Hy as [<-|[<-|[<-|[<-|[]]]]]; reflexivity.
Defined.

(** ** Patterns *)

Lemma length_append (a b : string) :
  String.length (a ++ b) = (String.length a + String.length b)%nat.
Proof. induction a as [|c a IH]; simpl; congruence. Qed.

Lemma sub_chars_length (cls : ascii -> bool) (repl s : string) :
  String.length repl = 1%nat ->
  String.length (Re.sub_chars cls repl s) = String.length s.
Proof.
  intros Hr. induction s as [|c s IH]; simpl; [reflexivity|].
  destruct (cls c); simpl; [rewrite length_append, Hr, IH|rewrite IH];
    reflexivity.
Qed.

Lemma apply_rules_length (rules : list (Re.regex * string)) :
  forallb charwise_rule rules = true ->
  forall s, String.length (apply_rules rules s) = String.length s.
Proof.
  unfold apply_rules.
  induction rules as [|[r repl] rules IH]; intros Hall s; [reflexivity|].
  simpl in Hall. apply andb_true_iff in Hall. destruct Hall as [Hr Hall].
  cbn [fold_left fst snd]. rewrite (IH Hall).
  unfold charwise_rule in Hr. simpl in Hr.
  destruct r as [cls|cls]; [|discriminate].
  apply Nat.eqb_eq in Hr. simpl. now apply sub_chars_length.
Qed.

(** X8.  A pattern whose rules all replace one character by one character
    gives a format as long as the cleaned value. *)
Theorem charwise_format_length (pattern : Pattern.t) (s : string) :
  charwise pattern = true ->
  String.length (Pattern.sub pattern s)
  = String.length (Pattern.clean pattern s).
Proof.
  intros Hcw. unfold Pattern.sub.
  fold (apply_rules (Pattern.substituters pattern) (Pattern.clean pattern s)).
  now apply apply_rules_length.
Qed.

Lemma charwise_format_length_witness :
  String.length (Pattern.sub dash_pattern "AB-001")
  = String.length (Pattern.clean dash_pattern "AB-001").
Proof.
  apply (charwise_format_length dash_pattern "AB-001").
  vm_compute. reflexivity.
Defined.

Lemma sub_holds_filler (r : Re.regex) (repl s : string) (c : ascii) :
  In c (list_ascii_of_string s) -> regex_class r c = true ->
  str_in repl (Re.sub r repl s) = true.
Proof.
  intros Hin Hc. apply str_in_spec.
  destruct r as [cls|cls]; simpl in Hc |- *.
  - induction s as [|d s IH]; simpl in Hin |- *; [contradiction|].
    destruct (cls d) eqn:Hd.
    + exists "", (Re.sub_chars cls repl s). reflexivity.
    + destruct Hin as [->|Hin]; [congruence|].
      destruct (IH Hin) as (a & b & Hab).
      exists (String d a), b. simpl. now rewrite Hab.
  - induction s as [|d s IH]; simpl in Hin |- *; [contradiction|].
    destruct (cls d) eqn:Hd.
    + exists "", (Re.sub_runs cls repl s true). reflexivity.
    + destruct Hin as [->|Hin]; [congruence|].
      destruct (IH Hin) as (a & b & Hab).
      exists (String d a), b. simpl. now rewrite Hab.
Qed.

(** X9.  For a pattern whose fillers hold no backslash: when the last rule
    of the pattern matches some character of the value as the earlier rules
    left it, the format of the value is significant for the pattern. *)
Theorem matched_format_is_significant (pattern : Pattern.t)
    (rules : list (Re.regex * string)) (r : Re.regex) (repl s : string)
    (c : ascii) :
  plain_fillers pattern = true ->
  Pattern.substituters pattern = rules ++ [(r, repl)] ->
  In c (list_ascii_of_string
          (apply_rules rules (Pattern.clean pattern s))) ->
  regex_class r c = true ->
  Pattern.is_format_significant pattern (Pattern.sub pattern s) = true.
Proof.
  intros _ Hrules Hin Hc.
  unfold Pattern.is_format_significant, Pattern.sub. rewrite Hrules.
  rewrite existsb_app. apply orb_true_iff. right.
  cbn [existsb snd]. rewrite orb_false_r.
  rewrite fold_left_app. cbn [fold_left fst snd].
  now apply (sub_holds_filler r repl _ c).
Qed.

Lemma matched_format_is_significant_witness :
  Pattern.is_format_significant dash_pattern
    (Pattern.sub dash_pattern "AB-001") = true.
Proof.
  apply (matched_format_is_significant dash_pattern
           [(Re.Chars Re.digit, "0")] (Re.Chars Re.letters) "X" "AB-001" "A").
  - reflexivity.
  - reflexivity.
  - vm_compute. tauto.
  - reflexivity.
Defined.

(** ** Refinement in character mode *)

Lemma chars_length (s : string) : List.length (chars s) = String.length s.
Proof. induction s; simpl; congruence. Qed.

Lemma append_empty (s : string) : (s ++ "")%string = s.
Proof. induction s; simpl; congruence. Qed.

Lemma join_cons (x : string) (xs : list string) :
  join (x :: xs) = (x ++ join xs)%string.
Proof.
  unfold join. destruct xs; simpl; [now rewrite append_empty|reflexivity].
Qed.

Lemma join_chars (s : string) : join (chars s) = s.
Proof.
  induction s as [|c s IH]; [reflexivity|].
  cbn [chars]. rewrite join_cons, IH. reflexivity.
Qed.

Lemma chars_one (s : string) :
  Forall (fun t => String.length t = 1%nat) (chars s).
Proof. induction s; simpl; constructor; auto. Qed.

Lemma join_length (xs : list string) :
  Forall (fun t => String.length t = 1%nat) xs ->
  String.length (join xs) = List.length xs.
Proof.
  induction 1 as [|x xs Hx Hxs IH]; [reflexivity|].
  rewrite join_cons, length_append, Hx, IH. reflexivity.
Qed.

Lemma getitem_In {A} (xs : list A) (i : nat) (x : A) :
  getitem xs i = Ok x -> In x xs.
Proof.
  unfold getitem. destruct (nth_error xs i) eqn:Hn; intros H; inversion H.
  subst. eapply nth_error_In. exact Hn.
Qed.

(** The loop appends one token per index, each taken from the skeleton or
    from the first sample. *)
Lemma refine_loop_shape (P : string -> Prop) (substr : string)
    (splt_fmt example : list string) (others : list (list string)) :
  Forall P splt_fmt -> Forall P example ->
  forall idxs new_format out,
    Forall P new_format ->
    refine_loop substr splt_fmt example others idxs new_format = Ok out ->
    Forall P out /\
    List.length out = (List.length new_format + List.length idxs)%nat.
Proof.
  intros Hf He. rewrite Forall_forall in Hf, He.
  induction idxs as [|i rest IH]; intros acc out Hacc; simpl.
  - intros H. inversion H; subst. split; [assumption|lia].
  - destruct (getitem splt_fmt i) as [tok|] eqn:H1; simpl; [|discriminate].
    assert (Htok : P tok) by (apply Hf; eapply getitem_In; exact H1).
    assert (Hstep : forall t, P t ->
              refine_loop substr splt_fmt example others rest (acc ++ [t])
              = Ok out ->
              Forall P out /\
              List.length out = (List.length acc + S (List.length rest))%nat).
    { intros t Ht Hrun. apply IH in Hrun.
      - rewrite length_app in Hrun. simpl in Hrun.
        destruct Hrun as [Hall Hlen]. split; [assumption|lia].
      - apply Forall_app. split; [assumption|]. now constructor. }
    destruct (negb (tok =? substr)); [now apply Hstep|].
    destruct (getitem example i) as [cv|] eqn:H2; simpl; [|discriminate].
    assert (Hcv : P cv) by (apply He; eapply getitem_In; exact H2).
    destruct (all_agree i cv others) as [[|]|]; simpl;
      [now apply Hstep|now apply Hstep|discriminate].
Qed.

(** X10.  In character mode, when the filler occurs in the skeleton and the
    refinement succeeds, there is a first sample and the result is exactly
    as long as it (not as long as the skeleton). *)
Theorem refined_format_has_length_of_first_sample
    (split_and_keep : string -> string -> list string)
    (split_and_keep_by_many : string -> list string -> list string)
    (fmt substr : string) (samples : list string) (out : string) :
  (exists a b, fmt = (a ++ substr ++ b)%string) ->
  _refine_formats split_and_keep split_and_keep_by_many
                  fmt substr samples false = Ok out ->
  exists first rest,
    samples = first :: rest /\ String.length out = String.length first.
Proof.
  intros Hocc. apply str_in_spec in Hocc.
  unfold _refine_formats. rewrite Hocc. cbn [negb].
  destruct samples as [|first rest]; [discriminate|].
  cbn [map getitem nth_error bind tl].
  destruct (refine_loop _ _ _ _ _ _) as [nf|] eqn:Hloop; simpl;
    [|discriminate].
  intros H. inversion H; subst. exists first, rest. split; [reflexivity|].
  destruct (refine_loop_shape (fun t => String.length t = 1%nat)
              _ _ _ _ (chars_one fmt) (chars_one first) _ _ _
              (Forall_nil _) Hloop) as (Hone & Hlen).
  rewrite (join_length _ Hone), Hlen, length_seq, chars_length. reflexivity.
Qed.

Lemma refined_format_has_length_of_first_sample_witness :
  exists first rest,
    ["1"] = first :: rest
    /\ String.length "1" = String.length first.
Proof.
  apply (refined_format_has_length_of_first_sample
           StringUtils.split_and_keep StringUtils.split_and_keep_by_many
           "0-0" "0" ["1"] "1").
  - exists "", "-0". reflexivity.
  - vm_compute. reflexivity.
Defined.

Lemma forallb_tl (i : nat) (v : string) (others : list (list string)) :
  forallb (fun o => nth (S i) o "" =? v) others
  = forallb (fun o => nth i o "" =? v) (map (@tl string) others).
Proof.
  induction others as [|o others IH]; [reflexivity|].
  cbn [forallb map]. rewrite IH. f_equal.
  destruct o; [now destruct i|reflexivity].
Qed.

Lemma forallb_hd (v : string) (others : list (list string)) :
  forallb (fun o => nth 0 o "" =? v) others
  = forallb (fun o => hd "" o =? v) others.
Proof.
  induction others as [|o others IH]; [reflexivity|].
  cbn [forallb]. rewrite IH. now destruct o.
Qed.

Lemma refined_tokens_zip (substr : string) (splt_fmt : list string) :
  forall example others,
    List.length example = List.length splt_fmt ->
    map (refined_token substr splt_fmt example others)
        (seq 0 (List.length example))
    = refine_zip substr splt_fmt example others.
Proof.
  induction splt_fmt as [|tok F IH]; intros example others Hlen;
    destruct example as [|e E]; try discriminate; [reflexivity|].
  cbn [List.length seq map refine_zip].
  f_equal.
  - unfold refined_token. cbn [nth]. now rewrite forallb_hd.
  - rewrite <- seq_shift, map_map.
    rewrite <- (IH E (map (@tl string) others)) by (simpl in Hlen; lia).
    apply map_ext. intros i. unfold refined_token. cbn [nth].
    now rewrite forallb_tl.
Qed.

(** In character mode, on samples as long as the skeleton, the refinement
    succeeds and is the join of [refine_zip]. *)
Lemma refine_charwise_aligned
    (split_and_keep : string -> string -> list string)
    (split_and_keep_by_many : string -> list string -> list string)
    (fmt substr first : string) (rest : list string) :
  str_in substr fmt = true ->
  String.length first = String.length fmt ->
  Forall (fun t => String.length t = String.length fmt) rest ->
  _refine_formats split_and_keep split_and_keep_by_many
                  fmt substr (first :: rest) false
  = Ok (join (refine_zip substr (chars fmt) (chars first) (map chars rest))).
Proof.
  intros Hin Hfirst Hrest. unfold _refine_formats. rewrite Hin.
  cbn [negb map getitem nth_error bind tl].
  rewrite refine_loop_aligned.
  - cbn [app bind]. rewrite refined_tokens_zip; [reflexivity|].
    now rewrite !chars_length.
  - now rewrite !chars_length.
  - apply Forall_map. eapply Forall_impl; [|exact Hrest].
    simpl. intros t Ht. now rewrite !chars_length.
  - apply Forall_forall. intros i Hi. apply in_seq in Hi.
    rewrite !chars_length in *. lia.
Qed.

Lemma no_filler_no_match (cls : ascii -> bool) (c0 : ascii) (s : string) :
  str_in (String c0 "") (Re.sub_chars cls (String c0 "") s) = false ->
  Re.sub_chars cls (String c0 "") s = s.
Proof.
  induction s as [|c s IH]; [reflexivity|].
  cbn [Re.sub_chars]. destruct (cls c).
  - cbn [append str_in].
    assert (Hp : String.prefix (String c0 "")
                   (String c0 (Re.sub_chars cls (String c0 "") s)) = true).
    { apply prefix_spec. now exists (Re.sub_chars cls (String c0 "") s). }
    rewrite Hp. discriminate.
  - cbn [str_in].
    destruct (String.prefix (String c0 "") (String c _)); [discriminate|].
    intros H. now rewrite IH.
Qed.

Lemma tails_of_repeat (c : ascii) (s : string) (k : nat) :
  map (@tl string) (map chars (repeat (String c s) k))
  = map chars (repeat s k).
Proof. induction k as [|k IH]; simpl; congruence. Qed.

Lemma heads_of_repeat (c : ascii) (s : string) (k : nat) :
  forallb (fun o => hd "" o =? String c "")
          (map chars (repeat (String c s) k)) = true.
Proof.
  induction k as [|k IH]; [reflexivity|].
  cbn [repeat map forallb chars hd]. now rewrite String.eqb_refl, IH.
Qed.

Lemma zip_identical (cls : ascii -> bool) (c0 : ascii) (s : string) (k : nat) :
  refine_zip (String c0 "") (chars (Re.sub_chars cls (String c0 "") s))
             (chars s) (map chars (repeat s k))
  = chars s.
Proof.
  induction s as [|c s IH]; [reflexivity|].
  cbn [Re.sub_chars]. destruct (cls c);
    cbn [append chars refine_zip];
    rewrite tails_of_repeat, IH, heads_of_repeat.
  - now rewrite String.eqb_refl.
  - destruct (String c "" =? String c0 ""); reflexivity.
Qed.

Lemma zip_keeps_skeleton (cls : ascii -> bool) (c0 : ascii) (s : string) :
  forall others,
    Re.sub_chars cls (String c0 "")
      (join (refine_zip (String c0 "")
               (chars (Re.sub_chars cls (String c0 "") s)) (chars s) others))
    = Re.sub_chars cls (String c0 "") s.
Proof.
  induction s as [|c s IH]; intros others; [reflexivity|].
  cbn [Re.sub_chars]. destruct (cls c) eqn:Hc;
    cbn [append chars refine_zip]; rewrite join_cons.
  - rewrite String.eqb_refl. cbn [negb].
    destruct (forallb _ others); cbn [append Re.sub_chars].
    + now rewrite Hc, IH.
    + destruct (cls c0); cbn [append]; now rewrite IH.
  - destruct (String.eqb_spec (String c "") (String c0 "")) as [Heq|Hne];
      cbn [negb].
    + destruct (forallb _ others);
        cbn [append Re.sub_chars]; now rewrite Hc, IH.
    + cbn [append Re.sub_chars]. now rewrite Hc, IH.
Qed.

(** X11.  In character mode with a one-character filler, refining the
    skeleton of the first sample with samples of the same length succeeds,
    and the refined format still has that skeleton: refinement only makes
    filler positions more specific. *)
Theorem refinement_keeps_the_skeleton
    (split_and_keep : string -> string -> list string)
    (split_and_keep_by_many : string -> list string -> list string)
    (cls : ascii -> bool) (c0 : ascii) (first : string) (rest : list string) :
  Forall (fun t => String.length t = String.length first) rest ->
  exists out,
    _refine_formats split_and_keep split_and_keep_by_many
      (Re.sub_chars cls (String c0 "") first) (String c0 "")
      (first :: rest) false = Ok out /\
    Re.sub_chars cls (String c0 "") out
    = Re.sub_chars cls (String c0 "") first.
Proof.
  intros Hrest.
  assert (Hlen : String.length (Re.sub_chars cls (String c0 "") first)
                 = String.length first)
    by (now apply sub_chars_length).
  destruct (str_in (String c0 "") (Re.sub_chars cls (String c0 "") first))
    eqn:Hin.
  - eexists. split.
    + apply refine_charwise_aligned; [assumption|now rewrite Hlen|].
      eapply Forall_impl; [|exact Hrest]. simpl. intros t Ht.
      now rewrite Hlen.
    + apply zip_keeps_skeleton.
  - exists (Re.sub_chars cls (String c0 "") first). split.
    + now apply refine_formats_without_filler.
    + pose proof (no_filler_no_match _ _ _ Hin) as Heq.
      now rewrite !Heq.
Qed.

Lemma refinement_keeps_the_skeleton_witness :
  exists out,
    refine_formats_with_utils "00-00" "0" ["12-34"; "12-56"; "12-78"] false
    = Ok out /\
    Re.sub_chars Re.digit "0" out = "00-00".
Proof.
  apply (refinement_keeps_the_skeleton
           StringUtils.split_and_keep StringUtils.split_and_keep_by_many
           Re.digit "0" "12-34" ["12-56"; "12-78"]).
  repeat constructor.
Defined.

(** X12.  In character mode with a one-character filler, refining the
    skeleton of a value with samples that are all this value gives the value
    back. *)
Theorem refinement_of_identical_samples
    (split_and_keep : string -> string -> list string)
    (split_and_keep_by_many : string -> list string -> list string)
    (cls : ascii -> bool) (c0 : ascii) (s : string) (k : nat) :
  _refine_formats split_and_keep split_and_keep_by_many
    (Re.sub_chars cls (String c0 "") s) (String c0 "")
    (s :: repeat s k) false = Ok s.
Proof.
  assert (Hlen : String.length (Re.sub_chars cls (String c0 "") s)
                 = String.length s)
    by (now apply sub_chars_length).
  destruct (str_in (String c0 "") (Re.sub_chars cls (String c0 "") s))
    eqn:Hin.
  - rewrite refine_charwise_aligned.
    + rewrite zip_identical. now rewrite join_chars.
    + assumption.
    + now rewrite Hlen.
    + apply Forall_forall. intros t Ht. apply repeat_spec in Ht.
      subst t. now rewrite Hlen.
  - rewrite refine_formats_without_filler by assumption.
    now rewrite (no_filler_no_match _ _ _ Hin).
Qed.

(** ** More on one pattern on one column *)

Lemma select_map (f : string -> string) (mask : string -> bool)
    (column : list string) :
  select column (map f column) mask = filter (fun v => mask (f v)) column.
Proof.
  unfold select. induction column as [|v column IH]; [reflexivity|].
  cbn [map combine filter snd]. destruct (mask (f v)); cbn [map fst];
    congruence.
Qed.

Lemma mapM_ok_length {A B} (f : A -> result B) (xs : list A) (ys : list B) :
  mapM f xs = Ok ys -> List.length ys = List.length xs.
Proof.
  revert ys. induction xs as [|x xs IH]; intros ys; simpl.
  - intros H. now inversion H.
  - destruct (f x) as [y|]; simpl; [|discriminate].
    destruct (mapM f xs) as [ys'|]; simpl; [|discriminate].
    intros H. inversion H; subst. simpl. f_equal. now apply IH.
Qed.

Lemma mapM_ok_In {A B} (f : A -> result B) (xs : list A) (ys : list B) :
  mapM f xs = Ok ys ->
  forall y, In y ys -> exists x, In x xs /\ f x = Ok y.
Proof.
  revert ys. induction xs as [|x xs IH]; intros ys; simpl.
  - intros H. inversion H. intros y [].
  - destruct (f x) as [y0|] eqn:Hx; simpl; [|discriminate].
    destruct (mapM f xs) as [ys'|]; simpl; [|discriminate].
    intros H. inversion H; subst. intros y [<-|Hy].
    + eauto.
    + destruct (IH ys' eq_refl y Hy) as (x' & Hin & Hfx). eauto.
Qed.

Lemma mapM_all_ok {A B} (f : A -> result B) (xs : list A) :
  (forall x, In x xs -> exists y, f x = Ok y) ->
  exists ys, mapM f xs = Ok ys.
Proof.
  induction xs as [|x xs IH]; intros Hall; simpl; [eauto|].
  destruct (Hall x (or_introl eq_refl)) as [y Hy]. rewrite Hy. simpl.
  destruct IH as [ys Hys]; [intros x' Hx'; apply Hall; now right|].
  rewrite Hys. simpl. eauto.
Qed.

Lemma partition_found_positive (col : list string) (thr : Q) r rare common :
  get_rare_vs_common_values col thr = (r, Some rare, Some common) ->
  (0 < r)%Q.
Proof.
  intros Heq.
  destruct (partition_found_inv _ _ _ _ _ Heq)
    as (cv & rv & Hs & Hcv & Hrv & _ & _ & ->).
  pose proof (ranking_positive col) as Hpos. rewrite Hs in Hpos.
  apply Forall_app in Hpos. destruct Hpos as [Hpc Hpr].
  apply ratio_positive; now apply sum_positive.
Qed.

Lemma partition_found_lists (col : list string) (thr : Q) r rare common :
  get_rare_vs_common_values col thr = (r, Some rare, Some common) ->
  common <> [] /\ NoDup (common ++ rare) /\
  forall x, In x (common ++ rare) -> In x col.
Proof.
  intros Heq.
  destruct (partition_found_inv _ _ _ _ _ Heq)
    as (cv & rv & Hs & Hcv & _ & -> & -> & _).
  assert (Hidx : Series.index cv ++ Series.index rv
                 = Series.index (ranking col)).
  { rewrite Hs. unfold Series.index. now rewrite map_app. }
  rewrite Hidx. repeat split.
  - destruct cv; [congruence|discriminate].
  - apply ranking_NoDup.
  - intros x Hx. now apply ranking_index_In in Hx.
Qed.

Section PatternFacts.

Variable split_and_keep : string -> string -> list string.
Variable split_and_keep_by_many : string -> list string -> list string.

Let detect_pattern :=
  _detect_per_column_and_pattern split_and_keep split_and_keep_by_many.
Let refine_formats := _refine_formats split_and_keep split_and_keep_by_many.

(** What a finding is made of. *)
Lemma detect_pattern_found_inv column pattern thr exclude_samples f :
  detect_pattern column pattern thr exclude_samples = Ok (Some f) ->
  exists r rare common,
    get_rare_vs_common_values (map (Pattern.sub pattern) column) thr
    = (r, Some rare, Some common) /\
    ratio_of_rare_patterns_to_common_patterns f = r /\
    values_in_rare_formats f
    = Series.unique
        (filter (fun v => negb (list_in v exclude_samples))
                (filter (fun v => list_in (Pattern.sub pattern v) rare)
                        column)) /\
    values_in_rare_formats f <> [] /\
    mapM (fun common_format =>
            getitem (select column (map (Pattern.sub pattern) column)
                            (String.eqb common_format)) 0)
         common
    = Ok (examples_for_values_in_common_formats f) /\
    List.length (common_formats f) = List.length common.
Proof.
  unfold detect_pattern, _detect_per_column_and_pattern. cbv zeta.
  destruct (get_rare_vs_common_values _ _) as [[r rf] cf].
  destruct (Qeq_bool r 0); [discriminate|].
  destruct rf as [rf|]; [|discriminate].
  destruct cf as [cf|]; [|discriminate].
  destruct (negb _); [discriminate|].
  rewrite select_map.
  destruct (filter _ (filter _ column)) as [|v0 more] eqn:Hrv;
    [discriminate|].
  match goal with
  | |- context [bind (mapM ?g cf)] =>
      destruct (mapM g cf) as [examples|] eqn:Hex
  end; [|discriminate].
  cbn [bind].
  destruct (if Pattern.refine pattern then _ else _) as [cf'|] eqn:Hcf;
    cbn [bind]; [|discriminate].
  intros H. inversion H; subst; cbn.
  exists r, rf, cf. repeat split.
  - now rewrite Hrv.
  - discriminate.
  - exact Hex.
  - destruct (Pattern.refine pattern).
    + now apply mapM_ok_length in Hcf.
    + now inversion Hcf.
Qed.

End PatternFacts.

Lemma common_format_has_samples (f : string -> string) (column : list string)
    (thr : Q) r rare common (cf : string) :
  get_rare_vs_common_values (map f column) thr
  = (r, Some rare, Some common) ->
  In cf common ->
  exists first rest,
    select column (map f column) (String.eqb cf) = first :: rest /\
    Forall (fun v => f v = cf) (first :: rest).
Proof.
  intros Heq Hcf.
  destruct (partition_found_lists _ _ _ _ _ Heq) as (_ & _ & Hin).
  assert (Hmap : In cf (map f column))
    by (apply Hin, in_or_app; now left).
  apply in_map_iff in Hmap. destruct Hmap as (v & Hv & Hvin).
  rewrite select_map.
  assert (Hall : Forall (fun v => f v = cf)
                        (filter (fun v => cf =? f v) column)).
  { apply Forall_forall. intros x Hx. apply filter_In in Hx.
    destruct Hx as [_ Hx]. apply String.eqb_eq in Hx. now symmetry. }
  destruct (filter (fun v => cf =? f v) column) as [|first rest] eqn:Hf.
  - exfalso. assert (Hx : In v (filter (fun v => cf =? f v) column)).
    { apply filter_In. split; [assumption|]. subst cf.
      apply String.eqb_refl. }
    rewrite Hf in Hx. contradiction.
  - eauto.
Qed.

Lemma all_excluded (exclude_samples l : list string) :
  (forall v, In v l -> In v exclude_samples) ->
  filter (fun v => negb (list_in v exclude_samples)) l = [].
Proof.
  induction l as [|v l IH]; intros Hall; [reflexivity|].
  cbn [filter].
  assert (Hv : list_in v exclude_samples = true)
    by (apply list_in_spec, Hall; now left).
  rewrite Hv. cbn [negb]. apply IH. intros x Hx. apply Hall. now right.
Qed.

Section PatternTheorems.

Variable split_and_keep : string -> string -> list string.
Variable split_and_keep_by_many : string -> list string -> list string.

Let detect_pattern :=
  _detect_per_column_and_pattern split_and_keep split_and_keep_by_many.
Let refine_formats := _refine_formats split_and_keep split_and_keep_by_many.

(** The analysis of one pattern succeeds as soon as the refinement of each
    common format does. *)
Lemma detect_pattern_ok column pattern thr exclude_samples :
  (forall r rare common fmt,
      get_rare_vs_common_values (map (Pattern.sub pattern) column) thr
      = (r, Some rare, Some common) ->
      existsb (Pattern.is_format_significant pattern) common = true ->
      Pattern.refine pattern = true ->
      In fmt common ->
      exists out,
        (filler <- getitem (Pattern.substituters pattern) 0 ;;
         refine_formats fmt (snd filler)
           (map (Pattern.clean pattern)
                (select column (map (Pattern.sub pattern) column)
                        (String.eqb fmt)))
           (Pattern.is_sequence pattern)) = Ok out) ->
  exists res, detect_pattern column pattern thr exclude_samples = Ok res.
Proof.
  intros Hrefine.
  unfold detect_pattern, _detect_per_column_and_pattern. cbv zeta.
  destruct (partition_shape (map (Pattern.sub pattern) column) thr)
    as [Hp|(r & rf & cf & Hp)]; rewrite Hp; [simpl; eauto|].
  destruct (Qeq_bool r 0); [eauto|].
  destruct (existsb (Pattern.is_format_significant pattern) cf) eqn:Hsig;
    cbn [negb]; [|eauto].
  destruct (filter _ _) as [|v0 more]; [eauto|].
  destruct (mapM_all_ok
              (fun common_format =>
                 getitem (select column (map (Pattern.sub pattern) column)
                                 (String.eqb common_format)) 0) cf)
    as [examples Hex].
  { intros fmt Hfmt.
    destruct (common_format_has_samples _ _ _ _ _ _ _ Hp Hfmt)
      as (first & rest & Hsel & _).
    rewrite Hsel. now exists first. }
  rewrite Hex. cbn [bind].
  destruct (Pattern.refine pattern) eqn:Href; [|cbn [bind]; eauto].
  destruct (mapM_all_ok
              (fun fmt =>
                 filler <- getitem (Pattern.substituters pattern) 0 ;;
                 _refine_formats split_and_keep split_and_keep_by_many fmt
                   (snd filler)
                   (map (Pattern.clean pattern)
                        (select column (map (Pattern.sub pattern) column)
                                (String.eqb fmt)))
                   (Pattern.is_sequence pattern)) cf) as [cf' Hcf'].
  { intros fmt Hfmt. exact (Hrefine r rf cf fmt Hp Hsig eq_refl Hfmt). }
  rewrite Hcf'. cbn [bind]. eauto.
Qed.

End PatternTheorems.

(** X13.  A finding has at least one rare value, at least one common format,
    and one example per common format, each example being a value of the
    column. *)
Theorem finding_is_well_formed
    (split_and_keep : string -> string -> list string)
    (split_and_keep_by_many : string -> list string -> list string)
    (column : list string) (pattern : Pattern.t) (thr : Q)
    (exclude_samples : list string) (f : finding) :
  _detect_per_column_and_pattern split_and_keep split_and_keep_by_many
    column pattern thr exclude_samples = Ok (Some f) ->
  values_in_rare_formats f <> [] /\
  common_formats f <> [] /\
  List.length (examples_for_values_in_common_formats f)
  = List.length (common_formats f) /\
  (forall e, In e (examples_for_values_in_common_formats f) ->
             In e column).
Proof.
  intros Hf.
  destruct (detect_pattern_found_inv _ _ _ _ _ _ _ Hf)
    as (r & rare & common & Hp & Hr & _ & Hne & Hex & Hlen).
  destruct (partition_found_lists _ _ _ _ _ Hp) as (Hcne & _ & _).
  split; [assumption|].
  split.
  { intros Hnil. rewrite Hnil in Hlen. destruct common; [congruence|].
    discriminate. }
  split; [rewrite (mapM_ok_length _ _ _ Hex); now symmetry|].
  intros e He.
  destruct (mapM_ok_In _ _ _ Hex e He) as (cf & _ & Hget).
  apply getitem_In in Hget. now apply select_In in Hget.
Qed.

Lemma finding_is_well_formed_witness :
  ["XY-1"] <> [] /\ ["XX000"] <> []
  /\ List.length ["AB-001"] = List.length ["XX000"]
  /\ (forall e, In e ["AB-001"] -> In e scenario_B_column).
Proof.
  apply (finding_is_well_formed
           StringUtils.split_and_keep StringUtils.split_and_keep_by_many
           scenario_B_column dash_pattern (1 # 2) []
           {| ratio_of_rare_patterns_to_common_patterns := 1 # 3;
              common_formats := ["XX000"];
              examples_for_values_in_common_formats := ["AB-001"];
              values_in_rare_formats := ["XY-1"] |}).
  vm_compute. reflexivity.
Defined.

(** X14.  No example of a common format is among the rare values of the same
    finding. *)
Theorem examples_are_not_rare
    (split_and_keep : string -> string -> list string)
    (split_and_keep_by_many : string -> list string -> list string)
    (column : list string) (pattern : Pattern.t) (thr : Q)
    (exclude_samples : list string) (f : finding) (e : string) :
  _detect_per_column_and_pattern split_and_keep split_and_keep_by_many
    column pattern thr exclude_samples = Ok (Some f) ->
  In e (examples_for_values_in_common_formats f) ->
  ~ In e (values_in_rare_formats f).
Proof.
  intros Hf He Hrare.
  destruct (detect_pattern_found_inv _ _ _ _ _ _ _ Hf)
    as (r & rare & common & Hp & _ & Hvals & _ & Hex & _).
  destruct (partition_found_lists _ _ _ _ _ Hp) as (_ & Hnd & _).
  destruct (NoDup_app_inv _ _ Hnd) as (_ & _ & Hdis).
  destruct (mapM_ok_In _ _ _ Hex e He) as (cf & Hcf & Hget).
  apply getitem_In in Hget. rewrite select_map in Hget.
  apply filter_In in Hget. destruct Hget as [_ Heq].
  apply String.eqb_eq in Heq.
  rewrite Hvals in Hrare. apply (proj1 (unique_In _ _)) in Hrare.
  apply filter_In in Hrare. destruct Hrare as [Hrare _].
  apply filter_In in Hrare. destruct Hrare as [_ Hrare].
  apply list_in_spec in Hrare. rewrite <- Heq in Hrare.
  exact (Hdis cf Hcf Hrare).
Qed.

Lemma examples_are_not_rare_witness :
  ~ In "AB-001" ["XY-1"].
Proof.
  apply (examples_are_not_rare
           StringUtils.split_and_keep StringUtils.split_and_keep_by_many
           scenario_B_column dash_pattern (1 # 2) []
           {| ratio_of_rare_patterns_to_common_patterns := 1 # 3;
              common_formats := ["XX000"];
              examples_for_values_in_common_formats := ["AB-001"];
              values_in_rare_formats := ["XY-1"] |} "AB-001").
  - vm_compute. reflexivity.
  - simpl. tauto.
Defined.

(** X15.  For a pattern whose fillers hold no backslash: when every value of
    the column is already excluded, the pattern has no finding and nothing is
    raised, refinement included. *)
Theorem excluded_column_has_no_finding
    (split_and_keep : string -> string -> list string)
    (split_and_keep_by_many : string -> list string -> list string)
    (column : list string) (pattern : Pattern.t) (thr : Q)
    (exclude_samples : list string) :
  plain_fillers pattern = true ->
  (forall v, In v column -> In v exclude_samples) ->
  _detect_per_column_and_pattern split_and_keep split_and_keep_by_many
    column pattern thr exclude_samples = Ok None.
Proof.
  intros _ Hall. unfold _detect_per_column_and_pattern. cbv zeta.
  destruct (partition_shape (map (Pattern.sub pattern) column) thr)
    as [Hp|(r & rf & cf & Hp)]; rewrite Hp; [reflexivity|].
  destruct (Qeq_bool r 0); [reflexivity|].
  destruct (negb _); [reflexivity|].
  rewrite all_excluded; [reflexivity|].
  intros v Hv. apply Hall. now apply select_In in Hv.
Qed.

Lemma excluded_column_has_no_finding_witness :
  _detect_per_column_and_pattern StringUtils.split_and_keep
    StringUtils.split_and_keep_by_many scenario_B_column dash_pattern
    (1 # 2) ["XY-1"; "AB-003"; "AB-002"; "AB-001"] = Ok None.
Proof.
  apply (excluded_column_has_no_finding
           StringUtils.split_and_keep StringUtils.split_and_keep_by_many
           scenario_B_column dash_pattern (1 # 2)
           ["XY-1"; "AB-003"; "AB-002"; "AB-001"]).
  - reflexivity.
  - unfold scenario_B_column. simpl. tauto.
Defined.

(** X16.  A pattern whose fillers hold no backslash and that is not refined
    never raises: its analysis returns a finding or nothing, on every
    column. *)
Theorem unrefined_pattern_never_raises
    (split_and_keep : string -> string -> list string)
    (split_and_keep_by_many : string -> list string -> list string)
    (column : list string) (pattern : Pattern.t) (thr : Q)
    (exclude_samples : list string) :
  plain_fillers pattern = true ->
  Pattern.refine pattern = false ->
  exists res,
    _detect_per_column_and_pattern split_and_keep split_and_keep_by_many
      column pattern thr exclude_samples = Ok res.
Proof.
  intros _ Href. apply detect_pattern_ok.
  intros r rare common fmt _ _ Hr. congruence.
Qed.

Lemma unrefined_pattern_never_raises_witness :
  exists res,
    _detect_per_column_and_pattern StringUtils.split_and_keep
      StringUtils.split_and_keep_by_many scenario_B_column dash_pattern
      (1 # 2) [] = Ok res.
Proof.
  apply (unrefined_pattern_never_raises
           StringUtils.split_and_keep StringUtils.split_and_keep_by_many
           scenario_B_column dash_pattern (1 # 2) []).
  - reflexivity.
  - reflexivity.
Defined.

(** X17.  A pattern whose rules all replace one character by one character
    other than a backslash, refined in character mode, never raises either:
    the cleaned form of every value is as long as the format of the value, so
    the cleaned samples of a format are all as long as the format. *)
Theorem charwise_pattern_never_raises
    (split_and_keep : string -> string -> list string)
    (split_and_keep_by_many : string -> list string -> list string)
    (column : list string) (pattern : Pattern.t) (thr : Q)
    (exclude_samples : list string) :
  plain_fillers pattern = true ->
  charwise pattern = true ->
  Pattern.is_sequence pattern = false ->
  (exists res,
    _detect_per_column_and_pattern split_and_keep split_and_keep_by_many
      column pattern thr exclude_samples = Ok res) /\
  (forall fmt v, In v column -> Pattern.sub pattern v = fmt ->
     String.length (Pattern.clean pattern v) = String.length fmt).
Proof.
  intros _ Hcw Hseq.
  assert (Hlen : forall v, Pattern.sub pattern v
                           = apply_rules (Pattern.substituters pattern)
                                         (Pattern.clean pattern v))
    by reflexivity.
  split;
    [|intros fmt v _ <-; rewrite Hlen; symmetry;
      now apply apply_rules_length].
  clear Hlen. apply detect_pattern_ok.
  intros r rare common fmt Hp Hsig _ Hfmt.
  assert (Hrules : Pattern.substituters pattern <> []).
  { intros Hnil. unfold Pattern.is_format_significant in Hsig.
    rewrite Hnil in Hsig. simpl in Hsig.
    clear -Hsig. induction common; simpl in Hsig; auto. discriminate. }
  destruct (Pattern.substituters pattern) as [|filler rules] eqn:Hsubs;
    [congruence|].
  cbn [getitem nth_error bind]. rewrite Hseq.
  destruct (common_format_has_samples _ _ _ _ _ _ _ Hp Hfmt)
    as (first & rest & Hsel & Hall).
  rewrite Hsel. cbn [map].
  assert (Hlen : forall v, Pattern.sub pattern v = fmt ->
                           String.length (Pattern.clean pattern v)
                           = String.length fmt).
  { intros v <-. unfold Pattern.sub.
    fold (apply_rules (Pattern.substituters pattern)
                      (Pattern.clean pattern v)).
    symmetry. apply apply_rules_length. exact Hcw. }
  inversion Hall as [|? ? Hfirst Hrest]; subst.
  destruct (str_in (snd filler) (Pattern.sub pattern first)) eqn:Hin.
  - eexists. apply refine_charwise_aligned; [assumption|now apply Hlen|].
    apply Forall_map. eapply Forall_impl; [|exact Hrest].
    simpl. intros v Hv. now apply Hlen.
  - eexists. now apply refine_formats_without_filler.
Qed.

Lemma charwise_pattern_never_raises_witness :
  (exists res,
    _detect_per_column_and_pattern StringUtils.split_and_keep
      StringUtils.split_and_keep_by_many
      ["a1"; "a2"; "a3"; "a4"; "a55"; "bb6"; "cc77"]
      digits_only_pattern (1 # 2) [] = Ok res) /\
  (forall fmt v, In v ["a1"; "a2"; "a3"; "a4"; "a55"; "bb6"; "cc77"] ->
     Pattern.sub digits_only_pattern v = fmt ->
     String.length (Pattern.clean digits_only_pattern v)
     = String.length fmt).
Proof.
  apply (charwise_pattern_never_raises
           StringUtils.split_and_keep StringUtils.split_and_keep_by_many
           ["a1"; "a2"; "a3"; "a4"; "a55"; "bb6"; "cc77"]
           digits_only_pattern (1 # 2) []).
  - reflexivity.
  - reflexivity.
  - reflexivity.
Defined.

(** ** More on the loop over the patterns *)

Lemma dict_set_keys {V} (d : list (string * V)) (k : string) (v : V)
    (k' : string) :
  In k' (map fst (dict_set d k v)) <-> In k' (map fst d) \/ k' = k.
Proof.
  induction d as [|[k0 v0] d IH]; simpl.
  - intuition congruence.
  - destruct (String.eqb_spec k0 k) as [->|Hne]; simpl.
    + intuition congruence.
    + rewrite IH. tauto.
Qed.

Lemma dict_set_NoDup {V} (d : list (string * V)) (k : string) (v : V) :
  NoDup (map fst d) -> NoDup (map fst (dict_set d k v)).
Proof.
  induction d as [|[k0 v0] d IH]; simpl; intros Hnd.
  - repeat constructor. tauto.
  - inversion Hnd as [|? ? Hnotin Hd]; subst.
    destruct (String.eqb_spec k0 k) as [->|Hne]; simpl.
    + now constructor.
    + constructor; [|now apply IH].
      rewrite dict_set_keys. intros [Hin|Heq]; congruence.
Qed.

Lemma dict_get_set_same {V} (d : list (string * V)) (k : string) (v : V) :
  dict_get (dict_set d k v) k = Ok v.
Proof.
  induction d as [|[k0 v0] d IH]; simpl.
  - now rewrite String.eqb_refl.
  - destruct (String.eqb_spec k0 k) as [->|Hne]; simpl.
    + now rewrite String.eqb_refl.
    + apply String.eqb_neq in Hne. now rewrite Hne.
Qed.

Lemma dict_get_set_other {V} (d : list (string * V)) (k k' : string) (v : V) :
  k' <> k -> dict_get (dict_set d k v) k' = dict_get d k'.
Proof.
  intros Hne. induction d as [|[k0 v0] d IH]; simpl.
  - assert (H : (k =? k') = false) by (apply String.eqb_neq; congruence).
    now rewrite H.
  - destruct (String.eqb_spec k0 k) as [->|Hne0]; simpl.
    + assert (H : (k =? k') = false) by (apply String.eqb_neq; congruence).
      now rewrite H.
    + destruct (k0 =? k'); [reflexivity|exact IH].
Qed.

Lemma claimed_dict_set_In (d : list (string * option finding)) (k : string)
    (res : option finding) (v : string) :
  In v (claimed (dict_set d k res)) ->
  In v (claimed d) \/ In v (rare_of res).
Proof.
  unfold claimed. induction d as [|[k0 v0] d IH]; simpl.
  - rewrite app_nil_r. tauto.
  - destruct (k0 =? k); simpl; rewrite !in_app_iff; [tauto|].
    intros [H|H]; [tauto|]. destruct (IH H); tauto.
Qed.

Lemma dropna_keys (d : list (string * option finding)) :
  (forall k, In k (map fst (dropna d)) -> In k (map fst d)) /\
  (NoDup (map fst d) -> NoDup (map fst (dropna d))).
Proof.
  induction d as [|[k [f|]] d [IHin IHnd]]; simpl.
  - split; [tauto|trivial].
  - split; [intros k' [H|H]; auto|].
    intros Hnd. inversion Hnd; subst. constructor; auto.
  - split; [auto|]. intros Hnd. inversion Hnd; subst. auto.
Qed.

Section MoreLoopFacts.

Variable split_and_keep : string -> string -> list string.
Variable split_and_keep_by_many : string -> list string -> list string.

Let detect_pattern :=
  _detect_per_column_and_pattern split_and_keep split_and_keep_by_many.

(** Outside first-match mode the exclusion list never changes. *)
Lemma detect_loop_independent column thr method patterns :
  method <> "first" ->
  forall d ign,
    detect_loop split_and_keep split_and_keep_by_many column patterns thr
                method d ign
    = (results <- mapM (fun pattern => detect_pattern column pattern thr ign)
                       patterns ;;
       Ok (collect patterns results d)).
Proof.
  intros Hm. apply String.eqb_neq in Hm.
  induction patterns as [|pattern rest IH]; intros d ign; [reflexivity|].
  cbn [detect_loop mapM]. unfold detect_pattern.
  destruct (_detect_per_column_and_pattern _ _ column pattern thr ign)
    as [res|e]; cbn [bind]; [|reflexivity].
  rewrite Hm.
  replace (match res with Some _ => ign | None => ign end) with ign
    by (now destruct res).
  rewrite IH. unfold detect_pattern.
  destruct (mapM _ rest) as [results|e]; reflexivity.
Qed.

(** The loop keeps the keys distinct, among the pattern names, and the rare
    values among the values of the column. *)
Lemma detect_loop_keys column thr method patterns :
  forall d ign d',
    detect_loop split_and_keep split_and_keep_by_many column patterns thr
                method d ign = Ok d' ->
    (NoDup (map fst d) -> NoDup (map fst d')) /\
    (forall k, In k (map fst d') ->
               In k (map fst d) \/ In k (map Pattern.name patterns)) /\
    (forall v, In v (claimed d') -> In v (claimed d) \/ In v column).
Proof.
  induction patterns as [|pattern rest IH]; intros d ign d'.
  - simpl. intros H. inversion H; subst. tauto.
  - cbn [detect_loop].
    destruct (_detect_per_column_and_pattern _ _ column pattern thr ign)
      as [res|e] eqn:Hres; cbn [bind]; [|discriminate].
    intros Hrun. apply IH in Hrun. destruct Hrun as (Hnd & Hkeys & Hvals).
    repeat split.
    + intros Hd. apply Hnd. now apply dict_set_NoDup.
    + intros k Hk. destruct (Hkeys k Hk) as [Hin|Hin].
      * apply dict_set_keys in Hin. simpl. destruct Hin; [tauto|].
        right. left. congruence.
      * simpl. tauto.
    + intros v Hv. destruct (Hvals v Hv) as [Hin|Hin]; [|tauto].
      apply claimed_dict_set_In in Hin. destruct Hin as [Hin|Hin]; [tauto|].
      right. destruct res as [f|]; [|contradiction].
      now apply (detect_pattern_found _ _ _ _ _ _ _ Hres).
Qed.

End MoreLoopFacts.

(** X18.  In any mode other than "first" the patterns do not influence each
    other: each one is analysed with an empty exclusion list, and the result
    is the dictionary of these analyses. *)
Theorem other_modes_analyse_patterns_independently
    (split_and_keep : string -> string -> list string)
    (split_and_keep_by_many : string -> list string -> list string)
    (column : list string) (patterns : list Pattern.t) (thr : Q)
    (method : string) :
  method <> "first" ->
  _detect_per_column split_and_keep split_and_keep_by_many column patterns
                     thr method
  = (results <- mapM (fun pattern =>
                        _detect_per_column_and_pattern split_and_keep
                          split_and_keep_by_many column pattern thr [])
                     patterns ;;
     Ok (dropna (collect patterns results []))).
Proof.
  intros Hm. unfold _detect_per_column.
  rewrite detect_loop_independent by assumption.
  destruct (mapM _ patterns); reflexivity.
Qed.

Lemma other_modes_analyse_patterns_independently_witness :
  detect_per_column_with_utils
    ["a1"; "a2"; "a3"; "a4"; "a55"; "bb6"; "cc77"]
    [digits_only_pattern; letters_only_pattern] (1 # 2) "all"
  = (results <- mapM (fun pattern =>
                        _detect_per_column_and_pattern
                          StringUtils.split_and_keep
                          StringUtils.split_and_keep_by_many
                          ["a1"; "a2"; "a3"; "a4"; "a55"; "bb6"; "cc77"]
                          pattern (1 # 2) [])
                     [digits_only_pattern; letters_only_pattern] ;;
     Ok (dropna (collect [digits_only_pattern; letters_only_pattern]
                         results []))).
Proof.
  apply (other_modes_analyse_patterns_independently
           StringUtils.split_and_keep StringUtils.split_and_keep_by_many
           ["a1"; "a2"; "a3"; "a4"; "a55"; "bb6"; "cc77"]
           [digits_only_pattern; letters_only_pattern] (1 # 2) "all").
  discriminate.
Defined.

(** X19.  In every mode, the findings of a column are keyed by distinct names
    of the given patterns, and every rare value they report is a value of
    the column. *)
Theorem findings_are_keyed_by_pattern_names
    (split_and_keep : string -> string -> list string)
    (split_and_keep_by_many : string -> list string -> list string)
    (column : list string) (patterns : list Pattern.t) (thr : Q)
    (method : string) (df : list (string * finding)) :
  _detect_per_column split_and_keep split_and_keep_by_many column patterns
                     thr method = Ok df ->
  NoDup (map fst df) /\
  (forall k, In k (map fst df) -> In k (map Pattern.name patterns)) /\
  (forall v, In v (all_rare_values df) -> In v column).
Proof.
  unfold _detect_per_column.
  destruct (detect_loop _ _ column patterns thr method [] []) as [d|e]
    eqn:Hloop; cbn [bind]; [|discriminate].
  intros H. inversion H; subst.
  destruct (detect_loop_keys _ _ _ _ _ _ _ _ _ Hloop)
    as (Hnd & Hkeys & Hvals).
  destruct (dropna_keys d) as (Hdin & Hdnd).
  repeat split.
  - apply Hdnd, Hnd. constructor.
  - intros k Hk. destruct (Hkeys k (Hdin k Hk)) as [[]|Hin]. exact Hin.
  - intros v Hv. rewrite claimed_dropna in Hv.
    destruct (Hvals v Hv) as [[]|Hin]. exact Hin.
Qed.

Lemma findings_are_keyed_by_pattern_names_witness :
  NoDup (map fst
           [("digits and letters format (ignoring dashes)",
             {| ratio_of_rare_patterns_to_common_patterns := 1 # 3;
                common_formats := ["XX000"];
                examples_for_values_in_common_formats := ["AB-001"];
                values_in_rare_formats := ["XY-1"] |})])
  /\ (forall k,
        In k (map fst
                [("digits and letters format (ignoring dashes)",
                  {| ratio_of_rare_patterns_to_common_patterns := 1 # 3;
                     common_formats := ["XX000"];
                     examples_for_values_in_common_formats := ["AB-001"];
                     values_in_rare_formats := ["XY-1"] |})]) ->
        In k (map Pattern.name [dash_pattern]))
  /\ (forall v,
        In v (all_rare_values
                [("digits and letters format (ignoring dashes)",
                  {| ratio_of_rare_patterns_to_common_patterns := 1 # 3;
                     common_formats := ["XX000"];
                     examples_for_values_in_common_formats := ["AB-001"];
                     values_in_rare_formats := ["XY-1"] |})]) ->
        In v scenario_B_column).
Proof.
  apply (findings_are_keyed_by_pattern_names
           StringUtils.split_and_keep StringUtils.split_and_keep_by_many
           scenario_B_column [dash_pattern] (1 # 2) "first").
  vm_compute. reflexivity.
Defined.

(** ** More on the entry point *)

Section EntryFacts.

Variable split_and_keep : string -> string -> list string.
Variable split_and_keep_by_many : string -> list string -> list string.

Let detect_column :=
  _detect_per_column split_and_keep split_and_keep_by_many.

(** The dictionary comprehension maps every name to the analysis of its
    column and leaves the other keys alone. *)
Lemma per_column_ok dataset patterns thr method column_names :
  forall acc res,
    per_column split_and_keep split_and_keep_by_many dataset column_names
               patterns thr method acc = Ok res ->
    (forall c, In c column_names ->
       exists column df,
         dict_get (data dataset) c = Ok column /\
         detect_column column patterns thr method = Ok df /\
         dict_get res c = Ok df) /\
    (forall c, ~ In c column_names -> dict_get res c = dict_get acc c) /\
    (forall c, In c (map fst res) <->
               In c (map fst acc) \/ In c column_names) /\
    (NoDup (map fst acc) -> NoDup (map fst res)).
Proof.
  induction column_names as [|c0 rest IH]; intros acc res.
  - simpl. intros H. inversion H; subst. repeat split; tauto.
  - cbn [per_column].
    destruct (dict_get (data dataset) c0) as [column|] eqn:Hcol;
      cbn [bind]; [|discriminate].
    destruct (_detect_per_column _ _ column patterns thr method)
      as [df|] eqn:Hdf; cbn [bind]; [|discriminate].
    intros Hrun. apply IH in Hrun.
    destruct Hrun as (Hin & Hout & Hkeys & Hnd). repeat split.
    + intros c Hc. destruct (in_dec string_dec c rest) as [Hr|Hr].
      * now apply Hin.
      * destruct Hc as [<-|Hc]; [|contradiction].
        exists column, df. repeat split; try assumption.
        rewrite (Hout _ Hr). apply dict_get_set_same.
    + intros c Hc. rewrite Hout by (simpl in Hc; tauto).
      apply dict_get_set_other. simpl in Hc. intros ->. tauto.
    + rewrite Hkeys, dict_set_keys. simpl. intuition congruence.
    + rewrite Hkeys, dict_set_keys. simpl. intuition congruence.
    + intros Hacc. apply Hnd. now apply dict_set_NoDup.
Qed.

Lemma rare_format_detection_columns dataset column_names patterns thr method :
  list_in method ["first"; "all"] = true ->
  rare_format_detection split_and_keep split_and_keep_by_many dataset
    column_names patterns thr method
  = per_column split_and_keep split_and_keep_by_many dataset
      (requested_columns dataset column_names) patterns thr method [].
Proof.
  intros Hm. unfold rare_format_detection. rewrite Hm. cbn [negb].
  destruct column_names as [|s|[|c l]]; try reflexivity.
  simpl. destruct (s =? ""); reflexivity.
Qed.

End EntryFacts.

(** X20.  When the call succeeds, its value has exactly one entry per
    analysed column (the given names, or the feature columns when none is
    given); every such column exists in the dataset and its entry is the
    analysis of that column. *)
Theorem value_has_one_entry_per_column
    (split_and_keep : string -> string -> list string)
    (split_and_keep_by_many : string -> list string -> list string)
    (dataset : Dataset) (column_names : column_names_arg)
    (patterns : list Pattern.t) (thr : Q) (method : string)
    (res : list (string * list (string * finding))) :
  rare_format_detection split_and_keep split_and_keep_by_many dataset
    column_names patterns thr method = Ok res ->
  NoDup (map fst res) /\
  (forall c, In c (map fst res) <->
             In c (requested_columns dataset column_names)) /\
  (forall c, In c (requested_columns dataset column_names) ->
     exists column df,
       dict_get (data dataset) c = Ok column /\
       _detect_per_column split_and_keep split_and_keep_by_many column
                          patterns thr method = Ok df /\
       dict_get res c = Ok df).
Proof.
  intros Hrun.
  assert (Hm : list_in method ["first"; "all"] = true).
  { unfold rare_format_detection in Hrun.
    destruct (list_in method ["first"; "all"]); [reflexivity|].
    simpl in Hrun. discriminate. }
  rewrite rare_format_detection_columns in Hrun by assumption.
  destruct (per_column_ok _ _ _ _ _ _ _ _ _ Hrun)
    as (Hin & _ & Hkeys & Hnd).
  split; [apply Hnd; constructor|].
  split; [|exact Hin].
  intros c. rewrite Hkeys. simpl. tauto.
Qed.

Lemma value_has_one_entry_per_column_witness :
  NoDup (map fst [("c", @nil (string * finding))])
  /\ (forall c, In c (map fst [("c", @nil (string * finding))]) <->
                In c (requested_columns
                        {| data := [("c", ["a1"; "a2"; "a3"; "b"])];
                           features := ["c"] |} NoNames)).
Proof.
  pose proof (value_has_one_entry_per_column
                StringUtils.split_and_keep StringUtils.split_and_keep_by_many
                {| data := [("c", ["a1"; "a2"; "a3"; "b"])];
                   features := ["c"] |}
                NoNames [empty_pattern] (1 # 2) "first" [("c", [])]) as H.
  destruct H as (H1 & H2 & _); [vm_compute; reflexivity|].
  split; assumption.
Defined.

(** X21.  For patterns whose fillers hold no backslash: a requested column
    that the dataset does not have makes the call raise; with a valid match
    mode the error is [KeyError] or [IndexError], never a value. *)
Theorem missing_column_raises
    (split_and_keep : string -> string -> list string)
    (split_and_keep_by_many : string -> list string -> list string)
    (dataset : Dataset) (column_names : column_names_arg)
    (patterns : list Pattern.t) (thr : Q) (method : string) (c : string) :
  forallb plain_fillers patterns = true ->
  method = "first" \/ method = "all" ->
  In c (requested_columns dataset column_names) ->
  ~ In c (map fst (data dataset)) ->
  exists e,
    rare_format_detection split_and_keep split_and_keep_by_many dataset
      column_names patterns thr method = Raise e /\
    (e = IndexError \/ exists k, e = KeyError k).
Proof.
  intros _ Hm Hc Hmissing.
  assert (Hin : list_in method ["first"; "all"] = true).
  { apply list_in_spec. simpl. destruct Hm; subst; tauto. }
  rewrite rare_format_detection_columns by assumption.
  destruct (per_column _ _ dataset (requested_columns dataset column_names)
                       patterns thr method []) as [res|e] eqn:Hrun.
  - exfalso.
    destruct (per_column_ok _ _ _ _ _ _ _ _ _ Hrun) as (Hok & _).
    destruct (Hok c Hc) as (column & _ & Hget & _).
    apply Hmissing. clear -Hget.
    induction (data dataset) as [|[k v] d IH]; simpl in *; [discriminate|].
    destruct (String.eqb_spec k c); [now left|right; now apply IH].
  - exists e. split; [reflexivity|].
    eapply per_column_raises. exact Hrun.
Qed.

Lemma missing_column_raises_witness :
  exists e,
    rare_format_detection StringUtils.split_and_keep
      StringUtils.split_and_keep_by_many
      {| data := [("c", ["a1"; "a2"; "a3"; "b"])]; features := ["c"] |}
      (Names ["c"; "d"]) DEFAULT_PATTERNS (1 # 2) "all" = Raise e /\
    (e = IndexError \/ exists k, e = KeyError k).
Proof.
  apply (missing_column_raises
           StringUtils.split_and_keep StringUtils.split_and_keep_by_many
           {| data := [("c", ["a1"; "a2"; "a3"; "b"])]; features := ["c"] |}
           (Names ["c"; "d"]) DEFAULT_PATTERNS (1 # 2) "all" "d").
  - reflexivity.
  - now right.
  - simpl. tauto.
  - simpl. intros [H|[]]. discriminate.
Defined.

(** X22.  The check class analyses the feature columns of the dataset,
    whatever its parameters: when [run] succeeds, its value has exactly one
    entry per feature column.  When the parameters set no match mode, [run]
    never raises the configuration error. *)
Theorem run_analyses_the_feature_columns
    (split_and_keep : string -> string -> list string)
    (split_and_keep_by_many : string -> list string -> list string)
    (params : check_params) (dataset : Dataset) :
  (forall res,
      RareFormatDetection_run split_and_keep split_and_keep_by_many
                              params dataset = Ok res ->
      NoDup (map fst res) /\
      forall c, In c (map fst res) <-> In c (features dataset)) /\
  (param_pattern_match_method params = None ->
   forall msg,
     RareFormatDetection_run split_and_keep split_and_keep_by_many
                             params dataset
     <> Raise (MLChecksValueError msg)).
Proof.
  unfold RareFormatDetection_run. split.
  - intros res Hrun.
    assert (Hm : list_in (params_get (param_pattern_match_method params)
                                     "first") ["first"; "all"] = true).
    { unfold rare_format_detection in Hrun.
      destruct (list_in _ ["first"; "all"]); [reflexivity|].
      simpl in Hrun. discriminate. }
    rewrite rare_format_detection_columns in Hrun by assumption.
    destruct (per_column_ok _ _ _ _ _ _ _ _ _ Hrun)
      as (_ & _ & Hkeys & Hnd).
    split; [apply Hnd; constructor|].
    intros c. rewrite Hkeys. simpl. tauto.
  - intros Hnone msg. rewrite Hnone. cbn [params_get].
    rewrite rare_format_detection_columns by reflexivity.
    intros Hraise. apply per_column_raises in Hraise.
    destruct Hraise as [H|[k H]]; discriminate.
Qed.

Lemma run_analyses_the_feature_columns_witness :
  RareFormatDetection_run StringUtils.split_and_keep
    StringUtils.split_and_keep_by_many
    {| param_patterns := None; param_rarity_threshold := None;
       param_pattern_match_method := None |}
    {| data := [("c", ["a1"; "a2"; "a3"; "b"])]; features := ["c"] |}
  <> Raise (MLChecksValueError "any").
Proof.
  apply (proj2 (run_analyses_the_feature_columns
                  StringUtils.split_and_keep
                  StringUtils.split_and_keep_by_many
                  {| param_patterns := None; param_rarity_threshold := None;
                     param_pattern_match_method := None |}
                  {| data := [("c", ["a1"; "a2"; "a3"; "b"])];
                     features := ["c"] |})).
  reflexivity.
Defined.

(** ** The label drift check *)

Lemma dict_get_ok {V} (d : list (string * V)) (k : string) :
  In k (map fst d) -> exists v, dict_get d k = Ok v.
Proof.
  induction d as [|[k0 v0] d IH]; simpl; [tauto|].
  destruct (String.eqb_spec k0 k) as [->|Hne]; [eauto|].
  intros [H|H]; [congruence|auto].
Qed.

Lemma dict_get_missing {V} (d : list (string * V)) (k : string) :
  ~ In k (map fst d) -> dict_get d k = Raise (KeyError k).
Proof.
  induction d as [|[k0 v0] d IH]; simpl; [reflexivity|].
  destruct (String.eqb_spec k0 k) as [->|Hne]; [tauto|].
  intros H. apply IH. tauto.
Qed.

Section LabelDriftFacts.

Variable CAT NUM : list string.
Variable format_number float_str : Q -> string.

Let condition := LabelDrift.condition CAT NUM format_number float_str.

(** X23.  A drift method that is in neither list of supported methods never
    fails the condition, however large the drift score is. *)
Theorem unknown_method_passes (max_cat max_num : Q)
    (result_dict : list (string * LabelDrift.value)) (score : Q)
    (method : LabelDrift.value) :
  dict_get result_dict "Drift score" = Ok (LabelDrift.VFloat score) ->
  dict_get result_dict "Method" = Ok method ->
  LabelDrift.method_in method CAT = false ->
  LabelDrift.method_in method NUM = false ->
  exists r,
    condition max_cat max_num result_dict = Ok r /\
    LabelDrift.category r = LabelDrift.PASS.
Proof.
  intros Hs Hm Hc Hn. unfold condition, LabelDrift.condition.
  rewrite Hs, Hm. cbn [bind]. rewrite Hc, Hn, !andb_false_r. cbn [orb].
  eexists. split; reflexivity.
Qed.

Lemma gt_mono (score a b : Q) :
  (a <= b)%Q -> LabelDrift.gt score b = true -> LabelDrift.gt score a = true.
Proof.
  unfold LabelDrift.gt. rewrite !negb_true_iff. intros Hab Hb.
  destruct (Qle_bool score a) eqn:Ha; [|reflexivity].
  apply Qle_bool_iff in Ha.
  assert (Hle : Qle_bool score b = true)
    by (apply Qle_bool_iff; now apply (Qle_trans _ a)).
  congruence.
Qed.

(** X24.  Raising the two thresholds never turns a passed condition into a
    failed one. *)
Theorem larger_thresholds_keep_a_pass (c c' n n' : Q)
    (result_dict : list (string * LabelDrift.value))
    (r : LabelDrift.ConditionResult) :
  (c <= c')%Q -> (n <= n')%Q ->
  condition c n result_dict = Ok r ->
  LabelDrift.category r = LabelDrift.PASS ->
  exists r',
    condition c' n' result_dict = Ok r' /\
    LabelDrift.category r' = LabelDrift.PASS /\
    LabelDrift.details r' = LabelDrift.details r.
Proof.
  intros Hc Hn. unfold condition, LabelDrift.condition.
  destruct (dict_get result_dict "Drift score") as [[score|s|]|];
    cbn [bind]; try discriminate;
    try (destruct (dict_get result_dict "Method"); discriminate).
  - destruct (dict_get result_dict "Method") as [method|]; cbn [bind];
      [|discriminate].
    intros H Hpass. inversion H; subst. cbn in Hpass |- *.
    eexists. split; [reflexivity|]. split; [|reflexivity]. cbn.
    destruct (LabelDrift.gt score c') eqn:Hgc.
    + rewrite (gt_mono _ _ _ Hc Hgc) in Hpass.
      destruct (LabelDrift.method_in method CAT); [discriminate|].
      cbn [andb orb] in *.
      destruct (LabelDrift.gt score n') eqn:Hgn; [|reflexivity].
      now rewrite (gt_mono _ _ _ Hn Hgn) in Hpass.
    + cbn [andb orb] in *.
      destruct (LabelDrift.gt score n') eqn:Hgn; [|reflexivity].
      rewrite (gt_mono _ _ _ Hn Hgn) in Hpass.
      destruct (LabelDrift.gt score c && LabelDrift.method_in method CAT);
        [discriminate|].
      exact Hpass.
Qed.

(** X25.  The condition raises [KeyError] for the key "Drift score" when it
    is missing, [KeyError] for "Method" when only that key is missing, and
    [TypeError] when both keys are there and the drift score is a string or
    [None]; with both keys and a number as drift score it raises nothing. *)
Theorem condition_errors (c n : Q)
    (result_dict : list (string * LabelDrift.value)) :
  (~ In "Drift score" (map fst result_dict) ->
   condition c n result_dict = Raise (KeyError "Drift score")) /\
  (In "Drift score" (map fst result_dict) ->
   ~ In "Method" (map fst result_dict) ->
   condition c n result_dict = Raise (KeyError "Method")) /\
  (forall score method,
      dict_get result_dict "Drift score" = Ok score ->
      dict_get result_dict "Method" = Ok method ->
      match score with
      | LabelDrift.VFloat _ => exists r, condition c n result_dict = Ok r
      | LabelDrift.VStr _ | LabelDrift.VNone =>
          condition c n result_dict = Raise TypeError
      end).
Proof.
  unfold condition, LabelDrift.condition. split; [|split].
  - intros Hs. now rewrite (dict_get_missing _ _ Hs).
  - intros Hs Hm. destruct (dict_get_ok _ _ Hs) as [score Hscore].
    rewrite Hscore, (dict_get_missing _ _ Hm). reflexivity.
  - intros score method Hscore Hmethod. rewrite Hscore, Hmethod. cbn [bind].
    destruct score; [eexists|..]; reflexivity.
Qed.

Section RunLogic.

Variable TaskType : Type.
Variable is_regression : TaskType -> bool.
Variable TabularDataset Column : Type.
Variable sample : TabularDataset -> nat -> nat -> TabularDataset.
Variable label_col : TabularDataset -> Column.
Variable label_name dataset_name : TabularDataset -> string.
Variable Plot DriftError : Type.
Variable calc_drift_and_plot :
  LabelDrift.drift_args Column ->
  DriftError + (LabelDrift.value * LabelDrift.value * Plot).
Variable get_drift_plot_sidenote : nat -> string -> string.
Variable CheckResult : Type.
Variable new_CheckResult :
  list (string * LabelDrift.value) ->
  option (list (LabelDrift.display_item Plot)) -> string -> CheckResult.
Variable value_of : CheckResult -> list (string * LabelDrift.value).

Let run_logic :=
  LabelDrift.run_logic TaskType is_regression TabularDataset Column sample
    label_col label_name dataset_name Plot DriftError calc_drift_and_plot
    get_drift_plot_sidenote CheckResult new_CheckResult.


End RunLogic.

End LabelDriftFacts.

Lemma unknown_method_passes_witness :
  exists r,
    LabelDrift.condition ["Cramer's V"; "PSI"]
      ["Earth Mover's Distance"; "Kolmogorov-Smirnov"]
      (fun _ => "0.9") (fun _ => "0.15") (15 # 100) (15 # 100)
      [("Drift score", LabelDrift.VFloat (9 # 10));
       ("Method", LabelDrift.VStr "none")] = Ok r /\
    LabelDrift.category r = LabelDrift.PASS.
Proof.
  apply (unknown_method_passes ["Cramer's V"; "PSI"]
           ["Earth Mover's Distance"; "Kolmogorov-Smirnov"]
           (fun _ => "0.9") (fun _ => "0.15") (15 # 100) (15 # 100)
           [("Drift score", LabelDrift.VFloat (9 # 10));
            ("Method", LabelDrift.VStr "none")]
           (9 # 10) (LabelDrift.VStr "none")); reflexivity.
Defined.

Lemma larger_thresholds_keep_a_pass_witness :
  exists r',
    LabelDrift.condition ["Cramer's V"; "PSI"]
      ["Earth Mover's Distance"; "Kolmogorov-Smirnov"]
      (fun _ => "0.1") (fun _ => "0.2") (2 # 10) (2 # 10)
      [("Drift score", LabelDrift.VFloat (1 # 10));
       ("Method", LabelDrift.VStr "PSI")] = Ok r' /\
    LabelDrift.category r' = LabelDrift.PASS /\
    LabelDrift.details r' = "Label's drift score PSI is 0.1".
Proof.
  apply (larger_thresholds_keep_a_pass ["Cramer's V"; "PSI"]
           ["Earth Mover's Distance"; "Kolmogorov-Smirnov"]
           (fun _ => "0.1") (fun _ => "0.2")
           (15 # 100) (2 # 10) (15 # 100) (2 # 10)
           [("Drift score", LabelDrift.VFloat (1 # 10));
            ("Method", LabelDrift.VStr "PSI")]
           {| LabelDrift.category := LabelDrift.PASS;
              LabelDrift.details := "Label's drift score PSI is 0.1" |}).
  - unfold Qle. simpl. lia.
  - unfold Qle. simpl. lia.
  - vm_compute. reflexivity.
  - reflexivity.
Defined.

Lemma condition_errors_witness :
  LabelDrift.condition ["Cramer's V"; "PSI"]
    ["Earth Mover's Distance"; "Kolmogorov-Smirnov"]
    (fun _ => "0.1") (fun _ => "0.2") (15 # 100) (15 # 100)
    [("Drift score", LabelDrift.VNone); ("Method", LabelDrift.VStr "PSI")]
  = Raise TypeError.
Proof.
  exact (proj2 (proj2 (condition_errors ["Cramer's V"; "PSI"]
           ["Earth Mover's Distance"; "Kolmogorov-Smirnov"]
           (fun _ => "0.1") (fun _ => "0.2") (15 # 100) (15 # 100)
           [("Drift score", LabelDrift.VNone);
            ("Method", LabelDrift.VStr "PSI")]))
         LabelDrift.VNone (LabelDrift.VStr "PSI") eq_refl eq_refl).
Defined.


(* ================================================================== *)
(** * The refinement and the arity of the samples *)

Lemma getitem_out_of_range {A} (xs : list A) (i : nat) :
  (List.length xs <= i)%nat -> getitem xs i = Raise IndexError.
Proof.
  intros Hi. unfold getitem. apply nth_error_None in Hi. now rewrite Hi.
Qed.

Lemma chars_get (s : string) (i : nat) (c : ascii) :
  String.get i s = Some c -> nth i (chars s) "" = String c "".
Proof.
  revert i. induction s as [|d s IH]; intros i; simpl; [discriminate|].
  destruct i as [|i]; [intros H; now inversion H|apply IH].
Qed.

(** What a successful run of the loop went through at each index. *)
Lemma refine_loop_ok_inv (substr : string) (splt_fmt example : list string)
    (others : list (list string)) (idxs : list nat) :
  forall new_format out,
    refine_loop substr splt_fmt example others idxs new_format = Ok out ->
    forall i, In i idxs ->
      exists tok,
        getitem splt_fmt i = Ok tok /\
        (tok = substr ->
         exists common_value agree,
           getitem example i = Ok common_value /\
           all_agree i common_value others = Ok agree).
Proof.
  induction idxs as [|j rest IH]; intros acc out Hrun i Hi; [contradiction|].
  cbn [refine_loop] in Hrun.
  destruct (getitem splt_fmt j) as [tok|] eqn:H1; cbn [bind] in Hrun;
    [|discriminate].
  destruct (String.eqb_spec tok substr) as [Heq|Hne]; cbn [negb] in Hrun.
  - destruct (getitem example j) as [cv|] eqn:H2; cbn [bind] in Hrun;
      [|discriminate].
    destruct (all_agree j cv others) as [agree|] eqn:H3; cbn [bind] in Hrun;
      [|discriminate].
    destruct Hi as [<-|Hi].
    + exists tok. split; [assumption|]. intros _. eauto.
    + destruct agree; eapply IH; eassumption.
  - destruct Hi as [<-|Hi].
    + exists tok. split; [assumption|]. intros Heq. contradiction.
    + eapply IH; eassumption.
Qed.

(** The loop succeeds as soon as every index is inside the skeleton, the
    first sample and the other samples. *)
Lemma refine_loop_within (substr : string) (splt_fmt example : list string)
    (others : list (list string)) (idxs : list nat) :
  Forall (fun i => (i < List.length splt_fmt)%nat /\
                   (i < List.length example)%nat /\
                   Forall (fun s => (i < List.length s)%nat) others) idxs ->
  forall new_format,
    refine_loop substr splt_fmt example others idxs new_format
    = Ok (new_format
          ++ map (refined_token substr splt_fmt example others) idxs).
Proof.
  induction 1 as [|i rest (Hf & He & Ho) Hrest IH]; intros new_format; simpl.
  - now rewrite app_nil_r.
  - unfold refined_token at 1.
    rewrite (getitem_nth splt_fmt i "" Hf). simpl.
    destruct (negb (nth i splt_fmt "" =? substr)).
    + rewrite IH, <- app_assoc. reflexivity.
    + rewrite (getitem_nth example i "" He). simpl.
      rewrite (all_agree_aligned i _ others Ho). simpl.
      destruct (forallb _ others); rewrite IH, <- app_assoc; reflexivity.
Qed.

Section Arity.

Variable split_and_keep : string -> string -> list string.
Variable split_and_keep_by_many : string -> list string -> list string.

Let refine_formats := _refine_formats split_and_keep split_and_keep_by_many.

(** The refinement in character mode, once the filler is known to occur. *)
Lemma refine_char_mode fmt substr first rest :
  str_in substr fmt = true ->
  refine_formats fmt substr (first :: rest) false
  = (new_format <- refine_loop substr (chars fmt) (chars first)
                     (map chars rest) (seq 0 (String.length first)) [] ;;
     Ok (join new_format)).
Proof.
  intros Hin. unfold refine_formats, _refine_formats. rewrite Hin.
  cbn [negb map getitem nth_error bind tl]. now rewrite chars_length.
Qed.

Lemma refine_char_mode_raises fmt substr first rest :
  str_in substr fmt = true ->
  (forall out,
      refine_loop substr (chars fmt) (chars first) (map chars rest)
                  (seq 0 (String.length first)) [] <> Ok out) ->
  refine_formats fmt substr (first :: rest) false = Raise IndexError.
Proof.
  intros Hin Hnot.
  destruct (refine_formats fmt substr (first :: rest) false) as [out|e]
    eqn:Hrun.
  - exfalso. rewrite refine_char_mode in Hrun by assumption.
    destruct (refine_loop _ _ _ _ _ _) as [nf|]; [|discriminate].
    now apply (Hnot nf).
  - f_equal. eapply refine_formats_raises. exact Hrun.
Qed.

Lemma longer_first_sample_raises fmt substr first rest :
  str_in substr fmt = true ->
  (String.length fmt < String.length first)%nat ->
  refine_formats fmt substr (first :: rest) false = Raise IndexError.
Proof.
  intros Hin Hlen. apply refine_char_mode_raises; [assumption|].
  intros out Hrun.
  destruct (refine_loop_ok_inv _ _ _ _ _ _ _ Hrun (String.length fmt))
    as (tok & Htok & _).
  - apply in_seq. lia.
  - rewrite getitem_out_of_range in Htok; [discriminate|].
    now rewrite chars_length.
Qed.

Lemma short_second_sample_raises fmt first second more i c :
  str_in (String c "") fmt = true ->
  (i < String.length first)%nat ->
  (String.length second <= i)%nat ->
  String.get i fmt = Some c ->
  refine_formats fmt (String c "") (first :: second :: more) false
  = Raise IndexError.
Proof.
  intros Hin Hi Hshort Hget. apply refine_char_mode_raises; [assumption|].
  intros out Hrun.
  destruct (refine_loop_ok_inv _ _ _ _ _ _ _ Hrun i) as (tok & Htok & Hfill).
  - apply in_seq. lia.
  - assert (Hlt : (i < List.length (chars fmt))%nat).
    { unfold getitem in Htok.
      destruct (nth_error (chars fmt) i) eqn:Hn; [|discriminate].
      apply nth_error_Some. congruence. }
    rewrite (getitem_nth _ _ "" Hlt), (chars_get _ _ _ Hget) in Htok.
    inversion Htok; subst tok.
    destruct (Hfill eq_refl) as (cv & agree & _ & Hagree).
    cbn [map all_agree] in Hagree.
    rewrite getitem_out_of_range in Hagree; [discriminate|].
    now rewrite chars_length.
Qed.

Lemma short_first_sample_passes fmt substr first rest :
  (String.length first <= String.length fmt)%nat ->
  Forall (fun t => (String.length first <= String.length t)%nat) rest ->
  exists out,
    refine_formats fmt substr (first :: rest) false = Ok out /\
    (str_in substr fmt = true -> String.length out = String.length first).
Proof.
  intros Hfirst Hrest.
  destruct (str_in substr fmt) eqn:Hin.
  - rewrite refine_char_mode by assumption.
    rewrite refine_loop_within.
    + cbn [app bind]. eexists. split; [reflexivity|]. intros _.
      pose proof (refine_loop_within substr (chars fmt) (chars first)
                    (map chars rest) (seq 0 (String.length first))) as Hok.
      assert (Hrun : refine_loop substr (chars fmt) (chars first)
                       (map chars rest) (seq 0 (String.length first)) []
                     = Ok (map (refined_token substr (chars fmt)
                                  (chars first) (map chars rest))
                               (seq 0 (String.length first)))).
      { apply Hok. apply Forall_forall. intros i Hi. apply in_seq in Hi.
        rewrite !chars_length. repeat split; try lia.
        apply Forall_map. eapply Forall_impl; [|exact Hrest].
        simpl. intros t Ht. rewrite chars_length. lia. }
      destruct (refine_loop_shape (fun t => String.length t = 1%nat)
                  _ _ _ _ (chars_one fmt) (chars_one first) _ _ _
                  (Forall_nil _) Hrun) as (Hone & Hlen).
      rewrite (join_length _ Hone), Hlen, length_seq. reflexivity.
    + apply Forall_forall. intros i Hi. apply in_seq in Hi.
      rewrite !chars_length. repeat split; try lia.
      apply Forall_map. eapply Forall_impl; [|exact Hrest].
      simpl. intros t Ht. rewrite chars_length. lia.
  - exists fmt. split; [|discriminate].
    now apply refine_formats_without_filler.
Qed.

End Arity.

(** C7 (amended).  Called without samples on a skeleton that holds the
    filler, the refinement fails with [IndexError]; [IndexError] is its only
    failure.  The arity of the samples is not checked.  In character mode,
    when the filler occurs in the skeleton: a first sample longer than the
    skeleton raises [IndexError]; a second sample that ends at or before a
    filler position of the skeleton inside the first sample raises
    [IndexError]; and when the first sample is no longer than the skeleton
    and no other sample is shorter than the first, nothing is raised and the
    result is as long as the first sample. *)
Theorem refine_failures_are_index_errors
    (split_and_keep : string -> string -> list string)
    (split_and_keep_by_many : string -> list string -> list string) :
  (forall fmt substr is_substr_sequence,
      (exists a b, fmt = (a ++ substr ++ b)%string) ->
      _refine_formats split_and_keep split_and_keep_by_many
                      fmt substr [] is_substr_sequence = Raise IndexError) /\
  (forall fmt substr samples is_substr_sequence e,
      _refine_formats split_and_keep split_and_keep_by_many
                      fmt substr samples is_substr_sequence = Raise e ->
      e = IndexError) /\
  (forall fmt substr first rest,
      (exists a b, fmt = (a ++ substr ++ b)%string) ->
      (String.length fmt < String.length first)%nat ->
      _refine_formats split_and_keep split_and_keep_by_many
                      fmt substr (first :: rest) false = Raise IndexError) /\
  (forall fmt c first second more i,
      String.get i fmt = Some c ->
      (i < String.length first)%nat ->
      (String.length second <= i)%nat ->
      _refine_formats split_and_keep split_and_keep_by_many
                      fmt (String c "") (first :: second :: more) false
      = Raise IndexError) /\
  (forall fmt substr first rest,
      (exists a b, fmt = (a ++ substr ++ b)%string) ->
      (String.length first <= String.length fmt)%nat ->
      Forall (fun t => (String.length first <= String.length t)%nat) rest ->
      exists out,
        _refine_formats split_and_keep split_and_keep_by_many
                        fmt substr (first :: rest) false = Ok out /\
        String.length out = String.length first).
Proof.
  split; [|split; [|split; [|split]]].
  - intros fmt substr sq Hocc. apply refine_formats_no_samples.
    now apply str_in_spec.
  - intros fmt substr samples sq e. apply refine_formats_raises.
  - intros fmt substr first rest Hocc Hlen.
    apply longer_first_sample_raises; [now apply str_in_spec|assumption].
  - intros fmt c first second more i Hget Hi Hshort.
    apply (short_second_sample_raises _ _ fmt first second more i c);
      try assumption.
    apply str_in_spec. clear -Hget. revert i Hget.
    induction fmt as [|d fmt IH]; intros i Hget; simpl in Hget;
      [discriminate|].
    destruct i as [|i].
    + inversion Hget; subst. exists "", fmt. reflexivity.
    + destruct (IH i Hget) as (a & b & ->). exists (String d a), b.
      reflexivity.
  - intros fmt substr first rest Hocc Hfirst Hrest.
    destruct (short_first_sample_passes split_and_keep
                split_and_keep_by_many fmt substr first rest Hfirst Hrest)
      as (out & Hout & Hlen).
    exists out. split; [assumption|]. apply Hlen. now apply str_in_spec.
Qed.

Lemma refine_failures_are_index_errors_witness :
  (exists a b, "XXX@XXX.XXX" = (a ++ "XXX" ++ b)%string)
  /\ refine_formats_with_utils "XXX@XXX.XXX" "XXX" [] true = Raise IndexError
  /\ refine_formats_with_utils "00" "0" ["123"] false = Raise IndexError
  /\ refine_formats_with_utils "00" "0" ["12"; "1"] false = Raise IndexError
  /\ exists out,
       refine_formats_with_utils "0-0" "0" ["1"; "23"] false = Ok out /\
       String.length out = String.length "1".
Proof.
  assert (Hocc : exists a b, "XXX@XXX.XXX" = (a ++ "XXX" ++ b)%string)
    by (exists "", "@XXX.XXX"; reflexivity).
  pose proof (refine_failures_are_index_errors
                StringUtils.split_and_keep
                StringUtils.split_and_keep_by_many)
    as (H1 & _ & H3 & H4 & H5).
  split; [exact Hocc|].
  split; [exact (H1 "XXX@XXX.XXX" "XXX" true Hocc)|].
  split.
  { apply (H3 "00" "0" "123" []).
    - exists "", "0". reflexivity.
    - simpl. lia. }
  split.
  { apply (H4 "00" "0"%char "12" "1" [] 1%nat).
    - reflexivity.
    - simpl. lia.
    - simpl. lia. }
  apply (H5 "0-0" "0" "1" ["23"]).
  - exists "", "-0". reflexivity.
  - simpl. lia.
  - repeat constructor.
Defined.
